(** * Encrypted memory persistence layer: key management, envelope
      encryption and the Arkiv entity store adapter.

    Shallow embedding of
      - [KeyManagementService]   (key derivation and the session key cache),
      - [EncryptionService]      (envelope encryption over CryptoJS),
      - [ArkivStorageService]    (tiered retrieval, breaker, local key index),
      - [ChatService.generateChecksum] and [decryptMemory] of the memory list,
    followed by the properties established about them.

    Conventions.  A method of a class becomes a computation in the monad
    [M W], where [W] holds the fields of the object together with the part
    of the environment the method touches (the random tape, the remote
    store, [localStorage]).  A JavaScript exception is the [Throw] outcome,
    [try { } catch { }] is [try_catch].  [console.log] calls are dropped. *)

From Stdlib Require Import ZArith Ascii String List Lia.
From Stdlib.Strings Require Import Byte.
From stdpp Require Import base option list gmap strings pretty.

Local Open Scope string_scope.

(** ** Outcomes and the state-and-exception monad *)

Inductive Outcome (A : Type) : Type :=
| Ok (a : A)
| Throw (msg : string).
Arguments Ok {A} a.
Arguments Throw {A} msg.

Definition M (W A : Type) : Type := W -> Outcome A * W.

Definition ret {W A} (a : A) : M W A := fun w => (Ok a, w).

Definition throw {W A} (msg : string) : M W A := fun w => (Throw msg, w).

Definition bind {W A B} (m : M W A) (k : A -> M W B) : M W B :=
  fun w => match m w with
           | (Ok a, w') => k a w'
           | (Throw e, w') => (Throw e, w')
           end.

Definition try_catch {W A} (m : M W A) (handler : string -> M W A) : M W A :=
  fun w => match m w with
           | (Ok a, w') => (Ok a, w')
           | (Throw e, w') => handler e w'
           end.

Definition get {W} : M W W := fun w => (Ok w, w).
Definition gets {W A} (f : W -> A) : M W A := fun w => (Ok (f w), w).
Definition modify {W} (f : W -> W) : M W unit := fun w => (Ok tt, f w).

Notation "'let*' x ':=' m 'in' k" := (bind m (fun x => k))
  (at level 10, x name, m at level 100, k at level 200).
Notation "m ';;;' k" := (bind m (fun _ => k))
  (at level 100, k at level 200, right associativity).

(** [for (const x of xs) { body }] that collects results. *)
Fixpoint mapM {W A B} (f : A -> M W B) (xs : list A) : M W (list B) :=
  match xs with
  | [] => ret []
  | x :: xs' => let* y := f x in let* ys := mapM f xs' in ret (y :: ys)
  end.

(** [m] keeps [P]: from a world in [P] it ends in a world in [P],
    whether it returns or raises. *)
Definition keeps {W A} (P : W -> Prop) (m : M W A) : Prop :=
  forall w r w', P w -> m w = (r, w') -> P w'.

(** JavaScript truthiness of a possibly-missing string: [undefined] and
    the empty string are falsy. *)
Definition truthy (s : option string) : bool :=
  match s with
  | Some (String _ _) => true
  | _ => false
  end.

(** [a || b] on possibly-missing strings, with [b] an effectful default
    that is only evaluated when needed. *)
Definition or_else {W} (s : option string) (dflt : M W string) : M W string :=
  match s with
  | Some (String c r) => ret (String c r)
  | _ => dflt
  end.

(** ** Platform: randomness and clock *)

(** The sources of non-determinism the services read: the byte tape behind
    [crypto.getRandomValues] and [CryptoJS.lib.WordArray.random], the
    values of [Date.now()] and the text of
    [Math.random().toString(36).substr(2, 9)].  Each is indexed by the
    number of draws made so far, kept as a cursor in the world. *)
Class Platform : Type := {
  random_byte : nat -> byte;
  date_now : nat -> N;
  math_random36 : nat -> string;
}.

Definition hex_digit (n : N) : ascii :=
  match n with
  | 0 => "0" | 1 => "1" | 2 => "2" | 3 => "3" | 4 => "4" | 5 => "5"
  | 6 => "6" | 7 => "7" | 8 => "8" | 9 => "9" | 10 => "a" | 11 => "b"
  | 12 => "c" | 13 => "d" | 14 => "e" | _ => "f"
  end%N%char.

(** [byte.toString(16).padStart(2, '0')] *)
Definition byte_to_hex (b : byte) : string :=
  let n := Byte.to_N b in
  String (hex_digit (n / 16)) (String (hex_digit (n mod 16)) EmptyString).

Fixpoint concat_strings (l : list string) : string :=
  match l with
  | [] => ""
  | s :: r => s ++ concat_strings r
  end.

(** [Array.from(array, byte => ...).join('')] *)
Definition bytes_to_hex (bs : list byte) : string :=
  concat_strings (map byte_to_hex bs).

Definition tape_bytes `{Platform} (from n : nat) : list byte :=
  map random_byte (seq from n).

(** ** Key records *)

Record EncryptionKey : Type := {
  publicKey : string;
  privateKey : option string;   (* [privateKey?: string], read as [key.privateKey!] *)
  keyId : string;
  algorithm : string;
  createdAt : N;
  salt : option string;
}.

(** Single symmetric material under both legacy names. *)
Definition symmetric (k : EncryptionKey) : Prop :=
  privateKey k = Some (publicKey k).

Global Instance symmetric_dec k : Decision (symmetric k).
Proof. unfold symmetric. apply _. Defined.

(** Every key of a cache is symmetric. *)
Definition cache_symmetric (m : gmap string EncryptionKey) : Prop :=
  map_Forall (fun _ k => symmetric k) m.

(** ** KeyManagementService *)

Module KeyManagement.

Record KeyManagementService : Type := {
  sessionKeys : gmap string EncryptionKey;
  masterKey : option string;
}.

(** The object together with the cursor into the platform tapes. *)
Record World : Type := {
  kms : KeyManagementService;
  tick : nat;
}.

Definition constructor : KeyManagementService :=
  {| sessionKeys := ∅; masterKey := None |}.

Definition set_kms (f : KeyManagementService -> KeyManagementService)
  : M World unit :=
  modify (fun w => {| kms := f (kms w); tick := tick w |}).

Section WithPlatform.
Context `{Platform}.

Definition draw_bytes (n : nat) : M World (list byte) :=
  fun w => (Ok (tape_bytes (tick w) n),
            {| kms := kms w; tick := tick w + n |}).

Definition Date_now : M World N :=
  fun w => (Ok (date_now (tick w)), {| kms := kms w; tick := S (tick w) |}).

Definition Math_random36 : M World string :=
  fun w => (Ok (math_random36 (tick w)),
            {| kms := kms w; tick := S (tick w) |}).

Definition initializeWithPassword (password : string) : M World unit :=
  set_kms (fun s => {| sessionKeys := sessionKeys s;
                       masterKey := Some password |}).

Definition generateRandomKey : M World string :=
  let* array := draw_bytes 32 in ret (bytes_to_hex array).

Definition generateRandomSalt : M World string :=
  let* array := draw_bytes 32 in ret (bytes_to_hex array).

Definition generateKeyId : M World string :=
  let* now := Date_now in
  let* r := Math_random36 in
  ret ("key_" ++ pretty now ++ "_" ++ r).

Definition store (id : string) (k : EncryptionKey) : M World unit :=
  set_kms (fun s => {| sessionKeys := <[id := k]> (sessionKeys s);
                       masterKey := masterKey s |}).

Definition generateSessionKey (keyId : option string)
  : M World EncryptionKey :=
  let* keyId_ := or_else keyId generateKeyId in
  let* key := generateRandomKey in
  let* now := Date_now in
  let encryptionKey :=
    {| publicKey := key; privateKey := Some key; keyId := keyId_;
       algorithm := "AES-256-GCM"; createdAt := now; salt := None |} in
  store keyId_ encryptionKey;;;
  ret encryptionKey.

Definition generateMemoryKey (memoryId : string) (salt : option string)
  : M World EncryptionKey :=
  let* mk := gets (fun w => masterKey (kms w)) in
  match mk with
  | Some (String c r) =>
      let masterKey := String c r in
      let keyId := "memory_" ++ memoryId in
      let* memorySalt := or_else salt generateRandomSalt in
      let keyMaterial := masterKey ++ "_" ++ memoryId ++ "_" ++ memorySalt in
      let* now := Date_now in
      let encryptionKey :=
        {| publicKey := keyMaterial; privateKey := Some keyMaterial;
           keyId := keyId; algorithm := "AES-256-GCM"; createdAt := now;
           salt := Some memorySalt |} in
      store keyId encryptionKey;;;
      ret encryptionKey
  | _ =>
      throw "Master key not initialized. Call initializeWithPassword() first."
  end.

Definition getKey (s : KeyManagementService) (keyId : string)
  : option EncryptionKey :=
  sessionKeys s !! keyId.

Definition clearSession : M World unit :=
  set_kms (fun _ => {| sessionKeys := ∅; masterKey := None |}).

Definition isInitialized (s : KeyManagementService) : bool :=
  truthy (masterKey s).

End WithPlatform.

End KeyManagement.

(** ** EncryptionService *)

(** The CryptoJS functions the service calls.  A [WordArray] is
    represented by its hexadecimal text, as [toString(CryptoJS.enc.Hex)]
    prints it. *)
Class CryptoJS : Type := {
  (** [CryptoJS.enc.Hex.parse(s)], as the hexadecimal text of the result *)
  Hex_parse : string -> string;
  (** [CryptoJS.PBKDF2(password, salt, {keySize: 8, iterations, SHA256})] *)
  PBKDF2 : string -> string -> N -> string;
  (** [CryptoJS.AES.encrypt(content, key, {iv, CBC, Pkcs7}).toString()] *)
  AES_encrypt : string -> string -> string -> string;
  (** [CryptoJS.AES.decrypt(ciphertext, key, {iv, CBC, Pkcs7})
        .toString(CryptoJS.enc.Utf8)]; [None] when the bytes are not
      UTF-8 and [toString] raises *)
  AES_decrypt_utf8 : string -> string -> string -> option string;
}.

(** What the properties below rely on: parsing printed hexadecimal gives
    the same bytes back, and AES-CBC decryption under the key and IV of
    the encryption recovers the text. *)
Class CryptoJSLaws `{CryptoJS} : Prop := {
  Hex_parse_printed : forall bs, Hex_parse (bytes_to_hex bs) = bytes_to_hex bs;
  AES_roundtrip : forall content key iv,
    AES_decrypt_utf8 (AES_encrypt content key iv) key iv = Some content;
}.

Module Encryption.

Record EncryptionConfig : Type := {
  cfg_algorithm : string;
  keyDerivation : string;
  iterations : N;
  saltLength : nat;
  ivLength : nat;
  tagLength : nat;
}.

(** [Partial<EncryptionConfig>] *)
Record PartialConfig : Type := {
  p_algorithm : option string;
  p_keyDerivation : option string;
  p_iterations : option N;
  p_saltLength : option nat;
  p_ivLength : option nat;
  p_tagLength : option nat;
}.

Definition no_config : PartialConfig :=
  {| p_algorithm := None; p_keyDerivation := None; p_iterations := None;
     p_saltLength := None; p_ivLength := None; p_tagLength := None |}.

Record EncryptedData : Type := {
  encryptedContent : string;
  iv : string;
  e_salt : string;
  tag : string;
  e_algorithm : string;
  e_keyDerivation : string;
  e_iterations : N;
}.

Record DecryptionResult : Type := {
  content : string;
  decryptedAt : N;
  keyUsed : string;
  d_algorithm : string;
}.

Record EncryptionService : Type := {
  config : EncryptionConfig;
  keys : gmap string EncryptionKey;
}.

Record World : Type := {
  enc : EncryptionService;
  tick : nat;
}.

(** [{ algorithm: 'AES-256-GCM', ..., ...config }] *)
Definition constructor (c : PartialConfig) : EncryptionService :=
  {| config :=
       {| cfg_algorithm := default "AES-256-GCM" (p_algorithm c);
          keyDerivation := default "PBKDF2" (p_keyDerivation c);
          iterations := default 100000%N (p_iterations c);
          saltLength := default 32 (p_saltLength c);
          ivLength := default 16 (p_ivLength c);
          tagLength := default 16 (p_tagLength c) |};
     keys := ∅ |}.

Definition set_keys (f : gmap string EncryptionKey -> gmap string EncryptionKey)
  : M World unit :=
  modify (fun w => {| enc := {| config := config (enc w);
                                keys := f (keys (enc w)) |};
                      tick := tick w |}).

Section WithPlatform.
Context `{Platform} `{CryptoJS}.

(** [CryptoJS.lib.WordArray.random(n)] *)
Definition WordArray_random (n : nat) : M World string :=
  fun w => (Ok (bytes_to_hex (tape_bytes (tick w) n)),
            {| enc := enc w; tick := tick w + n |}).

Definition Date_now : M World N :=
  fun w => (Ok (date_now (tick w)), {| enc := enc w; tick := S (tick w) |}).

Definition Math_random36 : M World string :=
  fun w => (Ok (math_random36 (tick w)),
            {| enc := enc w; tick := S (tick w) |}).

Definition generateKeyId : M World string :=
  let* now := Date_now in
  let* r := Math_random36 in
  ret ("key_" ++ pretty now ++ "_" ++ r).

Definition generateKeyPair (keyId : option string) : M World EncryptionKey :=
  let* key := WordArray_random 32 in
  let* keyId_ := or_else keyId generateKeyId in
  let* alg := gets (fun w => cfg_algorithm (config (enc w))) in
  let* now := Date_now in
  let encryptionKey :=
    {| publicKey := key; privateKey := Some key; keyId := keyId_;
       algorithm := alg; createdAt := now; salt := None |} in
  set_keys (insert keyId_ encryptionKey);;;
  ret encryptionKey.

Definition generateKeyFromPassword (password : string) (salt : option string)
  : M World EncryptionKey :=
  let* keyId := generateKeyId in
  let* saltBytes :=
    match salt with
    | Some (String c r) => ret (Hex_parse (String c r))
    | _ => WordArray_random 32
    end in
  let* iters := gets (fun w => iterations (config (enc w))) in
  let derivedKey := PBKDF2 password saltBytes iters in
  let* alg := gets (fun w => cfg_algorithm (config (enc w))) in
  let* now := Date_now in
  let encryptionKey :=
    {| publicKey := derivedKey; privateKey := Some derivedKey;
       keyId := keyId; algorithm := alg; createdAt := now;
       salt := Some saltBytes |} in
  set_keys (insert keyId encryptionKey);;;
  ret encryptionKey.

(** [key.privateKey!] handed to [CryptoJS.PBKDF2]: an [undefined]
    password makes the library raise a [TypeError]. *)
Definition password_of (key : EncryptionKey) : M World string :=
  match privateKey key with
  | Some pk => ret pk
  | None => throw "TypeError"
  end.

Definition encrypt (content : string) (keyId : option string)
    (keyManagementService : option KeyManagement.KeyManagementService)
  : M World EncryptedData :=
  (* if (keyId && keyManagementService) key = kms.getKey(keyId) *)
  let key0 :=
    match keyId, keyManagementService with
    | Some (String c r), Some kms => KeyManagement.getKey kms (String c r)
    | _, _ => None
    end in
  (* if (!key && keyId) key = this.keys.get(keyId) *)
  let* key1 :=
    match key0, keyId with
    | None, Some (String c r) =>
        gets (fun w => keys (enc w) !! String c r)
    | _, _ => ret key0
    end in
  (* if (!key) key = this.generateKeyPair(); the following
     [if (!key) throw] cannot fire: generateKeyPair returns an object *)
  let* key :=
    match key1 with
    | Some k => ret k
    | None => generateKeyPair None
    end in
  let* cfg := gets (fun w => config (enc w)) in
  let* salt := WordArray_random (saltLength cfg) in
  let* iv := WordArray_random (ivLength cfg) in
  let* pw := password_of key in
  let derivedKey := PBKDF2 pw salt (iterations cfg) in
  let encrypted := AES_encrypt content derivedKey iv in
  ret {| encryptedContent := encrypted; iv := iv; e_salt := salt;
         tag := ""; e_algorithm := cfg_algorithm cfg;
         e_keyDerivation := keyDerivation cfg;
         e_iterations := iterations cfg |}.

Definition decrypt (encryptedData : EncryptedData) (keyId : string)
    (keyManagementService : option KeyManagement.KeyManagementService)
  : M World DecryptionResult :=
  let key0 :=
    match keyManagementService with
    | Some kms => KeyManagement.getKey kms keyId
    | None => None
    end in
  let* key1 :=
    match key0 with
    | Some k => ret (Some k)
    | None => gets (fun w => keys (enc w) !! keyId)
    end in
  match key1 with
  | None => throw "Decryption key not found"
  | Some key =>
      let salt := Hex_parse (e_salt encryptedData) in
      let iv := Hex_parse (iv encryptedData) in
      let* pw := password_of key in
      let derivedKey := PBKDF2 pw salt (e_iterations encryptedData) in
      match AES_decrypt_utf8 (encryptedContent encryptedData) derivedKey iv with
      | None => throw "Malformed UTF-8 data"
      | Some "" =>
          throw "Decryption failed - invalid key or corrupted data"
      | Some content =>
          let* now := Date_now in
          ret {| content := content; decryptedAt := now;
                 keyUsed := keyId;
                 d_algorithm := e_algorithm encryptedData |}
      end
  end.

(** The envelope [encrypt] builds once the key is settled: salt and IV
    come from the tape at [t], the rest from the configuration. *)
Definition envelope (cfg : EncryptionConfig) (t : nat) (password content : string)
  : EncryptedData :=
  let salt := bytes_to_hex (tape_bytes t (saltLength cfg)) in
  let iv := bytes_to_hex (tape_bytes (t + saltLength cfg) (ivLength cfg)) in
  {| encryptedContent :=
       AES_encrypt content (PBKDF2 password salt (iterations cfg)) iv;
     iv := iv; e_salt := salt; tag := "";
     e_algorithm := cfg_algorithm cfg; e_keyDerivation := keyDerivation cfg;
     e_iterations := iterations cfg |}.

Definition removeKey (keyId : string) : M World bool :=
  let* present := gets (fun w => bool_decide (is_Some (keys (enc w) !! keyId))) in
  set_keys (delete keyId);;;
  ret present.

End WithPlatform.

End Encryption.

(** ** ArkivStorageService *)

Module Arkiv.

(** *** Values exchanged with the SDK *)

(** What [typeof entity.toText === 'function'] and a call of it give. *)
Inductive ToText : Type :=
| NoToText
| ToTextThrows
| ToTextReturns (text : string).

(** An [Entity] of the SDK, as far as the adapter looks at it. *)
Record Entity : Type := {
  key : string;
  value : option string;
  toText : ToText;
}.

(** A [Date]: its ISO text, or [None] for an invalid date, on which
    [toISOString()] raises a [RangeError]. *)
Definition Date : Type := option string.

(** The object [JSON.parse(payloadText)] returns, by the properties the
    adapter reads. *)
Record Parsed : Type := {
  d_id : option string;
  d_content : option string;
  d_type : option string;
  d_category : option string;
  d_tags : option (list string);
  d_createdAt : option string;
  d_updatedAt : option string;
  d_encrypted : bool;
  d_owner : option string;          (* [accessPolicy.owner]; [None] when it cannot be read *)
  d_size : option Z;                (* [metadata.size] *)
  d_transactionUrl : option string;
  d_transactionHash : option string;
}.

Record MemoryEntry : Type := {
  id : option string;
  content : option string;
  type : string;
  category : string;
  tags : list string;
  createdAt : Date;
  updatedAt : Date;
  encrypted : bool;
  owner : option string;            (* [accessPolicy.owner] *)
  metadata_size : option Z;         (* [metadata.size] *)
  ipfsHash : string;
  entityUrl : string;
  transactionUrl : string;
}.

(** One page of a query and the pages [next()] would bring, [None]
    standing for a [next()] that raises; [hasNextPage()] holds while
    pages are left. *)
Record QueryResult : Type := {
  entities : list Entity;
  more : list (option (list Entity));
}.

(** Platform functions used for decoding and matching. *)
Class Codec : Type := {
  JSON_parse : string -> option Parsed;      (* [None]: the parse, or reading the result, raises *)
  Buffer_hex_to_utf8 : string -> string;     (* [Buffer.from(h, 'hex').toString('utf-8')] *)
  toLowerCase : string -> string;
  Date_parse : option string -> Date;        (* [new Date(x)] *)
  jsonToPayload : MemoryEntry -> string -> string -> string;  (* record, createdAt ISO, updatedAt ISO *)
}.

(** The remote entity store behind the SDK clients; [R] is its state.
    [None] stands for a call that raises (or a promise that rejects). *)
Class ArkivClient (R : Type) : Type := {
  privateKeyToAccount : string -> option string;
  getEntity : string -> R -> option Entity * R;
  query_fetch : string -> bool -> Z -> R -> option QueryResult * R;
  createEntity : string -> list (string * string) -> N -> R
                 -> option (string * option string) * R;
  updateEntity : string -> string -> list (string * string) -> N -> R
                 -> option (option string) * R;
  deleteEntity : string -> R -> bool * R;
  mendoza_id : N;
  mendoza_rpcUrl : string;
}.

Record ArkivConfig : Type := {
  cfg_privateKey : string;
  cfg_rpcUrl : option string;
  cfg_explorerUrl : option string;
  cfg_chainId : option N;
  cfg_defaultExpirationSeconds : option N;
}.

Record ArkivUploadResult : Type := {
  r_entityKey : string;
  r_size : nat;
  r_chainId : N;
  r_transactionUrl : option string;
  r_transactionHash : option string;
}.

Record StorageStats : Type := {
  totalMemories : Z;
  totalSize : Z;
  pinnedMemories : Z;
  s_chainId : N;
}.

(** The fields of the service object. *)
Record Service : Type := {
  config : ArkivConfig;
  isInitialized : bool;
  walletClient : bool;              (* [walletClient !== null] *)
  publicClient : bool;
  ownerAddress : option string;
  explorerUrl : string;
  entityKeys : list string;         (* a [Set<string>], in insertion order *)
  defaultExpirationSeconds : N;
  individualFetchFailures : nat;
  skipIndividualFetch : bool;
}.

(** The service, the remote store, the browser storage item
    ['arkiv-entity-keys'] and the list of keys [getEntity] was called
    with so far (oldest first). *)
Record World (R : Type) : Type := {
  svc : Service;
  remote : R;
  window : bool;                    (* [typeof window !== 'undefined'] *)
  localStorage : option (list string);
  fetchLog : list string;
}.
Arguments svc {R} _.
Arguments remote {R} _.
Arguments window {R} _.
Arguments localStorage {R} _.
Arguments fetchLog {R} _.

(** *** A JavaScript [Set] of strings as a duplicate-free list *)

Definition set_add (k : string) (s : list string) : list string :=
  if bool_decide (k ∈ s) then s else s ++ [k].

Definition set_delete (k : string) (s : list string) : list string :=
  filter (fun x => x <> k) s.

(** [new Set(keys)] *)
Definition set_of_list (keys : list string) : list string :=
  fold_left (fun s k => set_add k s) keys [].

(** [xs.slice(0, limit)] *)
Definition slice0 {A} (limit : Z) (xs : list A) : list A :=
  if (0 <=? limit)%Z then take (Z.to_nat limit) xs
  else take (Z.to_nat (Z.of_nat (List.length xs) + limit)) xs.

(** [Math.round(a / n)] for integers [a] and [n > 0]: the floor of
    [a / n + 1/2]. *)
Definition round_div (a n : Z) : Z := ((2 * a + n) / (2 * n))%Z.

(** [haystack.includes(needle)] *)
Fixpoint includes (needle hay : string) : bool :=
  String.prefix needle hay ||
  match hay with
  | EmptyString => false
  | String _ rest => includes needle rest
  end.

(** [parts.join(' ')] *)
Fixpoint join_space (parts : list string) : string :=
  match parts with
  | [] => ""
  | [p] => p
  | p :: rest => p ++ " " ++ join_space rest
  end.

(** The white space and line terminators of ECMAScript among the code
    units below 256: tab, line feed, vertical tab, form feed, carriage
    return, space and the no-break space U+00A0. *)
Definition is_white_space (c : ascii) : bool :=
  Ascii.is_space c || Ascii.eqb c "160"%char.

(** [s.trim()] *)
Fixpoint trim_start (s : string) : string :=
  match s with
  | String c r => if is_white_space c then trim_start r else s
  | EmptyString => EmptyString
  end.

Definition trim (s : string) : string :=
  String.rev (trim_start (String.rev (trim_start s))).

(** *** The methods *)

Section WithRemote.
Context {R : Type} `{ArkivClient R} `{Codec}.

Local Abbreviation W := (World R).

Definition set_svc (f : Service -> Service) : M W unit :=
  modify (fun w => {| svc := f (svc w); remote := remote w;
                      window := window w; localStorage := localStorage w;
                      fetchLog := fetchLog w |}).

Definition with_keys (ks : list string) (s : Service) : Service :=
  {| config := config s; isInitialized := isInitialized s;
     walletClient := walletClient s; publicClient := publicClient s;
     ownerAddress := ownerAddress s; explorerUrl := explorerUrl s;
     entityKeys := ks;
     defaultExpirationSeconds := defaultExpirationSeconds s;
     individualFetchFailures := individualFetchFailures s;
     skipIndividualFetch := skipIndividualFetch s |}.

Definition with_breaker (n : nat) (skip : bool) (s : Service) : Service :=
  {| config := config s; isInitialized := isInitialized s;
     walletClient := walletClient s; publicClient := publicClient s;
     ownerAddress := ownerAddress s; explorerUrl := explorerUrl s;
     entityKeys := entityKeys s;
     defaultExpirationSeconds := defaultExpirationSeconds s;
     individualFetchFailures := n;
     skipIndividualFetch := skip |}.

(** [config.x || dflt] *)
Definition constructor (c : ArkivConfig) : Service :=
  {| config := c; isInitialized := false;
     walletClient := false; publicClient := false;
     ownerAddress := None;
     explorerUrl :=
       match cfg_explorerUrl c with
       | Some (String a r) => String a r
       | _ => "https://explorer.mendoza.hoodi.arkiv.network"
       end;
     entityKeys := [];
     defaultExpirationSeconds :=
       match cfg_defaultExpirationSeconds c with
       | Some (N.pos p) => N.pos p
       | _ => 2592000%N             (* ExpirationTime.fromDays(30) *)
       end;
     individualFetchFailures := 0;
     skipIndividualFetch := false |}.

Definition rpcUrl (s : Service) : string :=
  match cfg_rpcUrl (config s) with
  | Some (String a r) => String a r
  | _ => mendoza_rpcUrl
  end.

Definition chainId (s : Service) : N :=
  match cfg_chainId (config s) with
  | Some (N.pos p) => N.pos p
  | _ => mendoza_id
  end.

(** Calls into the remote store thread its state. *)
Definition remote_call {A} (f : R -> A * R) : M W A :=
  fun w => let '(a, r') := f (remote w) in
           (Ok a, {| svc := svc w; remote := r'; window := window w;
                     localStorage := localStorage w;
                     fetchLog := fetchLog w |}).

Definition log_fetch (k : string) : M W unit :=
  modify (fun w => {| svc := svc w; remote := remote w;
                      window := window w; localStorage := localStorage w;
                      fetchLog := fetchLog w ++ [k] |}).

(** [await this.publicClient.getEntity(key)] *)
Definition publicClient_getEntity (k : string) : M W Entity :=
  let* pc := gets (fun w => publicClient (svc w)) in
  if pc : bool then
    log_fetch k;;;
    let* r := remote_call (getEntity k) in
    match r with
    | Some e => ret e
    | None => throw "getEntity failed"
    end
  else throw "TypeError".

(** The stored item is kept as the array it holds: [getItem] and
    [setItem] are taken to work, and the item to hold what
    [saveEntityKeysToStorage] wrote, a JSON array of strings (the
    [catch] of both methods only logs). *)
Definition loadEntityKeysFromStorage : M W unit :=
  let* win := gets window in
  if win : bool then
    let* raw := gets localStorage in
    match raw with
    | Some ks => set_svc (with_keys (set_of_list ks))
    | None => ret tt
    end
  else ret tt.

Definition saveEntityKeysToStorage : M W unit :=
  let* win := gets window in
  if win : bool then
    modify (fun w => {| svc := svc w; remote := remote w;
                        window := window w;
                        localStorage := Some (entityKeys (svc w));
                        fetchLog := fetchLog w |})
  else ret tt.

Definition initialize : M W unit :=
  let* init := gets (fun w => isInitialized (svc w)) in
  if init : bool then ret tt else
  let* c := gets (fun w => config (svc w)) in
  let privateKey := trim (cfg_privateKey c) in
  if bool_decide (privateKey = "") || bool_decide (privateKey = "0x")
     || negb (Nat.eqb (String.length privateKey) 66)
  then throw "Invalid Arkiv private key. Please set NEXT_PUBLIC_ARKIV_PRIVATE_KEY in your environment variables."
  else
    match privateKeyToAccount privateKey with
    | None => throw "privateKeyToAccount failed"
    | Some address =>
        set_svc (fun s =>
          {| config := config s; isInitialized := true;
             walletClient := true; publicClient := true;
             ownerAddress := Some address; explorerUrl := explorerUrl s;
             entityKeys := entityKeys s;
             defaultExpirationSeconds := defaultExpirationSeconds s;
             individualFetchFailures := individualFetchFailures s;
             skipIndividualFetch := skipIndividualFetch s |});;;
        loadEntityKeysFromStorage
    end.

Definition ensureClients : M W unit :=
  let* s := gets svc in
  if negb (walletClient s) || negb (publicClient s)
     || negb (truthy (ownerAddress s))
  then throw "Arkiv storage not initialized"
  else ret tt.

Definition ensureInitialized : M W unit :=
  let* init := gets (fun w => isInitialized (svc w)) in
  (if init : bool then ret tt else initialize);;;
  ensureClients.

(** The record built from parsed data at both places of
    [entityToMemory]. *)
Definition memory_of (explorer : string) (data : Parsed) (entityKey : string)
  : MemoryEntry :=
  {| id := d_id data;
     content := d_content data;
     type := match d_type data with
             | Some (String a r) => String a r | _ => "conversation" end;
     category := match d_category data with
                 | Some (String a r) => String a r | _ => "general" end;
     tags := default [] (d_tags data);
     createdAt := Date_parse (d_createdAt data);
     updatedAt := Date_parse (d_updatedAt data);
     encrypted := d_encrypted data;
     owner := d_owner data;
     metadata_size := d_size data;
     ipfsHash := entityKey;
     entityUrl := explorer ++ "/entity/" ++ entityKey;
     transactionUrl :=
       match d_transactionUrl data with
       | Some (String a r) => String a r
       | _ => explorer ++ "/tx/" ++
              match d_transactionHash data with
              | Some h => h | None => "" end
       end |}.

(** Lines 187-236: decoding an entity that is taken as it is. *)
Definition decode (explorer : string) (entity : Entity) : option MemoryEntry :=
  let payloadText :=
    match toText entity with
    | ToTextReturns text => Some text
    | ToTextThrows => None
    | NoToText =>
        match value entity with
        | Some (String a r) =>
            let v := String a r in
            let hexValue :=
              if String.prefix "0x" v
              then String.substring 2 (String.length v - 2) v else v in
            match hexValue with
            | "" => None
            | _ => Some (Buffer_hex_to_utf8 hexValue)
            end
        | _ => None
        end
    end in
  match payloadText with
  | Some (String a r) =>
      match JSON_parse (String a r) with
      | Some data =>
          if truthy (d_id data)
          then Some (memory_of explorer data (key entity))
          else None
      | None => None
      end
  | _ => None
  end.

(** [this.individualFetchFailures++] followed by the threshold test. *)
Definition count_failure : M W unit :=
  set_svc (fun s =>
    let n := S (individualFetchFailures s) in
    with_breaker n (if Nat.leb 5 n then true else skipIndividualFetch s) s).

Definition reset_failures : M W unit :=
  set_svc (fun s => with_breaker 0 (skipIndividualFetch s) s).

(** [entityToMemory] up to its only [await]: either it has returned,
    or the individual fetch is in flight with the given response. *)
Inductive Started : Type :=
| Returned (r : option MemoryEntry)
| Awaiting (response : option Entity).

Definition entityToMemory_start (entity : Entity) : M W Started :=
  if truthy (value entity) then
    let* explorer := gets (fun w => explorerUrl (svc w)) in
    ret (Returned (decode explorer entity))
  else
    let* skip := gets (fun w => skipIndividualFetch (svc w)) in
    if skip : bool then ret (Returned None) else
    let* pc := gets (fun w => publicClient (svc w)) in
    if pc : bool then
      log_fetch (key entity);;;
      let* response := remote_call (getEntity (key entity)) in
      ret (Awaiting response)
    else
      (* the call itself raises, inside the [try] *)
      count_failure;;; ret (Returned None).

(** [entityToMemory] from the response of the individual fetch on. *)
Definition entityToMemory_resume (st : Started) : M W (option MemoryEntry) :=
  match st with
  | Returned r => ret r
  | Awaiting None =>
      count_failure;;; ret None
  | Awaiting (Some fullEntity) =>
      if truthy (value fullEntity) then
        reset_failures;;;
        let* explorer := gets (fun w => explorerUrl (svc w)) in
        ret (decode explorer fullEntity)
      else
        count_failure;;;
        match toText fullEntity with
        | ToTextReturns (String a r) =>
            reset_failures;;;
            let* explorer := gets (fun w => explorerUrl (svc w)) in
            match JSON_parse (String a r) with
            | Some data => ret (Some (memory_of explorer data (key fullEntity)))
            | None => ret None
            end
        | _ => ret None
        end
  end.

(** A call of [entityToMemory] on its own. *)
Definition entityToMemory (entity : Entity) : M W (option MemoryEntry) :=
  let* st := entityToMemory_start entity in
  entityToMemory_resume st.

Definition toISOString (d : Date) : M W string :=
  match d with
  | Some iso => ret iso
  | None => throw "RangeError: Invalid time value"
  end.

Definition buildAttributes (memory : MemoryEntry)
  : M W (list (string * string)) :=
  match owner memory with
  | None => throw "TypeError"
  | Some o =>
      let* c := toISOString (createdAt memory) in
      let* u := toISOString (updatedAt memory) in
      ret [("memoryId", default "" (id memory)); ("type", type memory);
           ("category", category memory); ("owner", o);
           ("createdAt", c); ("updatedAt", u)]
  end.

Definition tx_url (explorer : string) (txHash : option string)
  : option string :=
  if truthy txHash
  then Some (explorer ++ "/tx/" ++ default "" txHash) else None.

Definition uploadMemory (memory : MemoryEntry) : M W ArkivUploadResult :=
  ensureInitialized;;;
  let* c := toISOString (createdAt memory) in
  let* u := toISOString (updatedAt memory) in
  let payload := jsonToPayload memory c u in
  let* attributes := buildAttributes memory in
  let* expiresIn := gets (fun w => defaultExpirationSeconds (svc w)) in
  let* r := remote_call (createEntity payload attributes expiresIn) in
  match r with
  | None => throw "createEntity failed"
  | Some (entityKey, txHash) =>
      set_svc (fun s => with_keys (set_add entityKey (entityKeys s)) s);;;
      saveEntityKeysToStorage;;;
      let* s := gets svc in
      ret {| r_entityKey := entityKey;
             r_size := String.length payload;
             r_chainId := chainId s;
             r_transactionUrl := tx_url (explorerUrl s) txHash;
             r_transactionHash := txHash |}
  end.

Definition retrieveMemory (entityKey : string) : M W (option MemoryEntry) :=
  ensureInitialized;;;
  try_catch
    (let* entity := publicClient_getEntity entityKey in
     entityToMemory entity)
    (fun _ => ret None).

Definition updateMemory (entityKey : string) (updatedMemory : MemoryEntry)
  : M W ArkivUploadResult :=
  ensureInitialized;;;
  let* c := toISOString (createdAt updatedMemory) in
  let* u := toISOString (updatedAt updatedMemory) in
  let payload := jsonToPayload updatedMemory c u in
  let* attributes := buildAttributes updatedMemory in
  let* expiresIn := gets (fun w => defaultExpirationSeconds (svc w)) in
  let* r := remote_call (updateEntity entityKey payload attributes expiresIn) in
  match r with
  | None => throw "updateEntity failed"
  | Some txHash =>
      let* s := gets svc in
      ret {| r_entityKey := entityKey;
             r_size := String.length payload;
             r_chainId := chainId s;
             r_transactionUrl := tx_url (explorerUrl s) txHash;
             r_transactionHash := txHash |}
  end.

Definition deleteMemory (entityKey : string) : M W bool :=
  ensureInitialized;;;
  try_catch
    (let* deleted := remote_call (deleteEntity entityKey) in
     if deleted : bool then
       set_svc (fun s => with_keys (set_delete entityKey (entityKeys s)) s);;;
       saveEntityKeysToStorage;;;
       ret true
     else throw "deleteEntity failed")
    (fun _ => ret false).

(** [while (result.hasNextPage()) { await result.next(); push }] *)
Fixpoint follow_pages (acc : list Entity) (pages : list (option (list Entity)))
  : Outcome (list Entity) :=
  match pages with
  | [] => Ok acc
  | None :: _ => Throw "next failed"
  | Some es :: rest => follow_pages (acc ++ es) rest
  end.

Definition fetchOwnedEntities (includePayload : bool) (limit : option Z)
    (fetchAll : bool) : M W (list Entity) :=
  ensureInitialized;;;
  let* o := gets (fun w => ownerAddress (svc w)) in
  match o with
  | Some (String a r) =>
      let limit := match limit with
                   | Some 0%Z | None => 50%Z
                   | Some l => l
                   end in
      (* the [catch] of this method logs and rethrows *)
      let* res := remote_call (query_fetch (String a r) includePayload limit) in
      match res with
      | None => throw "query failed"
      | Some result =>
          if fetchAll then
            match follow_pages (entities result) (more result) with
            | Ok es => ret es
            | Throw e => throw e
            end
          else ret (entities result)
      end
  | _ => throw "Owner address not initialized"
  end.

Definition getAllEntityKeys : M W (list string) :=
  try_catch
    (let* entities := fetchOwnedEntities false None true in
     let keys := map key entities in
     set_svc (with_keys (set_of_list keys));;;
     saveEntityKeysToStorage;;;
     ret keys)
    (fun _ =>
       let* cached := gets (fun w => entityKeys (svc w)) in
       if Nat.ltb 0 (List.length cached) then ret cached else ret []).

Definition getAllMemoriesDirectly : M W (list MemoryEntry) :=
  try_catch
    (let* entityKeys := getAllEntityKeys in
     let* found :=
       mapM (fun key => try_catch (retrieveMemory key) (fun _ => ret None))
            entityKeys in
     ret (omap (fun m => m) found))
    (fun _ => ret []).

(** The text filter of [searchMemories] and of its fallback. *)
Definition matches (searchText : string) (memory : MemoryEntry) : bool :=
  match searchText with
  | "" => true
  | _ =>
      let haystack :=
        toLowerCase
          (join_space ([default "" (content memory); category memory;
                        type memory] ++ tags memory)) in
      includes (toLowerCase searchText) haystack
  end.

(** [filtered.filter(m => m.accessPolicy.owner.toLowerCase() ===
    owner.toLowerCase())]; [None] when a record has no readable
    owner and the callback raises. *)
Fixpoint owner_filter (owner_ : string) (ms : list MemoryEntry)
  : option (list MemoryEntry) :=
  match ms with
  | [] => Some []
  | m :: rest =>
      match owner m with
      | None => None
      | Some o =>
          match owner_filter owner_ rest with
          | None => None
          | Some rest' =>
              if bool_decide (toLowerCase o = toLowerCase owner_)
              then Some (m :: rest') else Some rest'
          end
      end
  end.

Definition searchMemoriesFallback (searchText : string) (limit : Z)
  : M W (list MemoryEntry) :=
  try_catch
    (let* allMemories := getAllMemoriesDirectly in
     let filtered := List.filter (matches searchText) allMemories in
     ret (slice0 limit filtered))
    (fun _ => ret []).

(** [Promise.all(entities.map(async e => ...))]: every callback runs
    up to its first [await] while [map] iterates, so the individual
    fetches of a batch are all issued before any response is handled;
    the responses are then handled in the order of the requests. *)
Definition convert_batch (entities : list Entity)
  : M W (list (option MemoryEntry)) :=
  let* started :=
    mapM (fun e => try_catch (entityToMemory_start e)
                             (fun _ => ret (Returned None))) entities in
  mapM (fun st => try_catch (entityToMemory_resume st) (fun _ => ret None))
       started.

Definition searchMemories (searchText : string) (owner_ : option string)
    (limit : Z) : M W (list MemoryEntry) :=
  ensureInitialized;;;
  try_catch
    (let* entities := fetchOwnedEntities true (Some (Z.max limit 50)) false in
     let* memoryResults := convert_batch entities in
     let memories := omap (fun m => m) memoryResults in
     let filtered := List.filter (matches searchText) memories in
     match owner_ with
     | Some (String a r) =>
         match owner_filter (String a r) filtered with
         | Some ownerFiltered => ret (slice0 limit ownerFiltered)
         | None => throw "TypeError"
         end
     | _ =>
         let result := slice0 limit filtered in
         let* skip := gets (fun w => skipIndividualFetch (svc w)) in
         if Nat.eqb (List.length result) 0 && negb skip then
           let* fallbackMemories :=
             try_catch (searchMemoriesFallback searchText limit)
                       (fun _ => ret []) in
           if Nat.ltb 0 (List.length fallbackMemories)
           then ret fallbackMemories else ret result
         else ret result
     end)
    (fun _ =>
       let* fallbackMemories :=
         try_catch (searchMemoriesFallback searchText limit)
                   (fun _ => ret []) in
       if Nat.ltb 0 (List.length fallbackMemories)
       then ret fallbackMemories else ret []).

(** [for (const key of sampleKeys) { ...; size += ... }] *)
Fixpoint sum_sizes (size : Z) (sampleKeys : list string) : M W Z :=
  match sampleKeys with
  | [] => ret size
  | key :: rest =>
      let* memory := retrieveMemory key in
      let size' :=
        match memory with
        | Some m =>
            match metadata_size m with
            | Some 0%Z | None => size
            | Some sz => (size + sz)%Z
            end
        | None => size
        end in
      sum_sizes size' rest
  end.

Definition getStorageStats : M W StorageStats :=
  let* keys := getAllEntityKeys in
  let sampleKeys := take 20 keys in
  let* size := sum_sizes 0%Z sampleKeys in
  let averageSize :=
    if Nat.eqb (List.length sampleKeys) 0 then 0%Z
    else round_div size (Z.of_nat (List.length sampleKeys)) in
  let estimatedTotalSize := (averageSize * Z.of_nat (List.length keys))%Z in
  let* s := gets svc in
  ret {| totalMemories := Z.of_nat (List.length keys);
         totalSize := estimatedTotalSize;
         pinnedMemories := Z.of_nat (List.length keys);
         s_chainId := chainId s |}.

Definition cleanup : M W unit :=
  set_svc (fun s =>
    {| config := config s; isInitialized := false;
       walletClient := false; publicClient := false;
       ownerAddress := ownerAddress s; explorerUrl := explorerUrl s;
       entityKeys := entityKeys s;
       defaultExpirationSeconds := defaultExpirationSeconds s;
       individualFetchFailures := individualFetchFailures s;
       skipIndividualFetch := skipIndividualFetch s |}).

End WithRemote.

End Arkiv.

(** ** Sessions as sequences of calls

    The states a service object can be in are those reached from a newly
    constructed object by calls of its methods. *)

Module KeyManagementSession.
Import KeyManagement.

Inductive Call : Type :=
| InitializeWithPassword (password : string)
| GenerateSessionKey (keyId : option string)
| GenerateMemoryKey (memoryId : string) (salt : option string)
| ClearSession.

(** A call, with the key it hands out when it creates one. *)
Definition run `{Platform} (c : Call) : M World (option EncryptionKey) :=
  match c with
  | InitializeWithPassword password =>
      initializeWithPassword password;;; ret None
  | GenerateSessionKey keyId =>
      let* k := generateSessionKey keyId in ret (Some k)
  | GenerateMemoryKey memoryId salt =>
      let* k := generateMemoryKey memoryId salt in ret (Some k)
  | ClearSession => clearSession;;; ret None
  end.

Inductive reachable `{Platform} : World -> Prop :=
| reachable_new (t : nat) : reachable {| kms := constructor; tick := t |}
| reachable_call (w : World) (c : Call) r (w' : World) :
    reachable w -> run c w = (r, w') -> reachable w'.

End KeyManagementSession.

(** No key is known under [keyId], neither to the key management service
    handed to [encrypt] nor to the service's own table (or no usable
    [keyId] is given at all). *)
Definition key_missing (keyId : option string)
    (keyManagementService : option KeyManagement.KeyManagementService)
    (w : Encryption.World) : Prop :=
  match keyId with
  | Some (String c r) =>
      match keyManagementService with
      | Some kms => KeyManagement.getKey kms (String c r) = None
      | None => True
      end /\
      Encryption.keys (Encryption.enc w) !! String c r = None
  | _ => True
  end.

Module ArkivSession.
Import Arkiv.

(** The service has been initialized: what [ensureInitialized] checks. *)
Definition ready {R} (w : World R) : Prop :=
  isInitialized (svc w) = true /\ walletClient (svc w) = true /\
  publicClient (svc w) = true /\ truthy (ownerAddress (svc w)) = true.

(** The entity came without inline payload. *)
Definition lacks_payload (e : Entity) : Prop := truthy (value e) = false.

(** The individual fetch brought no payload: the call raised, or the
    entity it returned has no value and no text either. *)
Definition fetch_failed (response : option Entity) : Prop :=
  match response with
  | None => True
  | Some full =>
      truthy (value full) = false /\
      match toText full with
      | ToTextReturns (String _ _) => False
      | _ => True
      end
  end.

(** The individual fetch brought the payload, as the value of the entity
    or, failing that, as its text. *)
Definition fetch_recovered (response : option Entity) : Prop :=
  match response with
  | None => False
  | Some full =>
      truthy (value full) = true \/
      match toText full with
      | ToTextReturns (String _ _) => True
      | _ => False
      end
  end.

(** The breaker has tripped. *)
Definition tripped {R} (w : World R) : Prop :=
  skipIndividualFetch (svc w) = true.

Definition with_remote {R} (r : R) (w : World R) : World R :=
  {| svc := svc w; remote := r; window := window w;
     localStorage := localStorage w; fetchLog := fetchLog w |}.

(** What a sampled record adds to the size total of [getStorageStats]:
    its [metadata.size], nothing for a record that could not be retrieved
    or carries no size. *)
Definition size_of (m : option MemoryEntry) : Z :=
  match m with
  | Some m' => default 0%Z (metadata_size m')
  | None => 0%Z
  end.

Definition sum_Z (l : list Z) : Z := fold_right Z.add 0%Z l.

(** The public methods, as calls on the service object. *)
Inductive Call : Type :=
| Initialize
| UploadMemory (memory : MemoryEntry)
| RetrieveMemory (entityKey : string)
| UpdateMemory (entityKey : string) (memory : MemoryEntry)
| DeleteMemory (entityKey : string)
| SearchMemories (searchText : string) (owner_ : option string) (limit : Z)
| GetAllEntityKeys
| GetAllMemoriesDirectly
| GetStorageStats
| Cleanup.

Definition run {R} `{ArkivClient R} `{Codec} (c : Call) : M (World R) unit :=
  match c with
  | Initialize => initialize
  | UploadMemory memory => uploadMemory memory;;; ret tt
  | RetrieveMemory entityKey => retrieveMemory entityKey;;; ret tt
  | UpdateMemory entityKey memory => updateMemory entityKey memory;;; ret tt
  | DeleteMemory entityKey => deleteMemory entityKey;;; ret tt
  | SearchMemories searchText owner_ limit =>
      searchMemories searchText owner_ limit;;; ret tt
  | GetAllEntityKeys => getAllEntityKeys;;; ret tt
  | GetAllMemoriesDirectly => getAllMemoriesDirectly;;; ret tt
  | GetStorageStats => getStorageStats;;; ret tt
  | Cleanup => cleanup
  end.

(** The rest of a session: any number of calls, whatever they return. *)
Inductive session {R} `{ArkivClient R} `{Codec} : World R -> World R -> Prop :=
| session_here (w : World R) : session w w
| session_call (w w1 w2 : World R) (c : Call) r :
    run c w = (r, w1) -> session w1 w2 -> session w w2.

End ArkivSession.

(** ** Concrete environments

    A platform, a cipher and a remote store on which the definitions
    above compute. *)

Module Demo.

(** The byte tape counts upwards; the clock advances by one. *)
Definition counting_platform : Platform :=
  {| random_byte := fun i => default x00 (Byte.of_N (N.of_nat i mod 256));
     date_now := fun i => N.of_nat i;
     math_random36 := fun i => pretty i |}.

Fixpoint strip_prefix (p s : string) : option string :=
  match p, s with
  | EmptyString, _ => Some s
  | String a p', String b s' =>
      if bool_decide (a = b) then strip_prefix p' s' else None
  | String _ _, EmptyString => None
  end.

(** A stand-in cipher: the ciphertext carries key and IV in front of
    the text, and decryption under another key or IV yields nothing. *)
Definition tagging_cipher : CryptoJS :=
  {| Hex_parse := fun s => s;
     PBKDF2 := fun password salt iterations =>
                 password ++ "#" ++ salt ++ "#" ++ pretty iterations;
     AES_encrypt := fun content key iv => key ++ (iv ++ content);
     AES_decrypt_utf8 := fun ciphertext key iv =>
       match strip_prefix key ciphertext with
       | Some rest =>
           match strip_prefix iv rest with
           | Some text => Some text
           | None => Some ""
           end
       | None => Some ""
       end |}.

(** A decoder that reads the payload text as the id and the content of
    the record, owned by ["0xabc"], with the length of the text as
    [metadata.size]; the text ["bad"] does not parse. *)
Definition plain_codec : Arkiv.Codec :=
  {| Arkiv.JSON_parse := fun text =>
       if bool_decide (text = "bad") then None
       else Some {| Arkiv.d_id := Some text; Arkiv.d_content := Some text;
                    Arkiv.d_type := None; Arkiv.d_category := None;
                    Arkiv.d_tags := None; Arkiv.d_createdAt := Some "2025-01-01";
                    Arkiv.d_updatedAt := Some "2025-01-02";
                    Arkiv.d_encrypted := false; Arkiv.d_owner := Some "0xabc";
                    Arkiv.d_size := Some (Z.of_nat (String.length text)); Arkiv.d_transactionUrl := None;
                    Arkiv.d_transactionHash := None |};
     Arkiv.Buffer_hex_to_utf8 := fun h => h;
     Arkiv.toLowerCase := fun s => s;
     Arkiv.Date_parse := fun d => d;
     Arkiv.jsonToPayload := fun m c u => default "" (Arkiv.content m) |}.

(** What a scripted remote store answers. *)
Record Script : Type := {
  listing : option Arkiv.QueryResult;      (* owner queries with payload *)
  key_listing : option Arkiv.QueryResult;  (* owner queries without payload *)
  stored : list (string * Arkiv.Entity);   (* what [getEntity] finds *)
  accepts_writes : bool;
}.

Fixpoint find_entity (k : string) (es : list (string * Arkiv.Entity))
  : option Arkiv.Entity :=
  match es with
  | [] => None
  | (k', e) :: rest => if bool_decide (k = k') then Some e else find_entity k rest
  end.

(** A remote store without state of its own that follows a script. *)
Definition scripted (s : Script) : Arkiv.ArkivClient unit :=
  {| Arkiv.privateKeyToAccount := fun _ => Some "0xabc";
     Arkiv.getEntity := fun k r => (find_entity k (stored s), r);
     Arkiv.query_fetch := fun _ withPayload _ r =>
       (if withPayload : bool then listing s else key_listing s, r);
     Arkiv.createEntity := fun payload _ _ r =>
       (if accepts_writes s then Some ("0xnew", Some "0xtx") else None, r);
     Arkiv.updateEntity := fun _ _ _ _ r =>
       (if accepts_writes s then Some (Some "0xtx") else None, r);
     Arkiv.deleteEntity := fun _ r => (accepts_writes s, r);
     Arkiv.mendoza_id := 60138453056%N;
     Arkiv.mendoza_rpcUrl := "https://mendoza.hoodi.arkiv.network/rpc" |}.

(** An entity as a query brings it: with its payload as text, or bare. *)
Definition with_text (k text : string) : Arkiv.Entity :=
  {| Arkiv.key := k; Arkiv.value := Some "0x00";
     Arkiv.toText := Arkiv.ToTextReturns text |}.

Definition bare (k : string) : Arkiv.Entity :=
  {| Arkiv.key := k; Arkiv.value := None; Arkiv.toText := Arkiv.NoToText |}.

(** An initialized service that knows the keys [ks]. *)
Definition service (ks : list string) (failures : nat) (skip : bool)
  : Arkiv.Service :=
  {| Arkiv.config :=
       {| Arkiv.cfg_privateKey := "0x"; Arkiv.cfg_rpcUrl := None;
          Arkiv.cfg_explorerUrl := None; Arkiv.cfg_chainId := None;
          Arkiv.cfg_defaultExpirationSeconds := None |};
     Arkiv.isInitialized := true; Arkiv.walletClient := true;
     Arkiv.publicClient := true; Arkiv.ownerAddress := Some "0xabc";
     Arkiv.explorerUrl := "https://explorer";
     Arkiv.entityKeys := ks; Arkiv.defaultExpirationSeconds := 2592000%N;
     Arkiv.individualFetchFailures := failures;
     Arkiv.skipIndividualFetch := skip |}.

Definition world (ks : list string) (failures : nat) (skip : bool)
  : Arkiv.World unit :=
  {| Arkiv.svc := service ks failures skip; Arkiv.remote := tt;
     Arkiv.window := true; Arkiv.localStorage := Some ks;
     Arkiv.fetchLog := [] |}.

(** Two records in the store, both known to the local key index. *)
Definition two_records : list (string * Arkiv.Entity) :=
  [("k1", with_text "k1" "hello"); ("k2", with_text "k2" "world")].

Definition empty_page : Arkiv.QueryResult :=
  {| Arkiv.entities := []; Arkiv.more := [] |}.

(** The listings bring nothing although the records can be fetched. *)
Definition silent_listing : Arkiv.ArkivClient unit :=
  scripted {| listing := Some empty_page; key_listing := Some empty_page;
              stored := two_records; accepts_writes := true |}.

(** The listing with payload brings nothing and the key enumeration
    fails. *)
Definition failing_enumeration : Arkiv.ArkivClient unit :=
  scripted {| listing := Some empty_page; key_listing := None;
              stored := two_records; accepts_writes := true |}.

(** [n] records under the keys ["k0"], ["k1"], ..., behind a failing key
    enumeration. *)
Definition numbered (n : nat) : list string :=
  map (fun i => "k" ++ pretty i) (seq 0 n).

Definition many_records (n : nat) : Arkiv.ArkivClient unit :=
  scripted {| listing := Some empty_page; key_listing := None;
              stored := map (fun k => (k, with_text k k)) (numbered n);
              accepts_writes := true |}.

(** No listing works and nothing can be fetched. *)
Definition unreachable : Arkiv.ArkivClient unit :=
  scripted {| listing := None; key_listing := None;
              stored := []; accepts_writes := false |}.

End Demo.

(** ** The rest of EncryptionService: shares and time locks *)

Module EncryptionVault.
Import Encryption.

(** The place of [c] among [digits], counted from [i]. *)
Fixpoint digit_index (c : ascii) (digits : string) (i : N) : option N :=
  match digits with
  | EmptyString => None
  | String d rest =>
      if Ascii.eqb c d then Some i else digit_index c rest (N.succ i)
  end.

(** The value of a hexadecimal digit, as [parseInt(_, 16)] reads it:
    letters count in either case. *)
Definition hex_value (c : ascii) : option N :=
  match digit_index c "0123456789abcdef" 0 with
  | Some v => Some v
  | None => digit_index c "ABCDEF" 10
  end.

(** [parseInt(pair, 16)] on two characters without sign or blank: the
    digits read up to the first character that is none, and [NaN], which
    the shift turns into 0, when the first is none. *)
Definition pair_value (a b : ascii) : N :=
  match hex_value a, hex_value b with
  | Some x, Some y => 16 * x + y
  | Some x, None => x
  | None, _ => 0
  end%N.

(** The bytes of [CryptoJS.enc.Hex.parse(s)] on a text of even length,
    as the service prints them: two characters a byte. *)
Fixpoint parse_hex (s : string) : list byte :=
  match s with
  | String a (String b rest) =>
      default x00 (Byte.of_N (pair_value a b)) :: parse_hex rest
  | _ => []
  end.

Definition xor_byte (a b : byte) : byte :=
  default x00 (Byte.of_N (N.lxor (Byte.to_N a) (Byte.to_N b))).

(** A [WordArray] holds whole 32-bit words: its bytes, filled up with
    zero bytes to the next multiple of four. *)
Definition pad_words (bs : list byte) : list byte :=
  (bs ++ replicate ((4 - List.length bs mod 4) mod 4) x00)%list.

(** [for (j < Math.min(a.words.length, b.words.length))
      resultWords.push(a.words[j] ^ b.words[j])]
    followed by [WordArray.create(resultWords)]. *)
Definition xor_words (a b : list byte) : list byte :=
  zip_with xor_byte (pad_words a) (pad_words b).

(** One round of the loop over the shares: [xorResult] against the
    parsed share. *)
Definition xor_step (acc : list byte) (share : string) : list byte :=
  xor_words acc (parse_hex share).

(** The only field of [ThresholdEncryptionConfig] the service reads. *)
Record ThresholdEncryptionConfig : Type := {
  totalShares : nat;
}.

Record TimelockEncryption : Type := {
  encryptedKey : option string;
  unlockTime : N;
  timelockAlgorithm : string;
  t_publicKey : string;
}.

(** [shares[shares.length - 1] = x]: on the empty array this sets the
    property [-1] and leaves the elements as they are. *)
Definition set_last (shares : list string) (x : string) : list string :=
  match shares with
  | [] => []
  | _ => <[List.length shares - 1 := x]> shares
  end.

Definition reconstructFromShares (shares : list string) : Outcome string :=
  match shares with
  | first :: _ :: _ => Ok first
  | _ => Throw "Not enough shares to reconstruct secret"
  end.

(** The shares combined: the exclusive or of all of them, from the
    all-zero block of 32 bytes. *)
Definition xor_all (shares : list string) : list byte :=
  fold_left xor_step shares (replicate 32 x00).

(** [n] successive draws of [WordArray.random(32)], printed. *)
Fixpoint random_blocks `{Platform} (t n : nat) : list string :=
  match n with
  | 0 => []
  | S n' => bytes_to_hex (tape_bytes t 32) :: random_blocks (t + 32) n'
  end.

(** The shares in closed form: [n] random blocks drawn from tape
    position [t], the last one replaced. *)
Definition shares_of `{Platform} (secret : string) (n t : nat) : list string :=
  let rs := random_blocks t n in
  set_last rs
    (bytes_to_hex (fold_left xor_step (take (n - 1) rs) (parse_hex secret))).

Section WithPlatform.
Context `{Platform} `{CryptoJS}.

Definition createSecretShares (secret : string)
    (config : ThresholdEncryptionConfig) : M World (list string) :=
  let secretBytes := parse_hex secret in
  let* shares :=
    mapM (fun _ : nat => WordArray_random 32) (seq 0 (totalShares config)) in
  let xorResult :=
    fold_left xor_step (take (List.length shares - 1) shares) secretBytes in
  ret (set_last shares (bytes_to_hex xorResult)).

Definition createThresholdEncryption (content : string)
    (config : ThresholdEncryptionConfig)
  : M World (list string * EncryptedData) :=
  let* secretKey := WordArray_random 32 in
  let* keyId := generateKeyId in
  let* alg := gets (fun w => cfg_algorithm (Encryption.config (enc w))) in
  let* now := Date_now in
  let tempKey :=
    {| publicKey := secretKey; privateKey := Some secretKey; keyId := keyId;
       algorithm := alg; createdAt := now; salt := None |} in
  set_keys (insert keyId tempKey);;;
  let* encryptedContent := encrypt content (Some keyId) None in
  let* shares := createSecretShares secretKey config in
  set_keys (delete keyId);;;
  ret (shares, encryptedContent).

Definition createTimelockEncryption (content : string) (unlock : N)
  : M World TimelockEncryption :=
  let* key := generateKeyPair None in
  let* encryptedContent := encrypt content (Some (keyId key)) None in
  ret {| encryptedKey := privateKey key; unlockTime := unlock;
         timelockAlgorithm := "RSA"; t_publicKey := publicKey key |}.

Definition isTimelockExpired (timelock : TimelockEncryption) : M World bool :=
  let* now := Date_now in
  ret (unlockTime timelock <=? now)%N.

Definition decryptTimelock (timelock : TimelockEncryption)
    (encryptedContent : EncryptedData) : M World DecryptionResult :=
  let* expired := isTimelockExpired timelock in
  if expired : bool then
    let* keyId := generateKeyId in
    let* alg := gets (fun w => cfg_algorithm (Encryption.config (enc w))) in
    let* now := Date_now in
    let key :=
      {| publicKey := t_publicKey timelock;
         privateKey := encryptedKey timelock; keyId := keyId;
         algorithm := alg; createdAt := now; salt := None |} in
    set_keys (insert keyId key);;;
    decrypt encryptedContent keyId None
  else throw "Timelock has not expired yet".

End WithPlatform.

End EncryptionVault.

(** ** The rest of EncryptionService: keys from outside *)

Module EncryptionStorage.
Import Encryption.

(** [JSON.stringify] and [JSON.parse] on a key.  [parse_key] gives
    [None] when the parse raises or brings [null], on which reading
    [keyId] raises; any other parsed value is taken to carry a string
    [keyId]. *)
Class KeyJson : Type := {
  stringify_key : EncryptionKey -> string;
  parse_key : string -> option EncryptionKey;
}.

(** The item ['encryption-keys'] of the browser storage, by what
    [JSON.parse] makes of it. *)
Inductive Item : Type :=
| NoItem        (* [getItem] gives [null] or the empty string *)
| Unreadable    (* the parse raises, or brings no array *)
| Keys (ks : list (option EncryptionKey)).
                (* an array; [None] is an element on which reading
                   [keyId] raises *)

(** The service object and the browser around it. *)
Record Browser : Type := {
  service : World;
  window : bool;                    (* [typeof window !== 'undefined'] *)
  item : Item;
}.

Definition on_service {A} (m : M World A) : M Browser A :=
  fun b => let '(r, w) := m (service b) in
           (r, {| service := w; window := window b; item := item b |}).

(** [Array.from(this.keys.values())].  A [Map] lists its values in the
    order of insertion; the table of the model keeps no such order and
    lists them as [map_to_list] does. *)
Definition values (ks : gmap string EncryptionKey) : list EncryptionKey :=
  (map_to_list ks).*2.

Definition getKeys : M Browser (list EncryptionKey) :=
  gets (fun b => values (keys (enc (service b)))).

Section WithJson.
Context `{KeyJson}.

Definition exportKey (keyId : string) : M Browser string :=
  let* key := gets (fun b => keys (enc (service b)) !! keyId) in
  match key with
  | None => throw "Key not found"
  | Some k => ret (stringify_key k)
  end.

Definition importKey (keyData : string) : M Browser EncryptionKey :=
  match parse_key keyData with
  | None => throw "SyntaxError"
  | Some key =>
      on_service (set_keys (insert (keyId key) key));;;
      ret key
  end.

End WithJson.

(** [setItem] is taken to work (the [catch] only logs); the dates of
    the keys, which come back from JSON as text, are kept as they
    are. *)
Definition saveKeysToStorage : M Browser unit :=
  let* win := gets window in
  if win : bool then
    modify (fun b => {| service := service b; window := window b;
                        item := Keys (map Some
                                        (values (keys (enc (service b))))) |})
  else ret tt.

(** [keysArray.forEach(key => this.keys.set(key.keyId, key))], which
    stops at the first element whose [keyId] cannot be read; the
    [catch] around it only logs. *)
Fixpoint load_keys (ks : list (option EncryptionKey))
    (table : gmap string EncryptionKey) : gmap string EncryptionKey :=
  match ks with
  | [] => table
  | None :: _ => table
  | Some key :: rest => load_keys rest (<[keyId key := key]> table)
  end.

Definition loadKeysFromStorage : M Browser unit :=
  let* win := gets window in
  if win : bool then
    let* it := gets item in
    match it with
    | Keys ks => on_service (set_keys (load_keys ks))
    | _ => ret tt
    end
  else ret tt.

(** [new EncryptionService(config)] in a browser that holds [it]. *)
Definition new_service (c : PartialConfig) (t : nat) (win : bool) (it : Item)
  : Browser :=
  {| service := {| enc := constructor c; tick := t |};
     window := win; item := it |}.

(** What [getEncryptionService] does when it makes the singleton: the
    new service loads the stored keys. *)
Definition getEncryptionService (c : PartialConfig) (t : nat) (win : bool)
    (it : Item) : Browser :=
  (loadKeysFromStorage (new_service c t win it)).2.

End EncryptionStorage.

(** ** Sessions of EncryptionService *)

Module EncryptionSession.
Import Encryption EncryptionVault EncryptionStorage.

(** The public methods, as calls on the service object. *)
Inductive Call : Type :=
| GenerateKeyPair (keyId : option string)
| GenerateKeyFromPassword (password : string) (salt : option string)
| Encrypt (content : string) (keyId : option string)
          (keyManagementService : option KeyManagement.KeyManagementService)
| Decrypt (encryptedData : EncryptedData) (keyId : string)
          (keyManagementService : option KeyManagement.KeyManagementService)
| CreateThresholdEncryption (content : string)
                            (config : ThresholdEncryptionConfig)
| ReconstructFromShares (shares : list string)
| CreateTimelockEncryption (content : string) (unlockTime : N)
| IsTimelockExpired (timelock : TimelockEncryption)
| DecryptTimelock (timelock : TimelockEncryption)
                  (encryptedContent : EncryptedData)
| GetKeys
| RemoveKey (keyId : string)
| ExportKey (keyId : string)
| ImportKey (keyData : string)
| SaveKeysToStorage
| LoadKeysFromStorage.

Definition run `{Platform} `{CryptoJS} `{KeyJson} (c : Call)
  : M Browser unit :=
  match c with
  | GenerateKeyPair keyId => on_service (generateKeyPair keyId);;; ret tt
  | GenerateKeyFromPassword password salt =>
      on_service (generateKeyFromPassword password salt);;; ret tt
  | Encrypt content keyId kms =>
      on_service (encrypt content keyId kms);;; ret tt
  | Decrypt data keyId kms => on_service (decrypt data keyId kms);;; ret tt
  | CreateThresholdEncryption content config =>
      on_service (createThresholdEncryption content config);;; ret tt
  | ReconstructFromShares shares =>
      match reconstructFromShares shares with
      | Ok _ => ret tt
      | Throw e => throw e
      end
  | CreateTimelockEncryption content unlockTime =>
      on_service (createTimelockEncryption content unlockTime);;; ret tt
  | IsTimelockExpired timelock =>
      on_service (isTimelockExpired timelock);;; ret tt
  | DecryptTimelock timelock data =>
      on_service (decryptTimelock timelock data);;; ret tt
  | GetKeys => getKeys;;; ret tt
  | RemoveKey keyId => on_service (removeKey keyId);;; ret tt
  | ExportKey keyId => exportKey keyId;;; ret tt
  | ImportKey keyData => importKey keyData;;; ret tt
  | SaveKeysToStorage => saveKeysToStorage
  | LoadKeysFromStorage => loadKeysFromStorage
  end.

(** The calls that hand the service a key from outside do so with a
    key whose halves agree: the backup parses to such a key, the time
    lock carries its public key as its key. *)
Definition trusted `{KeyJson} (c : Call) : Prop :=
  match c with
  | ImportKey keyData =>
      forall key, parse_key keyData = Some key -> symmetric key
  | DecryptTimelock timelock _ =>
      encryptedKey timelock = Some (t_publicKey timelock)
  | _ => True
  end.

(** Every key of the stored item has halves that agree. *)
Definition stored_symmetric (it : Item) : Prop :=
  match it with
  | Keys ks => Forall (fun o => forall key, o = Some key -> symmetric key) ks
  | _ => True
  end.

(** A session: any number of calls among the [allowed] ones, whatever
    they return. *)
Inductive session `{Platform} `{CryptoJS} `{KeyJson} (allowed : Call -> Prop)
  : Browser -> Browser -> Prop :=
| session_here (b : Browser) : session allowed b b
| session_call (b b1 b2 : Browser) (c : Call) r :
    allowed c -> run c b = (r, b1) -> session allowed b1 b2 ->
    session allowed b b2.

End EncryptionSession.

(** A backup format for the examples: the text of a backup is the key
    material, and the id, of the key it holds. *)
Module DemoStorage.

Definition material_json : EncryptionStorage.KeyJson :=
  {| EncryptionStorage.stringify_key := publicKey;
     EncryptionStorage.parse_key := fun text =>
       Some {| publicKey := text; privateKey := Some text; keyId := text;
               algorithm := "AES-256-GCM"; createdAt := 0%N;
               salt := None |} |}.

(** A key whose halves differ, and a time lock that carries it. *)
Definition lopsided : EncryptionKey :=
  {| publicKey := "PUB"; privateKey := Some "PRIV"; keyId := "old";
     algorithm := "AES-256-GCM"; createdAt := 0%N; salt := None |}.

Definition lopsided_lock : EncryptionVault.TimelockEncryption :=
  {| EncryptionVault.encryptedKey := Some "PRIV";
     EncryptionVault.unlockTime := 0%N;
     EncryptionVault.timelockAlgorithm := "RSA";
     EncryptionVault.t_publicKey := "PUB" |}.

End DemoStorage.

(** ** ChatService.generateChecksum *)

Module Checksum.

(** [ToInt32]: the representative of [z] modulo 2^32 in
    [-2^31, 2^31). *)
Definition toInt32 (z : Z) : Z := ((z + 2 ^ 31) mod 2 ^ 32 - 2 ^ 31)%Z.

(** [content.charCodeAt(i)], for a string of code units below 256. *)
Definition charCodeAt (c : ascii) : Z := Z.of_N (N_of_ascii c).

(** One round of the loop:
    [hash = ((hash << 5) - hash) + char; hash = hash & hash]. *)
Definition mix (hash : Z) (c : ascii) : Z :=
  let shifted := toInt32 (Z.shiftl (toInt32 hash) 5) in
  let sum := (shifted - hash + charCodeAt c)%Z in
  Z.land (toInt32 sum) (toInt32 sum).

Fixpoint hash_from (hash : Z) (content : string) : Z :=
  match content with
  | EmptyString => hash
  | String c rest => hash_from (mix hash c) rest
  end.

(** The digits of [n.toString(16)], last digit first in the recursion. *)
Fixpoint hex_digits (fuel : nat) (n : N) (acc : string) : string :=
  match fuel with
  | O => acc
  | S fuel' =>
      let acc' := String (hex_digit (n mod 16)) acc in
      if (n / 16 =? 0)%N then acc' else hex_digits fuel' (n / 16) acc'
  end.

(** [n.toString(16)] for a natural number [n]. *)
Definition toString16 (n : N) : string :=
  hex_digits (S (N.to_nat (N.log2 n))) n "".

Definition generateChecksum (content : string) : string :=
  toString16 (Z.to_N (Z.abs (hash_from 0 content))).

(** The polynomial the loop evaluates: the code units as digits in base
    31, first character most significant. *)
Fixpoint horner (acc : Z) (content : string) : Z :=
  match content with
  | EmptyString => acc
  | String c rest => horner (31 * acc + charCodeAt c)%Z rest
  end.

End Checksum.

(** ** MemoryManagement: decrypting a record for display *)

Module MemoryView.

(** A [MemoryEntry] as far as [decryptMemory] reads it. *)
Record EncryptedMemory : Type := {
  m_id : string;
  m_content : string;
  m_encrypted : bool;
  encryptionKeyId : option string;     (* [metadata?.encryptionKeyId] *)
  encryptionSalt : option string;      (* [metadata?.encryptionSalt] *)
}.

(** [JSON.parse(memory.content)] read as an envelope; [None] when the
    parse raises. *)
Class EnvelopeJson : Type := {
  parse_envelope : string -> option Encryption.EncryptedData;
}.

Inductive DecryptionStatus : Type := Decrypting | Decrypted | Failed.

(** The two singleton services and the two state maps of the
    component. *)
Record View : Type := {
  keyManagement : KeyManagement.World;
  encryptionService : Encryption.World;
  decryptedMemories : gmap string string;
  decryptionStatus : gmap string DecryptionStatus;
}.

Definition on_keyManagement {A} (m : M KeyManagement.World A) : M View A :=
  fun v => let '(r, k) := m (keyManagement v) in
           (r, {| keyManagement := k; encryptionService := encryptionService v;
                  decryptedMemories := decryptedMemories v;
                  decryptionStatus := decryptionStatus v |}).

Definition on_encryptionService {A} (m : M Encryption.World A) : M View A :=
  fun v => let '(r, e) := m (encryptionService v) in
           (r, {| keyManagement := keyManagement v; encryptionService := e;
                  decryptedMemories := decryptedMemories v;
                  decryptionStatus := decryptionStatus v |}).

Definition setDecryptionStatus (id : string) (st : DecryptionStatus)
  : M View unit :=
  modify (fun v => {| keyManagement := keyManagement v;
                      encryptionService := encryptionService v;
                      decryptedMemories := decryptedMemories v;
                      decryptionStatus := <[id := st]> (decryptionStatus v) |}).

Definition setDecryptedMemories (id text : string) : M View unit :=
  modify (fun v => {| keyManagement := keyManagement v;
                      encryptionService := encryptionService v;
                      decryptedMemories := <[id := text]> (decryptedMemories v);
                      decryptionStatus := decryptionStatus v |}).

Section WithPlatform.
Context `{Platform} `{CryptoJS} `{EnvelopeJson}.

(** [env] is [process.env.NEXT_PUBLIC_DEFAULT_ENCRYPTION_PASSWORD]. *)
Definition decryptMemory (env : option string) (memory : EncryptedMemory)
  : M View unit :=
  let* seen := gets (fun v => bool_decide
                                (is_Some (decryptedMemories v !! m_id memory))) in
  if negb (m_encrypted memory) || seen then ret tt else
  setDecryptionStatus (m_id memory) Decrypting;;;
  try_catch
    (let* initialized :=
       gets (fun v => KeyManagement.isInitialized
                        (KeyManagement.kms (keyManagement v))) in
     (if initialized : bool then ret tt else
        let* defaultPassword :=
          or_else env (ret "default-encryption-key-2024") in
        on_keyManagement (KeyManagement.initializeWithPassword defaultPassword));;;
     match parse_envelope (m_content memory) with
     | None => throw "SyntaxError"
     | Some encryptedData =>
         let regenerate :=
           let* regeneratedKey :=
             on_keyManagement
               (KeyManagement.generateMemoryKey (m_id memory)
                  (encryptionSalt memory)) in
           let* kms := gets (fun v => KeyManagement.kms (keyManagement v)) in
           on_encryptionService
             (Encryption.decrypt encryptedData (keyId regeneratedKey) (Some kms)) in
         let* decrypted :=
           match encryptionKeyId memory with
           | Some (String a r) =>
               let encryptionKeyId := String a r in
               let* kms := gets (fun v => KeyManagement.kms (keyManagement v)) in
               match KeyManagement.getKey kms encryptionKeyId with
               | Some _ =>
                   on_encryptionService
                     (Encryption.decrypt encryptedData encryptionKeyId (Some kms))
               | None => regenerate
               end
           | _ => regenerate
           end in
         setDecryptedMemories (m_id memory) (Encryption.content decrypted);;;
         setDecryptionStatus (m_id memory) Decrypted
     end)
    (fun _ =>
       setDecryptedMemories (m_id memory) "[Decryption failed]";;;
       setDecryptionStatus (m_id memory) Failed).

End WithPlatform.

(** The password a session that was never initialized falls back to:
    [process.env... || 'default-encryption-key-2024']. *)
Definition default_password (env : option string) : string :=
  match env with
  | Some (String a r) => String a r
  | _ => "default-encryption-key-2024"
  end.

(** [content.length > maxLength ? content.substring(0, maxLength) + '...'
    : content] *)
Definition truncateContent (content : string) (maxLength : nat) : string :=
  if Nat.ltb maxLength (String.length content)
  then String.substring 0 maxLength content ++ "..."
  else content.

End MemoryView.

(** A record sealed under the fallback password, and a view of a session
    that has not been initialized. *)
Module DemoView.
Import MemoryView.

Definition sealed : Encryption.EncryptedData :=
  Encryption.envelope (H := Demo.counting_platform)
    (H0 := Demo.tagging_cipher)
    (Encryption.config (Encryption.constructor Encryption.no_config)) 0
    "default-encryption-key-2024_m1_ab" "secret".

Definition fixed_json : EnvelopeJson :=
  {| parse_envelope := fun _ => Some sealed |}.

Definition record : EncryptedMemory :=
  {| m_id := "m1"; m_content := "{}"; m_encrypted := true;
     encryptionKeyId := Some "memory_m1"; encryptionSalt := Some "ab" |}.

Definition fresh : View :=
  {| keyManagement :=
       {| KeyManagement.kms := KeyManagement.constructor;
          KeyManagement.tick := 0 |};
     encryptionService :=
       {| Encryption.enc := Encryption.constructor Encryption.no_config;
          Encryption.tick := 0 |};
     decryptedMemories := ∅; decryptionStatus := ∅ |}.

End DemoView.

(** ** Predicates on the adapter's state and results *)

Module ArkivIndex.
Import Arkiv.

(** The key set holds no key twice, and where there is a browser storage
    the stored copy mirrors it: nothing is stored while the set is empty,
    or the stored keys are the set, or they wait to be loaded by an
    object that has not been initialized yet. *)
Definition coherent {R} (w : World R) : Prop :=
  NoDup (entityKeys (svc w)) /\
  (window w = true ->
   match localStorage w with
   | None => entityKeys (svc w) = []
   | Some ks =>
       NoDup ks /\
       (entityKeys (svc w) = ks \/
        (isInitialized (svc w) = false /\ entityKeys (svc w) = []))
   end).

(** The configured private key does not pass the check of
    [initialize]. *)
Definition invalid_private_key (c : ArkivConfig) : Prop :=
  let privateKey := trim (cfg_privateKey c) in
  privateKey = "" \/ privateKey = "0x" \/ String.length privateKey <> 66.

Definition invalid_key_message : string :=
  "Invalid Arkiv private key. Please set NEXT_PUBLIC_ARKIV_PRIVATE_KEY in your environment variables.".

(** At most [limit] records, each of which passes the text filter. *)
Definition within `{Codec} (text : string) (limit : Z)
    (ms : list MemoryEntry) : Prop :=
  List.length ms <= Z.to_nat limit /\
  Forall (fun m => matches text m = true) ms.

(** A service object as the constructor leaves it, over a private key
    that is no key. *)
Definition unconfigured : World unit :=
  {| svc := constructor
              {| cfg_privateKey := "0x"; cfg_rpcUrl := None;
                 cfg_explorerUrl := None; cfg_chainId := None;
                 cfg_defaultExpirationSeconds := None |};
     remote := tt; window := true; localStorage := None; fetchLog := [] |}.

(** A service object as the constructor leaves it, over a key of 66
    characters between a no-break space and a blank. *)
Definition padded : World unit :=
  {| svc := constructor
              {| cfg_privateKey :=
                   String "160"
                     ("0x0123456789abcdef0123456789abcdef0123456789abcdef0123456789abcdef"
                      ++ " ");
                 cfg_rpcUrl := None; cfg_explorerUrl := None;
                 cfg_chainId := None;
                 cfg_defaultExpirationSeconds := None |};
     remote := tt; window := true; localStorage := None; fetchLog := [] |}.

(** A well-formed record, and the same record with a creation date
    that is no date. *)
Definition note : MemoryEntry :=
  {| id := Some "m1"; content := Some "hello"; type := "note";
     category := "general"; tags := []; createdAt := Some "2025-01-01";
     updatedAt := Some "2025-01-02"; encrypted := false;
     owner := Some "0xabc"; metadata_size := None; ipfsHash := "";
     entityUrl := ""; transactionUrl := "" |}.

Definition undated : MemoryEntry :=
  {| id := Some "m1"; content := Some "hello"; type := "note";
     category := "general"; tags := []; createdAt := None;
     updatedAt := Some "2025-01-02"; encrypted := false;
     owner := Some "0xabc"; metadata_size := None; ipfsHash := "";
     entityUrl := ""; transactionUrl := "" |}.

End ArkivIndex.

(** Whatever [m] returns satisfies [Q]. *)
Definition yields {W A} (Q : A -> Prop) (m : M W A) : Prop :=
  forall w a w', m w = (Ok a, w') -> Q a.

(** No key under [id], as [decrypt] looks for it. *)
Definition unknown_to (id : string)
    (kms : option KeyManagement.KeyManagementService)
    (w : Encryption.World) : Prop :=
  match kms with
  | Some s => KeyManagement.getKey s id = None
  | None => True
  end /\ Encryption.keys (Encryption.enc w) !! id = None.

(** * Properties *)

(** ** Running computations *)

Lemma bind_ok {W A B} (m : M W A) (k : A -> M W B) w a w' :
  m w = (Ok a, w') -> bind m k w = k a w'.
Proof. intros E. unfold bind. now rewrite E. Qed.

Lemma bind_throw {W A B} (m : M W A) (k : A -> M W B) w e w' :
  m w = (Throw e, w') -> bind m k w = (Throw e, w').
Proof. intros E. unfold bind. now rewrite E. Qed.

Lemma try_catch_ok {W A} (m : M W A) h w a w' :
  m w = (Ok a, w') -> try_catch m h w = (Ok a, w').
Proof. intros E. unfold try_catch. now rewrite E. Qed.

Lemma try_catch_throw {W A} (m : M W A) h w e w' :
  m w = (Throw e, w') -> try_catch m h w = h e w'.
Proof. intros E. unfold try_catch. now rewrite E. Qed.

Lemma bind_same {W A B} (m : M W A) (k : A -> M W B) w w1 :
  m w = m w1 -> bind m k w = bind m k w1.
Proof. intros E. unfold bind. now rewrite E. Qed.

Lemma try_catch_same {W A} (m : M W A) h w w1 :
  m w = m w1 -> try_catch m h w = try_catch m h w1.
Proof. intros E. unfold try_catch. now rewrite E. Qed.

Lemma or_else_given {W} (s : string) (d : M W string) w :
  s <> "" -> or_else (Some s) d w = (Ok s, w).
Proof. destruct s; [congruence | reflexivity]. Qed.

Lemma truthy_Some (s : string) : truthy (Some s) = true <-> s <> "".
Proof. destruct s; simpl; split; congruence. Qed.

Lemma strip_prefix_app p s : Demo.strip_prefix p (p ++ s) = Some s.
Proof.
  induction p as [|a p IH]; [reflexivity|].
  change (String a p ++ s) with (String a (p ++ s)). simpl.
  rewrite bool_decide_eq_true_2 by reflexivity. exact IH.
Qed.

Lemma tagging_cipher_laws : @CryptoJSLaws Demo.tagging_cipher.
Proof.
  split; [reflexivity|].
  intros content key iv. simpl.
  now rewrite !strip_prefix_app.
Qed.

(** ** Key management *)

Module KeyManagementFacts.
Import KeyManagement.

(** What [generateMemoryKey] does on an initialized service with a salt
    given: no randomness is read, the key material is the concatenation
    of secret, record id and salt. *)
Lemma generateMemoryKey_salted `{Platform} (w : World) m R S :
  masterKey (kms w) = Some m -> m <> "" -> S <> "" ->
  let material := m ++ "_" ++ R ++ "_" ++ S in
  let k := {| publicKey := material; privateKey := Some material;
              keyId := "memory_" ++ R; algorithm := "AES-256-GCM";
              createdAt := date_now (tick w); salt := Some S |} in
  generateMemoryKey R (Some S) w =
    (Ok k, {| kms := {| sessionKeys := <["memory_" ++ R := k]> (sessionKeys (kms w));
                        masterKey := Some m |};
              tick := Datatypes.S (tick w) |}).
Proof.
  intros Hm Hne HS. destruct w as [[keys mk] t]. simpl in *. subst mk.
  destruct m as [|c r]; [congruence|]. destruct S as [|c' r']; [congruence|].
  reflexivity.
Qed.

(** C8.  A derivation requested while no master secret is set fails with
    the not-initialized error, whatever the record id and the salt, and
    leaves the service as it was. *)
Theorem generateMemoryKey_requires_master `{Platform}
    (w : World) (memoryId : string) (salt : option string) :
  isInitialized (kms w) = false ->
  generateMemoryKey memoryId salt w =
    (Throw "Master key not initialized. Call initializeWithPassword() first.", w).
Proof.
  intros Hinit. destruct w as [[cache mk] t]. unfold isInitialized in Hinit.
  simpl in Hinit. unfold generateMemoryKey, bind, gets. simpl.
  destruct mk as [[|c r]|]; [reflexivity | discriminate | reflexivity].
Qed.

Lemma generateMemoryKey_requires_master_witness :
  generateMemoryKey (H := Demo.counting_platform) "m1" (Some "s")
      {| kms := constructor; tick := 0 |} =
    (Throw "Master key not initialized. Call initializeWithPassword() first.",
     {| kms := constructor; tick := 0 |}).
Proof.
  apply (generateMemoryKey_requires_master (H := Demo.counting_platform)).
  reflexivity.
Defined.

(** C3, as amended.  With a non-empty salt given, two derivations under
    the same master secret and record id return keys with the same
    material, salt and key id, whatever the random tape and the clock of
    either call and whatever the caches hold. *)
Theorem generateMemoryKey_deterministic (P1 P2 : Platform)
    (w1 w2 : World) (m R S : string) :
  masterKey (kms w1) = Some m -> masterKey (kms w2) = Some m ->
  m <> "" -> S <> "" ->
  exists k1 k2 w1' w2',
    generateMemoryKey (H := P1) R (Some S) w1 = (Ok k1, w1') /\
    generateMemoryKey (H := P2) R (Some S) w2 = (Ok k2, w2') /\
    publicKey k1 = publicKey k2 /\ privateKey k1 = privateKey k2 /\
    salt k1 = Some S /\ salt k2 = Some S /\ keyId k1 = keyId k2.
Proof.
  intros H1 H2 Hm HS.
  pose proof (generateMemoryKey_salted (H := P1) w1 m R S H1 Hm HS) as E1.
  pose proof (generateMemoryKey_salted (H := P2) w2 m R S H2 Hm HS) as E2.
  simpl in E1, E2.
  do 4 eexists. split; [exact E1|]. split; [exact E2|].
  simpl. repeat split.
Qed.

Lemma generateMemoryKey_deterministic_witness :
  exists k1 k2 w1' w2',
    generateMemoryKey (H := Demo.counting_platform) "m1" (Some "ab")
      {| kms := {| sessionKeys := ∅; masterKey := Some "pw" |}; tick := 0 |}
      = (Ok k1, w1') /\
    generateMemoryKey (H := Demo.counting_platform) "m1" (Some "ab")
      {| kms := {| sessionKeys := ∅; masterKey := Some "pw" |}; tick := 7 |}
      = (Ok k2, w2') /\
    publicKey k1 = publicKey k2 /\ privateKey k1 = privateKey k2 /\
    salt k1 = Some "ab" /\ salt k2 = Some "ab" /\ keyId k1 = keyId k2.
Proof.
  apply (generateMemoryKey_deterministic Demo.counting_platform
           Demo.counting_platform _ _ "pw" "m1" "ab");
    (reflexivity || discriminate).
Defined.

(** C3, as stated, fails for the empty salt: it is taken as no salt, a
    random one is drawn, and two derivations disagree. *)
Lemma generateMemoryKey_empty_salt_random :
  let w0 := {| kms := {| sessionKeys := ∅; masterKey := Some "pw" |};
               tick := 0 |} in
  exists k1 w1 k2 w2,
    generateMemoryKey (H := Demo.counting_platform) "m1" (Some "") w0 = (Ok k1, w1) /\
    generateMemoryKey (H := Demo.counting_platform) "m1" (Some "") w1 = (Ok k2, w2) /\
    publicKey k1 <> publicKey k2 /\ salt k1 <> salt k2.
Proof.
  cbv zeta. do 4 eexists.
  split; [vm_compute; reflexivity|]. split; [vm_compute; reflexivity|].
  split; vm_compute; discriminate.
Qed.

End KeyManagementFacts.

(** ** Envelope encryption *)

Module EncryptionFacts.
Import Encryption.

Section WithPlatform.
Context `{Platform} `{CryptoJS}.

Ltac run :=
  unfold generateKeyPair, generateKeyFromPassword, generateKeyId, encrypt,
    decrypt, removeKey, password_of, set_keys, WordArray_random, Date_now,
    Math_random36, or_else, bind, ret, gets, modify, throw; simpl.

(** [generateKeyPair] always returns: a key whose two halves are the 32
    bytes read from the tape, stored under its id. *)
Lemma generateKeyPair_returns (id : option string) (w : World) :
  exists k w',
    generateKeyPair id w = (Ok k, w') /\
    publicKey k = bytes_to_hex (tape_bytes (tick w) 32) /\
    symmetric k /\
    keys (enc w') = <[keyId k := k]> (keys (enc w)) /\
    config (enc w') = config (enc w).
Proof.
  destruct w as [[cfg ks] t].
  destruct id as [[|c r]|]; run; do 2 eexists; repeat split.
Qed.

Lemma generateKeyFromPassword_returns (password : string)
    (salt0 : option string) (w : World) :
  exists k w',
    generateKeyFromPassword password salt0 w = (Ok k, w') /\
    symmetric k /\
    keys (enc w') = <[keyId k := k]> (keys (enc w)) /\
    config (enc w') = config (enc w).
Proof.
  destruct w as [[cfg ks] t].
  destruct salt0 as [[|c r]|]; run; do 2 eexists; repeat split.
Qed.

(** [encrypt] with a key that the key management service knows. *)
Lemma encrypt_with_managed_key (text id : string)
    (kms : KeyManagement.KeyManagementService) (k : EncryptionKey)
    (pw : string) (w : World) :
  id <> "" -> KeyManagement.getKey kms id = Some k -> privateKey k = Some pw ->
  encrypt text (Some id) (Some kms) w =
    (Ok (envelope (config (enc w)) (tick w) pw text),
     {| enc := enc w;
        tick := tick w + saltLength (config (enc w)) + ivLength (config (enc w)) |}).
Proof.
  intros Hid Hk Hpw. destruct w as [[cfg ks] t].
  destruct id as [|c r]; [congruence|].
  unfold encrypt. rewrite Hk. run. rewrite Hpw. reflexivity.
Qed.

(** [decrypt] with a key that the key management service knows. *)
Lemma decrypt_with_managed_key (data : EncryptedData) (id : string)
    (kms : KeyManagement.KeyManagementService) (k : EncryptionKey)
    (pw : string) (w : World) :
  KeyManagement.getKey kms id = Some k -> privateKey k = Some pw ->
  decrypt data id (Some kms) w =
    match AES_decrypt_utf8 (encryptedContent data)
            (PBKDF2 pw (Hex_parse (e_salt data)) (e_iterations data))
            (Hex_parse (iv data)) with
    | None => (Throw "Malformed UTF-8 data", w)
    | Some "" =>
        (Throw "Decryption failed - invalid key or corrupted data", w)
    | Some text =>
        (Ok {| content := text; decryptedAt := date_now (tick w);
               keyUsed := id; d_algorithm := e_algorithm data |},
         {| enc := enc w; tick := S (tick w) |})
    end.
Proof.
  intros Hk Hpw. destruct w as [[cfg ks] t].
  unfold decrypt. rewrite Hk. run. rewrite Hpw.
  destruct (AES_decrypt_utf8 _ _ _) as [[|c r]|]; reflexivity.
Qed.

(** Decrypting what [encrypt] produced, under the same password. *)
Lemma decrypt_envelope `{!CryptoJSLaws} (cfg : EncryptionConfig) (t : nat)
    (pw text : string) :
  let data := envelope cfg t pw text in
  AES_decrypt_utf8 (encryptedContent data)
    (PBKDF2 pw (Hex_parse (e_salt data)) (e_iterations data))
    (Hex_parse (iv data)) = Some text.
Proof.
  simpl. rewrite !Hex_parse_printed. apply AES_roundtrip.
Qed.

(** [encrypt] when no key is found: the key is the one [generateKeyPair]
    makes at this point, and the envelope is built right after it. *)
Lemma encrypt_without_key (text : string) (id : option string)
    (kms : option KeyManagement.KeyManagementService) (w : World) :
  key_missing id kms w ->
  exists k w1,
    generateKeyPair None w = (Ok k, w1) /\
    encrypt text id kms w =
      (Ok (envelope (config (enc w1)) (tick w1) (publicKey k) text),
       {| enc := enc w1;
          tick := tick w1 + saltLength (config (enc w1))
                  + ivLength (config (enc w1)) |}).
Proof.
  intros Hmiss. destruct w as [[cfg ks] t].
  do 2 eexists. split; [run; reflexivity|].
  unfold encrypt.
  destruct id as [[|c r]|]; simpl in Hmiss.
  - destruct kms; reflexivity.
  - destruct Hmiss as [Hk Hl]. simpl in Hl.
    destruct kms as [kms|].
    + rewrite Hk. run. rewrite Hl. reflexivity.
    + run. rewrite Hl. reflexivity.
  - destruct kms; reflexivity.
Qed.

End WithPlatform.

(** C9.  With no key known under [keyId] (or none given), [encrypt] does
    not raise: it makes a fresh random key, stores it in its table, and
    returns the envelope encrypted under that key. *)
Theorem encrypt_falls_back_to_fresh_key `{Platform} `{CryptoJS}
    (text : string) (id : option string)
    (kms : option KeyManagement.KeyManagementService) (w : World) :
  key_missing id kms w ->
  exists k data w',
    encrypt text id kms w = (Ok data, w') /\
    publicKey k = bytes_to_hex (tape_bytes (tick w) 32) /\
    privateKey k = Some (publicKey k) /\
    keys (enc w') = <[keyId k := k]> (keys (enc w)) /\
    encryptedContent data =
      AES_encrypt text
        (PBKDF2 (publicKey k) (e_salt data) (iterations (config (enc w))))
        (iv data) /\
    e_iterations data = iterations (config (enc w)).
Proof.
  intros Hmiss.
  destruct (encrypt_without_key text id kms w Hmiss) as (k & w1 & Hgen & Henc).
  destruct (generateKeyPair_returns None w) as (k' & w1' & Hgen' & Hpub & Hsym & Hkeys & Hcfg).
  rewrite Hgen in Hgen'. injection Hgen' as <- <-.
  exists k. do 2 eexists. split; [exact Henc|].
  simpl. rewrite Hcfg. repeat split; assumption.
Qed.

Lemma encrypt_falls_back_to_fresh_key_witness :
  exists k data w',
    encrypt (H := Demo.counting_platform) (H0 := Demo.tagging_cipher)
      "hello" (Some "nokey") (Some KeyManagement.constructor)
      {| enc := constructor no_config; tick := 0 |} = (Ok data, w') /\
    publicKey k = bytes_to_hex (tape_bytes (H := Demo.counting_platform) 0 32) /\
    privateKey k = Some (publicKey k) /\
    keys (enc w') = <[keyId k := k]> ∅ /\
    encryptedContent data =
      AES_encrypt (CryptoJS := Demo.tagging_cipher) "hello"
        (PBKDF2 (CryptoJS := Demo.tagging_cipher) (publicKey k) (e_salt data) 100000%N)
        (iv data) /\
    e_iterations data = 100000%N.
Proof.
  apply (encrypt_falls_back_to_fresh_key (H := Demo.counting_platform)
           (H0 := Demo.tagging_cipher) "hello" (Some "nokey")
           (Some KeyManagement.constructor)
           {| enc := constructor no_config; tick := 0 |}).
  simpl. split; reflexivity.
Defined.

(** C2, as amended.  For a non-empty plaintext and a non-empty salt: the
    envelope made by [encrypt] under the key derived for (master secret,
    record id, salt) decrypts to the plaintext under a key derived again
    from the same three, also in another session with another tape,
    another key cache and another encryption service. *)
Theorem decrypt_encrypt_roundtrip (Penc Pdec : Platform) {C : CryptoJS}
    {L : @CryptoJSLaws C}
    (m R S text : string) (wk wk' : KeyManagement.World) (we we' : World) :
  KeyManagement.masterKey (KeyManagement.kms wk) = Some m ->
  KeyManagement.masterKey (KeyManagement.kms wk') = Some m ->
  m <> "" -> S <> "" -> text <> "" ->
  exists k wk1 data we1 k' wk1' res we1',
    KeyManagement.generateMemoryKey (H := Penc) R (Some S) wk = (Ok k, wk1) /\
    encrypt (H := Penc) text (Some (keyId k)) (Some (KeyManagement.kms wk1)) we
      = (Ok data, we1) /\
    KeyManagement.generateMemoryKey (H := Pdec) R (Some S) wk' = (Ok k', wk1') /\
    decrypt (H := Pdec) data (keyId k') (Some (KeyManagement.kms wk1')) we'
      = (Ok res, we1') /\
    content res = text.
Proof.
  intros Hm Hm' Hne HS Htext.
  pose proof (KeyManagementFacts.generateMemoryKey_salted (H := Penc) wk m R S Hm Hne HS) as E1.
  pose proof (KeyManagementFacts.generateMemoryKey_salted (H := Pdec) wk' m R S Hm' Hne HS) as E2.
  cbv zeta in E1, E2.
  eexists _, _, _, _, _, _, _, _.
  split; [exact E1|]. split.
  { eapply (encrypt_with_managed_key (H := Penc)).
    - simpl. discriminate.
    - unfold KeyManagement.getKey. simpl. apply lookup_insert_eq.
    - reflexivity. }
  split; [exact E2|].
  erewrite (decrypt_with_managed_key (H := Pdec)); cycle 1.
  { unfold KeyManagement.getKey. simpl. apply lookup_insert_eq. }
  { reflexivity. }
  rewrite decrypt_envelope.
  destruct text as [|c r]; [congruence|]. split; reflexivity.
Qed.

Lemma decrypt_encrypt_roundtrip_witness :
  let wk := {| KeyManagement.kms :=
                 {| KeyManagement.sessionKeys := ∅;
                    KeyManagement.masterKey := Some "pw" |};
               KeyManagement.tick := 0 |} in
  let wk' := {| KeyManagement.kms :=
                  {| KeyManagement.sessionKeys := ∅;
                     KeyManagement.masterKey := Some "pw" |};
                KeyManagement.tick := 50 |} in
  let we := {| enc := constructor no_config; tick := 0 |} in
  exists k wk1 data we1 k' wk1' res we1',
    KeyManagement.generateMemoryKey (H := Demo.counting_platform)
      "m1" (Some "ab") wk = (Ok k, wk1) /\
    encrypt (H := Demo.counting_platform) (H0 := Demo.tagging_cipher)
      "secret" (Some (keyId k)) (Some (KeyManagement.kms wk1)) we
      = (Ok data, we1) /\
    KeyManagement.generateMemoryKey (H := Demo.counting_platform)
      "m1" (Some "ab") wk' = (Ok k', wk1') /\
    decrypt (H := Demo.counting_platform) (H0 := Demo.tagging_cipher)
      data (keyId k') (Some (KeyManagement.kms wk1')) we
      = (Ok res, we1') /\
    content res = "secret".
Proof.
  cbv zeta.
  apply (decrypt_encrypt_roundtrip Demo.counting_platform Demo.counting_platform
           (C := Demo.tagging_cipher) (L := tagging_cipher_laws)
           "pw" "m1" "ab" "secret");
    (reflexivity || discriminate).
Defined.

(** C2, as stated, fails on two inputs.  The empty plaintext is encrypted
    but its decryption is rejected as a failed decryption; and with the
    empty salt each derivation draws a salt of its own, so the key derived
    again is another key and does not open the envelope. *)
Lemma roundtrip_fails_on_empty_text_or_salt :
  let wk := {| KeyManagement.kms :=
                 {| KeyManagement.sessionKeys := ∅;
                    KeyManagement.masterKey := Some "pw" |};
               KeyManagement.tick := 0 |} in
  let we := {| enc := constructor no_config; tick := 0 |} in
  (exists k wk1 data we1 k' wk1' we1',
     KeyManagement.generateMemoryKey (H := Demo.counting_platform)
       "m1" (Some "ab") wk = (Ok k, wk1) /\
     encrypt (H := Demo.counting_platform) (H0 := Demo.tagging_cipher)
       "" (Some (keyId k)) (Some (KeyManagement.kms wk1)) we = (Ok data, we1) /\
     KeyManagement.generateMemoryKey (H := Demo.counting_platform)
       "m1" (Some "ab") wk = (Ok k', wk1') /\
     decrypt (H := Demo.counting_platform) (H0 := Demo.tagging_cipher)
       data (keyId k') (Some (KeyManagement.kms wk1')) we1
       = (Throw "Decryption failed - invalid key or corrupted data", we1'))
  /\
  (exists k wk1 data we1 k' wk1' we1',
     KeyManagement.generateMemoryKey (H := Demo.counting_platform)
       "m1" (Some "") wk = (Ok k, wk1) /\
     encrypt (H := Demo.counting_platform) (H0 := Demo.tagging_cipher)
       "secret" (Some (keyId k)) (Some (KeyManagement.kms wk1)) we = (Ok data, we1) /\
     KeyManagement.generateMemoryKey (H := Demo.counting_platform)
       "m1" (Some "") wk1 = (Ok k', wk1') /\
     decrypt (H := Demo.counting_platform) (H0 := Demo.tagging_cipher)
       data (keyId k') (Some (KeyManagement.kms wk1')) we1
       = (Throw "Decryption failed - invalid key or corrupted data", we1')).
Proof.
  cbv zeta. split.
  - eexists _, _, _, _, _, _, _.
    split; [vm_compute; reflexivity|]. split; [vm_compute; reflexivity|].
    split; [vm_compute; reflexivity|]. vm_compute; reflexivity.
  - eexists _, _, _, _, _, _, _.
    split; [vm_compute; reflexivity|]. split; [vm_compute; reflexivity|].
    split; [vm_compute; reflexivity|]. vm_compute; reflexivity.
Qed.

(** Whatever the plaintext cipher, an envelope of the empty text is
    rejected by [decrypt]: the guard on the decrypted text cannot tell it
    from a failed decryption. *)
Lemma decrypt_rejects_empty_text `{Platform} `{CryptoJS} `{!CryptoJSLaws}
    (id : string) (kms : KeyManagement.KeyManagementService)
    (k : EncryptionKey) (pw : string) (cfg : EncryptionConfig) (t : nat)
    (w : World) :
  KeyManagement.getKey kms id = Some k -> privateKey k = Some pw ->
  decrypt (envelope cfg t pw "") id (Some kms) w =
    (Throw "Decryption failed - invalid key or corrupted data", w).
Proof.
  intros Hk Hpw. rewrite (decrypt_with_managed_key _ _ _ _ _ _ Hk Hpw).
  now rewrite decrypt_envelope.
Qed.

End EncryptionFacts.

(** ** The entity store adapter *)

Module ArkivFacts.
Import Arkiv ArkivSession.

Lemma keeps_ret {W A} (P : W -> Prop) (a : A) : keeps P (ret a).
Proof. intros w r w' HP [= <- <-]. exact HP. Qed.

Lemma keeps_throw {W A} (P : W -> Prop) e : keeps P (@throw W A e).
Proof. intros w r w' HP [= <- <-]. exact HP. Qed.

Lemma keeps_gets {W A} (P : W -> Prop) (f : W -> A) : keeps P (gets f).
Proof. intros w r w' HP [= <- <-]. exact HP. Qed.

Lemma keeps_bind {W A B} (P : W -> Prop) (m : M W A) (k : A -> M W B) :
  keeps P m -> (forall a, keeps P (k a)) -> keeps P (bind m k).
Proof.
  intros Hm Hk w r w' HP. unfold bind.
  destruct (m w) as [[a|e] w1] eqn:E.
  - intros Hr. exact (Hk a w1 r w' (Hm _ _ _ HP E) Hr).
  - intros [= <- <-]. exact (Hm _ _ _ HP E).
Qed.

Lemma keeps_try_catch {W A} (P : W -> Prop) (m : M W A) h :
  keeps P m -> (forall e, keeps P (h e)) -> keeps P (try_catch m h).
Proof.
  intros Hm Hh w r w' HP. unfold try_catch.
  destruct (m w) as [[a|e] w1] eqn:E.
  - intros [= <- <-]. exact (Hm _ _ _ HP E).
  - intros Hr. exact (Hh e w1 r w' (Hm _ _ _ HP E) Hr).
Qed.

Lemma keeps_mapM {W A B} (P : W -> Prop) (f : A -> M W B) xs :
  (forall x, keeps P (f x)) -> keeps P (mapM f xs).
Proof.
  intros Hf. induction xs as [|x xs IH]; simpl.
  - apply keeps_ret.
  - apply keeps_bind; [apply Hf|]. intros y.
    apply keeps_bind; [exact IH|]. intros ys. apply keeps_ret.
Qed.

Lemma keeps_modify {W} (P : W -> Prop) (f : W -> W) :
  (forall w, P w -> P (f w)) -> keeps P (modify f).
Proof. intros Hf w r w' HP [= <- <-]. auto. Qed.

Lemma keeps_remote_call {R A} (P : World R -> Prop) (f : R -> A * R) :
  (forall w r, P w -> P (with_remote r w)) -> keeps P (remote_call f).
Proof.
  intros HP w r w' Hw. unfold remote_call.
  destruct (f (remote w)) as [a r1]. intros [= <- <-]. exact (HP w r1 Hw).
Qed.

Create HintDb breaker.

(** Walks through a method, leaving the assignments to be checked. *)
Ltac keeps_steps :=
  repeat first
    [ solve [auto 1 with breaker nocore]
    | apply keeps_ret | apply keeps_throw | apply keeps_gets
    | apply keeps_bind; [|intros ?]
    | apply keeps_try_catch; [|intros ?]
    | apply keeps_mapM; intros ?
    | apply keeps_remote_call; [intros ? ? ?; assumption]
    | match goal with
      | |- keeps _ (match ?x with _ => _ end) => destruct x
      | |- keeps _ (let _ := _ in _) => cbv zeta
      end ].

Ltac keeps_assign :=
  apply keeps_modify; unfold tripped; simpl; intros ? Hskip;
  rewrite ?Hskip; try reflexivity; try exact Hskip.

Ltac keeps_leaf :=
  first [ solve [auto 1 with breaker nocore]
        | unfold set_svc, log_fetch; keeps_assign ].

Section WithRemote.
Context {R : Type} `{ArkivClient R} `{Codec}.

Local Abbreviation W := (World R).

Ltac unfold_breaker :=
  unfold entityToMemory, entityToMemory_start, entityToMemory_resume,
    count_failure, reset_failures, log_fetch, remote_call, set_svc,
    bind, ret, gets, modify, throw.

(** Once the breaker has tripped, an entity without payload resolves to
    nothing at once: no fetch, no change of any kind. *)
Lemma entityToMemory_tripped (e : Entity) (w : W) :
  lacks_payload e -> skipIndividualFetch (svc w) = true ->
  entityToMemory e w = (Ok None, w).
Proof.
  intros He Hs. unfold lacks_payload in He. unfold_breaker.
  rewrite He, Hs. reflexivity.
Qed.

(** A failed individual fetch: one call to the remote store, the counter
    goes up by one, and the breaker trips when it reaches five. *)
Lemma entityToMemory_failure (e : Entity) (w : W) response r' :
  lacks_payload e -> skipIndividualFetch (svc w) = false ->
  publicClient (svc w) = true ->
  getEntity (key e) (remote w) = (response, r') ->
  fetch_failed response ->
  entityToMemory e w =
    (Ok None,
     {| svc := with_breaker (S (individualFetchFailures (svc w)))
                 (Nat.leb 5 (S (individualFetchFailures (svc w)))) (svc w);
        remote := r'; window := window w; localStorage := localStorage w;
        fetchLog := fetchLog w ++ [key e] |}).
Proof.
  intros He Hs Hpc Hget Hfail. unfold lacks_payload in He.
  unfold_breaker. rewrite He, Hs, Hpc. simpl. rewrite Hget. simpl.
  destruct response as [full|]; simpl in *.
  - destruct Hfail as [Hv Ht]. rewrite Hv. simpl. rewrite Hs.
    destruct (individualFetchFailures (svc w)) as [|[|[|[|n]]]];
      destruct (toText full) as [| |[|c t]]; try contradiction; reflexivity.
  - rewrite Hs.
    destruct (individualFetchFailures (svc w)) as [|[|[|[|n]]]]; reflexivity.
Qed.

(** A fetch that brings the payload sets the counter back to zero. *)
Lemma entityToMemory_recovery (e : Entity) (w : W) response r' :
  lacks_payload e -> skipIndividualFetch (svc w) = false ->
  publicClient (svc w) = true ->
  getEntity (key e) (remote w) = (response, r') ->
  fetch_recovered response ->
  exists m w',
    entityToMemory e w = (Ok m, w') /\
    individualFetchFailures (svc w') = 0 /\
    fetchLog w' = (fetchLog w ++ [key e])%list.
Proof.
  intros He Hs Hpc Hget Hrec. unfold lacks_payload in He.
  unfold_breaker. rewrite He, Hs, Hpc. simpl. rewrite Hget. simpl.
  destruct response as [full|]; simpl in *; [|contradiction].
  destruct (truthy (value full)) eqn:Hv; simpl.
  - eexists _, _. repeat split.
  - destruct Hrec as [Hrec|Hrec]; [discriminate|].
    destruct (toText full) as [| |[|c t]]; try contradiction.
    destruct (JSON_parse (String c t)); eexists _, _; repeat split.
Qed.

Local Arguments Nat.leb : simpl never.
Local Arguments Nat.min : simpl never.
Local Arguments Nat.sub : simpl never.

Lemma mapM_entityToMemory_tripped (es : list Entity) (w : W) :
  Forall lacks_payload es -> tripped w ->
  mapM entityToMemory es w = (Ok (map (fun _ => None) es), w).
Proof.
  intros Hes Ht. induction Hes as [|e es He _ IH]; [reflexivity|].
  simpl. rewrite (bind_ok _ _ _ _ _ (entityToMemory_tripped e w He Ht)).
  rewrite (bind_ok _ _ _ _ _ IH). reflexivity.
Qed.

(** Consecutive failures, starting with [c] of them on the counter: the
    fetches stop after the one that brings the counter to five. *)
Lemma consecutive_failures (es : list Entity) :
  forall w : W,
  Forall lacks_payload es ->
  (forall k r, fetch_failed (getEntity k r).1) ->
  skipIndividualFetch (svc w) = false -> publicClient (svc w) = true ->
  individualFetchFailures (svc w) < 5 ->
  exists w',
    mapM entityToMemory es w = (Ok (map (fun _ => None) es), w') /\
    individualFetchFailures (svc w')
      = Nat.min (individualFetchFailures (svc w) + List.length es) 5 /\
    skipIndividualFetch (svc w')
      = Nat.leb 5 (individualFetchFailures (svc w) + List.length es) /\
    fetchLog w'
      = (fetchLog w ++ map key (take (5 - individualFetchFailures (svc w)) es))%list.
Proof.
  induction es as [|e es IH]; intros w Hes Hrem Hs Hpc Hc.
  - exists w. simpl. rewrite Nat.add_0_r, take_nil, app_nil_r.
    repeat split; [lia|].
    rewrite Hs. symmetry. apply Nat.leb_gt. lia.
  - inversion Hes as [|? ? He Hes']; subst.
    destruct (getEntity (key e) (remote w)) as [response r'] eqn:Hget.
    pose proof (Hrem (key e) (remote w)) as Hfail. rewrite Hget in Hfail.
    pose proof (entityToMemory_failure e w response r' He Hs Hpc Hget Hfail) as E.
    set (w1 := {| svc := _ |}) in E. simpl mapM.
    rewrite (bind_ok _ _ _ _ _ E).
    destruct (Nat.eq_dec (individualFetchFailures (svc w)) 4) as [H4|H4].
    + assert (Ht : tripped w1) by (unfold tripped; simpl; now rewrite H4).
      rewrite (bind_ok _ _ _ _ _ (mapM_entityToMemory_tripped es w1 Hes' Ht)).
      exists w1. split; [reflexivity|]. simpl. rewrite H4. simpl.
      split; [lia|]. split; [|reflexivity].
      transitivity true; [reflexivity|]. symmetry. apply Nat.leb_le. lia.
    + assert (Hs1 : skipIndividualFetch (svc w1) = false).
      { simpl. apply Nat.leb_gt. lia. }
      destruct (IH w1 Hes' Hrem Hs1 Hpc ltac:(simpl; lia))
        as (w' & Hrun & Hn & Hskip & Hlog).
      rewrite (bind_ok _ _ _ _ _ Hrun).
      exists w'. split; [reflexivity|]. simpl in Hn, Hskip, Hlog.
      rewrite Hn, Hskip, Hlog.
      replace (5 - individualFetchFailures (svc w))
        with (S (5 - S (individualFetchFailures (svc w)))) by lia.
      simpl. rewrite <- app_assoc. simpl.
      replace (individualFetchFailures (svc w) + S (List.length es))
        with (S (individualFetchFailures (svc w) + List.length es)) by lia.
      repeat split.
Qed.

(** *** The breaker stays tripped *)

Lemma tripped_count_failure : keeps (@tripped R) count_failure.
Proof.
  unfold count_failure, set_svc. keeps_assign.
  now destruct (Nat.leb 5 _).
Qed.

Lemma tripped_reset_failures : keeps (@tripped R) reset_failures.
Proof. unfold reset_failures, set_svc. keeps_assign. Qed.

#[local] Hint Resolve tripped_count_failure tripped_reset_failures : breaker.

Lemma tripped_save : keeps (@tripped R) saveEntityKeysToStorage.
Proof. unfold saveEntityKeysToStorage. keeps_steps. keeps_assign. Qed.

Lemma tripped_ensureInitialized : keeps (@tripped R) ensureInitialized.
Proof.
  unfold ensureInitialized, ensureClients, initialize,
    loadEntityKeysFromStorage.
  keeps_steps; keeps_leaf.
Qed.

#[local] Hint Resolve tripped_save tripped_ensureInitialized : breaker.

Lemma tripped_entityToMemory_start e : keeps (@tripped R) (entityToMemory_start e).
Proof. unfold entityToMemory_start. keeps_steps; keeps_leaf. Qed.

Lemma tripped_entityToMemory_resume st :
  keeps (@tripped R) (entityToMemory_resume st).
Proof.
  unfold entityToMemory_resume. destruct st as [r|[full|]];
    keeps_steps; keeps_leaf.
Qed.

#[local] Hint Resolve tripped_entityToMemory_start
  tripped_entityToMemory_resume : breaker.

Lemma tripped_retrieveMemory k : keeps (@tripped R) (retrieveMemory k).
Proof.
  unfold retrieveMemory, publicClient_getEntity, entityToMemory.
  keeps_steps; keeps_leaf.
Qed.

Lemma tripped_fetchOwnedEntities ip lim fa :
  keeps (@tripped R) (fetchOwnedEntities ip lim fa).
Proof. unfold fetchOwnedEntities. keeps_steps; keeps_leaf. Qed.

#[local] Hint Resolve tripped_retrieveMemory tripped_fetchOwnedEntities : breaker.

Lemma tripped_getAllEntityKeys : keeps (@tripped R) getAllEntityKeys.
Proof. unfold getAllEntityKeys. keeps_steps; keeps_leaf. Qed.

#[local] Hint Resolve tripped_getAllEntityKeys : breaker.

Lemma tripped_searchMemoriesFallback text limit :
  keeps (@tripped R) (searchMemoriesFallback text limit).
Proof.
  unfold searchMemoriesFallback, getAllMemoriesDirectly.
  keeps_steps; keeps_leaf.
Qed.

#[local] Hint Resolve tripped_searchMemoriesFallback : breaker.

Lemma tripped_searchMemories text o limit :
  keeps (@tripped R) (searchMemories text o limit).
Proof.
  unfold searchMemories, convert_batch. keeps_steps; keeps_leaf.
Qed.

Lemma tripped_sum_sizes ks :
  forall size, keeps (@tripped R) (sum_sizes size ks).
Proof.
  induction ks as [|k ks IH]; intros size; simpl.
  - apply keeps_ret.
  - apply keeps_bind; [apply tripped_retrieveMemory | intros m; apply IH].
Qed.

#[local] Hint Resolve tripped_searchMemories tripped_sum_sizes : breaker.

Lemma tripped_run (c : Call) : keeps (@tripped R) (run c).
Proof.
  destruct c; unfold run, uploadMemory, updateMemory, deleteMemory,
    getStorageStats, getAllMemoriesDirectly, buildAttributes, toISOString,
    cleanup, initialize, loadEntityKeysFromStorage;
    keeps_steps; keeps_leaf.
Qed.

Lemma tripped_session (w w' : W) : session w w' -> tripped w -> tripped w'.
Proof.
  induction 1 as [w | w w1 w2 c r Hrun _ IH]; intros Ht; [exact Ht|].
  exact (IH (tripped_run c w r w1 Ht Hrun)).
Qed.

End WithRemote.

(** C1.  For an entity without inline payload, handled by
    [entityToMemory]:
    - a failed individual fetch is one call to the remote store and adds
      one to the failure counter;
    - a fetch that brings the payload puts the counter back to zero;
    - with [c < 5] failures on the counter and the breaker untripped, a
      run of failing fetches trips the breaker exactly when the counter
      reaches five, and only the fetches up to that one are made;
    - once tripped, the breaker stays tripped through every later call of
      the session, and each such entity then resolves to nothing at once,
      the world (fetch log and remote store included) left as it is. *)
Theorem breaker_trips_after_five_failures {R : Type} `{ArkivClient R} `{Codec}
    (w : World R) (e : Entity) :
  lacks_payload e ->
  (publicClient (svc w) = true -> skipIndividualFetch (svc w) = false ->
   forall response r',
     getEntity (key e) (remote w) = (response, r') ->
     (fetch_failed response ->
      exists w',
        entityToMemory e w = (Ok None, w') /\
        individualFetchFailures (svc w') = S (individualFetchFailures (svc w)) /\
        skipIndividualFetch (svc w')
          = Nat.leb 5 (S (individualFetchFailures (svc w))) /\
        fetchLog w' = (fetchLog w ++ [key e])%list) /\
     (fetch_recovered response ->
      exists m w',
        entityToMemory e w = (Ok m, w') /\
        individualFetchFailures (svc w') = 0 /\
        fetchLog w' = (fetchLog w ++ [key e])%list)) /\
  (publicClient (svc w) = true -> skipIndividualFetch (svc w) = false ->
   individualFetchFailures (svc w) < 5 ->
   (forall k r, fetch_failed (getEntity k r).1) ->
   forall es, Forall lacks_payload es ->
   exists w',
     mapM entityToMemory es w = (Ok (map (fun _ => None) es), w') /\
     individualFetchFailures (svc w')
       = Nat.min (individualFetchFailures (svc w) + List.length es) 5 /\
     skipIndividualFetch (svc w')
       = Nat.leb 5 (individualFetchFailures (svc w) + List.length es) /\
     fetchLog w'
       = (fetchLog w
          ++ map key (take (5 - individualFetchFailures (svc w)) es))%list) /\
  (tripped w ->
   forall w', session w w' ->
     tripped w' /\ entityToMemory e w' = (Ok None, w')).
Proof.
  intros He. split; [|split].
  - intros Hpc Hs response r' Hget. split.
    + intros Hfail.
      rewrite (entityToMemory_failure e w response r' He Hs Hpc Hget Hfail).
      eexists. repeat split.
    + intros Hrec.
      exact (entityToMemory_recovery e w response r' He Hs Hpc Hget Hrec).
  - intros Hpc Hs Hc Hrem es Hes.
    exact (consecutive_failures es w Hes Hrem Hs Hpc Hc).
  - intros Ht w' Hsess.
    pose proof (tripped_session w w' Hsess Ht) as Ht'.
    split; [exact Ht'|]. exact (entityToMemory_tripped e w' He Ht').
Qed.

Lemma breaker_trips_after_five_failures_witness :
  let C := Demo.scripted {| Demo.listing := None; Demo.key_listing := None; Demo.stored := [];
                            Demo.accepts_writes := false |} in
  let w := Demo.world [] 0 false in
  let es := map Demo.bare ["a"; "b"; "c"; "d"; "e"; "f"; "g"] in
  lacks_payload (Demo.bare "k1") /\
  exists w',
    mapM (entityToMemory (H := C) (H0 := Demo.plain_codec)) es w
      = (Ok (map (fun _ => None) es), w') /\
    individualFetchFailures (svc w') = 5 /\
    skipIndividualFetch (svc w') = true /\
    fetchLog w' = ["a"; "b"; "c"; "d"; "e"].
Proof.
  cbv zeta. split; [reflexivity|].
  refine (proj1 (proj2 (breaker_trips_after_five_failures
                          (H := Demo.scripted _) (H0 := Demo.plain_codec)
                          (Demo.world [] 0 false) (Demo.bare "k1") eq_refl))
                _ _ _ _ _ _).
  - reflexivity.
  - reflexivity.
  - simpl. lia.
  - intros k r. exact I.
  - repeat constructor.
Defined.

(** Within one batch of [searchMemories] the fetches are all issued
    before any response is handled: seven entities without payload make
    seven failing fetches, and the breaker has tripped only for what
    follows. *)
Example batch_issues_all_fetches :
  let w := Demo.world [] 0 false in
  let es := map Demo.bare ["a"; "b"; "c"; "d"; "e"; "f"; "g"] in
  let w' := (convert_batch (H := Demo.unreachable) (H0 := Demo.plain_codec)
               es w).2 in
  fetchLog w' = ["a"; "b"; "c"; "d"; "e"; "f"; "g"] /\
  individualFetchFailures (svc w') = 7 /\
  skipIndividualFetch (svc w') = true /\
  (convert_batch (H := Demo.unreachable) (H0 := Demo.plain_codec) es w').2 = w'.
Proof. vm_compute. repeat split. Qed.

(** *** The local key index *)

Lemma set_delete_absent (k : string) (ks : list string) : k ∉ set_delete k ks.
Proof.
  unfold set_delete. intros Hin. apply list_elem_of_filter in Hin.
  destruct Hin as [Hne _]. now apply Hne.
Qed.

Lemma set_add_present (k : string) (ks : list string) : k ∈ set_add k ks.
Proof.
  unfold set_add. case_bool_decide as Hin; [exact Hin|].
  apply elem_of_app. right. apply list_elem_of_singleton. reflexivity.
Qed.

(** C5.  Once initialization has succeeded (leaving the world [w1]):
    - if the remote delete succeeds, [deleteMemory] returns [true] and
      the key is gone from the key set, and from the stored copy where
      there is a browser storage;
    - if the remote delete fails, [deleteMemory] returns [false] without
      raising, and key set and stored copy are those of [w1];
    - if the remote create succeeds, [uploadMemory] returns the key the
      store assigned, and that key is in the key set and in the stored
      copy;
    - whenever [deleteMemory] returns [true] the key is not in the key
      set, and whenever [uploadMemory] returns, the key it returns is. *)
Theorem local_key_index_coherent {R : Type} `{ArkivClient R} `{Codec}
    (w w1 : World R) :
  ensureInitialized w = (Ok tt, w1) ->
  (forall k r',
     deleteEntity k (remote w1) = (true, r') ->
     exists w',
       deleteMemory k w = (Ok true, w') /\
       entityKeys (svc w') = set_delete k (entityKeys (svc w1)) /\
       (k ∉ entityKeys (svc w')) /\
       (window w1 = true ->
        localStorage w' = Some (entityKeys (svc w')))) /\
  (forall k r',
     deleteEntity k (remote w1) = (false, r') ->
     exists w',
       deleteMemory k w = (Ok false, w') /\
       entityKeys (svc w') = entityKeys (svc w1) /\
       localStorage w' = localStorage w1) /\
  (forall memory c u o entityKey txHash r',
     createdAt memory = Some c -> updatedAt memory = Some u ->
     owner memory = Some o ->
     createEntity (jsonToPayload memory c u)
       [("memoryId", default "" (id memory)); ("type", type memory);
        ("category", category memory); ("owner", o);
        ("createdAt", c); ("updatedAt", u)]
       (defaultExpirationSeconds (svc w1)) (remote w1)
       = (Some (entityKey, txHash), r') ->
     exists res w',
       uploadMemory memory w = (Ok res, w') /\
       r_entityKey res = entityKey /\
       (entityKey ∈ entityKeys (svc w')) /\
       (window w1 = true ->
        localStorage w' = Some (entityKeys (svc w')))) /\
  (forall k w', deleteMemory k w = (Ok true, w') -> k ∉ entityKeys (svc w')) /\
  (forall memory res w',
     uploadMemory memory w = (Ok res, w') ->
     r_entityKey res ∈ entityKeys (svc w')).
Proof.
  intros Hinit. split; [|split; [|split; [|split]]].
  - intros k r' Hdel. unfold deleteMemory.
    rewrite (bind_ok _ _ _ _ _ Hinit).
    unfold try_catch, bind, remote_call, saveEntityKeysToStorage, set_svc,
      gets, modify, ret. rewrite Hdel. simpl.
    destruct (window w1) eqn:Hwin; simpl; eexists; (split; [reflexivity|]);
      simpl; repeat split; try apply set_delete_absent; discriminate.
  - intros k r' Hdel. unfold deleteMemory.
    rewrite (bind_ok _ _ _ _ _ Hinit).
    unfold try_catch, bind, remote_call, throw, ret. rewrite Hdel. simpl.
    eexists. repeat split.
  - intros memory c u o entityKey txHash r' Hc Hu Ho Hcreate.
    unfold uploadMemory. rewrite (bind_ok _ _ _ _ _ Hinit).
    unfold buildAttributes, toISOString. rewrite Hc, Hu, Ho.
    unfold bind, remote_call, saveEntityKeysToStorage, set_svc, gets, modify,
      ret. simpl. rewrite Hcreate. simpl.
    destruct (window w1) eqn:Hwin; simpl; eexists _, _; (split; [reflexivity|]);
      simpl; repeat split; try apply set_add_present; discriminate.
  - intros k w'. unfold deleteMemory.
    rewrite (bind_ok _ _ _ _ _ Hinit).
    unfold try_catch, bind, remote_call, saveEntityKeysToStorage, set_svc,
      gets, modify, ret, throw.
    destruct (deleteEntity k (remote w1)) as [[|] r']; simpl; [|discriminate].
    destruct (window w1); simpl; intros [= <-]; simpl; apply set_delete_absent.
  - intros memory res w'. unfold uploadMemory.
    rewrite (bind_ok _ _ _ _ _ Hinit).
    unfold buildAttributes, toISOString, bind, remote_call,
      saveEntityKeysToStorage, set_svc, gets, modify, ret, throw.
    destruct (createdAt memory); simpl; [|discriminate].
    destruct (updatedAt memory); simpl; [|discriminate].
    destruct (owner memory); simpl; [|discriminate].
    destruct (createEntity _ _ _ _) as [[[entityKey txHash]|] r']; simpl;
      [|discriminate].
    destruct (window w1); simpl; intros [= <- <-]; simpl; apply set_add_present.
Qed.

Lemma local_key_index_coherent_witness :
  let ok := Demo.scripted {| Demo.listing := None; Demo.key_listing := None; Demo.stored := [];
                             Demo.accepts_writes := true |} in
  let down := Demo.scripted {| Demo.listing := None; Demo.key_listing := None; Demo.stored := [];
                               Demo.accepts_writes := false |} in
  let w := Demo.world ["k1"; "k2"] 0 false in
  (exists w',
     deleteMemory (H := ok) "k1" w = (Ok true, w') /\
     entityKeys (svc w') = ["k2"] /\ localStorage w' = Some ["k2"]) /\
  (exists w',
     deleteMemory (H := down) "k1" w = (Ok false, w') /\
     entityKeys (svc w') = ["k1"; "k2"] /\
     localStorage w' = Some ["k1"; "k2"]).
Proof.
  cbv zeta. split.
  - destruct (proj1 (local_key_index_coherent
                       (H := Demo.scripted {| Demo.listing := None;
                                              Demo.key_listing := None;
                                              Demo.stored := [];
                                              Demo.accepts_writes := true |})
                       (H0 := Demo.plain_codec)
                       (Demo.world ["k1"; "k2"] 0 false)
                       (Demo.world ["k1"; "k2"] 0 false) eq_refl)
                    "k1" tt eq_refl) as (w' & Hrun & Hkeys & _ & Hstore).
    exists w'. split; [exact Hrun|]. split; [exact Hkeys|].
    rewrite (Hstore eq_refl), Hkeys. reflexivity.
  - destruct (proj1 (proj2 (local_key_index_coherent
                       (H := Demo.scripted {| Demo.listing := None;
                                              Demo.key_listing := None;
                                              Demo.stored := [];
                                              Demo.accepts_writes := false |})
                       (H0 := Demo.plain_codec)
                       (Demo.world ["k1"; "k2"] 0 false)
                       (Demo.world ["k1"; "k2"] 0 false) eq_refl))
                    "k1" tt eq_refl) as (w' & Hrun & Hkeys & Hstore).
    exists w'. split; [exact Hrun|]. split; [exact Hkeys | exact Hstore].
Defined.

(** *** Initialized services *)

Section Ready.
Context {R : Type} `{ArkivClient R} `{Codec}.

Lemma ensureInitialized_ready (w : World R) :
  ready w -> ensureInitialized w = (Ok tt, w).
Proof.
  intros (Hi & Hw & Hp & Ho).
  unfold ensureInitialized, ensureClients, bind, gets, ret. simpl.
  rewrite Hi, Hw, Hp, Ho. reflexivity.
Qed.

Lemma ensureInitialized_establishes (w w1 : World R) :
  ensureInitialized w = (Ok tt, w1) -> ready w1.
Proof.
  unfold ensureInitialized, initialize, loadEntityKeysFromStorage,
    ensureClients, set_svc, bind, gets, modify, ret, throw, ready.
  simpl. repeat case_match; simplify_eq/=; intros [= <-]; simpl;
    repeat match goal with
           | Hb : _ || _ = false |- _ => apply orb_false_elim in Hb; destruct Hb
           | Hb : negb _ = false |- _ => apply negb_false_iff in Hb
           end; simpl in *; auto.
Qed.

Lemma ensureInitialized_twice (w w1 : World R) :
  ensureInitialized w = (Ok tt, w1) -> ensureInitialized w1 = (Ok tt, w1).
Proof.
  intros Hinit. apply ensureInitialized_ready.
  exact (ensureInitialized_establishes w w1 Hinit).
Qed.

Ltac ready_leaf :=
  first [ solve [auto 1 with breaker nocore]
        | unfold set_svc, log_fetch, count_failure, reset_failures;
          apply keeps_modify; unfold ready; simpl;
          intros ? (? & ? & ? & ?); auto ].

Lemma ready_ensureInitialized : keeps (@ready R) ensureInitialized.
Proof.
  intros w r w' Hw. rewrite (ensureInitialized_ready w Hw).
  intros [= <- <-]. exact Hw.
Qed.

#[local] Hint Resolve ready_ensureInitialized : breaker.

Lemma ready_retrieveMemory k : keeps (@ready R) (retrieveMemory k).
Proof.
  unfold retrieveMemory, publicClient_getEntity, entityToMemory,
    entityToMemory_start, entityToMemory_resume.
  keeps_steps; ready_leaf.
Qed.

Lemma ready_getAllEntityKeys : keeps (@ready R) getAllEntityKeys.
Proof.
  unfold getAllEntityKeys, fetchOwnedEntities, saveEntityKeysToStorage.
  keeps_steps; ready_leaf.
Qed.

#[local] Hint Resolve ready_retrieveMemory ready_getAllEntityKeys : breaker.

(** On an initialized service [retrieveMemory] returns, with a record or
    with nothing. *)
Lemma retrieveMemory_returns (k : string) (w : World R) :
  ready w -> exists m w', retrieveMemory k w = (Ok m, w') /\ ready w'.
Proof.
  intros Hw.
  destruct (retrieveMemory k w) as [[m|e] w'] eqn:E.
  - exists m, w'. split; [reflexivity|]. exact (ready_retrieveMemory k w _ w' Hw E).
  - exfalso. revert E. unfold retrieveMemory.
    rewrite (bind_ok _ _ _ _ _ (ensureInitialized_ready w Hw)).
    unfold try_catch. destruct (bind _ _ w) as [[a|e'] w2]; discriminate.
Qed.

Lemma mapM_retrieveMemory_returns (ks : list string) :
  forall w : World R, ready w ->
  exists found w',
    mapM retrieveMemory ks w = (Ok found, w') /\ ready w' /\
    List.length found = List.length ks.
Proof.
  induction ks as [|k ks IH]; intros w Hw.
  - exists [], w. split; [reflexivity|]. split; [exact Hw | reflexivity].
  - destruct (retrieveMemory_returns k w Hw) as (m & w1 & E1 & Hw1).
    destruct (IH w1 Hw1) as (found & w' & E2 & Hw' & Hlen).
    exists (m :: found), w'. simpl.
    rewrite (bind_ok _ _ _ _ _ E1), (bind_ok _ _ _ _ _ E2).
    split; [reflexivity|]. split; [exact Hw' | simpl; now rewrite Hlen].
Qed.

(** The loop of [getStorageStats] adds up the sizes of the records that
    retrieving the sampled keys one after the other brings. *)
Lemma sum_sizes_retrieved (ks : list string) :
  forall (w w' : World R) (size : Z) found,
  mapM retrieveMemory ks w = (Ok found, w') ->
  sum_sizes size ks w = (Ok (size + sum_Z (map size_of found))%Z, w').
Proof.
  induction ks as [|k ks IH]; intros w w' size found; simpl.
  - intros [= <- <-]. simpl. now rewrite Z.add_0_r.
  - unfold bind at 1 3.
    destruct (retrieveMemory k w) as [[m|e] w1]; [|discriminate].
    unfold bind at 1. destruct (mapM retrieveMemory ks w1) as [[ms|e] w2] eqn:E;
      [|discriminate].
    intros [= <- <-]. rewrite (IH w1 w2 _ ms E). simpl.
    f_equal. f_equal.
    destruct m as [m|]; simpl; [|lia].
    destruct (metadata_size m) as [[|p|p]|]; simpl; lia.
Qed.

Lemma getAllEntityKeys_returns (w : World R) :
  exists keys w', getAllEntityKeys w = (Ok keys, w').
Proof.
  unfold getAllEntityKeys, try_catch.
  destruct (bind _ _ w) as [[keys|e] w1]; [eauto|].
  unfold bind, gets, ret. simpl. destruct (Nat.ltb _ _); eauto.
Qed.

Lemma getAllEntityKeys_initialized (w w1 : World R) :
  ensureInitialized w = (Ok tt, w1) -> getAllEntityKeys w = getAllEntityKeys w1.
Proof.
  intros Hinit. pose proof (ensureInitialized_twice w w1 Hinit) as Hinit1.
  unfold getAllEntityKeys. apply try_catch_same, bind_same.
  unfold fetchOwnedEntities.
  now rewrite (bind_ok _ _ _ _ _ Hinit), (bind_ok _ _ _ _ _ Hinit1).
Qed.

End Ready.

Local Arguments Nat.min : simpl never.
Local Arguments Nat.eqb : simpl never.
Local Arguments Z.mul : simpl never.
Local Arguments Z.add : simpl never.
Local Arguments round_div : simpl never.

(** [round_div a n] is the integer nearest to [a / n], halves going up. *)
Lemma round_div_nearest (a n : Z) :
  (0 < n)%Z ->
  ((2 * round_div a n - 1) * n <= 2 * a < (2 * round_div a n + 1) * n)%Z.
Proof.
  intros Hn. unfold round_div.
  pose proof (Z.mul_div_le (2 * a + n) (2 * n) ltac:(lia)).
  pose proof (Z.mul_succ_div_gt (2 * a + n) (2 * n) ltac:(lia)).
  nia.
Qed.

(** C7.  Once initialization has succeeded, [getStorageStats] returns.
    With [keys] what [getAllEntityKeys] yields, it retrieves the first 20
    of them (all, when there are fewer) one after the other and no other
    key; [averageSize] is the sum of the [metadata.size] of the records
    found, divided by the number of sampled keys and rounded to the
    nearest integer, or 0 when there is no key; [totalSize] is
    [averageSize] times the number of all keys, and [totalMemories] and
    [pinnedMemories] are that number. *)
Theorem storage_stats_extrapolate {R : Type} `{ArkivClient R} `{Codec}
    (w w1 : World R) :
  ensureInitialized w = (Ok tt, w1) ->
  exists keys wk found stats w',
    getAllEntityKeys w = (Ok keys, wk) /\
    mapM retrieveMemory (take 20 keys) wk = (Ok found, w') /\
    getStorageStats w = (Ok stats, w') /\
    let sample := Nat.min 20 (List.length keys) in
    let size := sum_Z (map size_of found) in
    let averageSize :=
      if Nat.eqb sample 0 then 0%Z else round_div size (Z.of_nat sample) in
    List.length found = sample /\
    totalMemories stats = Z.of_nat (List.length keys) /\
    pinnedMemories stats = Z.of_nat (List.length keys) /\
    totalSize stats = (averageSize * Z.of_nat (List.length keys))%Z /\
    (keys = [] -> totalSize stats = 0%Z) /\
    (keys <> [] ->
     ((2 * averageSize - 1) * Z.of_nat sample <= 2 * size
      < (2 * averageSize + 1) * Z.of_nat sample)%Z).
Proof.
  intros Hinit.
  pose proof (ensureInitialized_establishes w w1 Hinit) as Hw1.
  destruct (getAllEntityKeys_returns w1) as (keys & wk & Hkeys).
  pose proof (ready_getAllEntityKeys w1 _ wk Hw1 Hkeys) as Hwk.
  rewrite <- (getAllEntityKeys_initialized w w1 Hinit) in Hkeys.
  destruct (mapM_retrieveMemory_returns (take 20 keys) wk Hwk)
    as (found & w' & Hfound & _ & Hlen).
  pose proof (sum_sizes_retrieved _ _ _ 0%Z _ Hfound) as Hsum.
  rewrite length_take in Hlen.
  eexists keys, wk, found, _, w'.
  split; [exact Hkeys|]. split; [exact Hfound|]. split.
  { unfold getStorageStats. rewrite (bind_ok _ _ _ _ _ Hkeys).
    cbv zeta. rewrite (bind_ok _ _ _ _ _ Hsum). reflexivity. }
  cbv zeta. simpl. rewrite length_take.
  split; [exact Hlen|]. split; [reflexivity|]. split; [reflexivity|].
  split; [reflexivity|]. split.
  - intros ->. reflexivity.
  - intros Hne.
    assert (0 < Nat.min 20 (List.length keys)) as Hpos.
    { destruct keys; [congruence|]. simpl. lia. }
    destruct (Nat.eqb_spec (Nat.min 20 (List.length keys)) 0) as [E|_]; [lia|].
    apply round_div_nearest. lia.
Qed.

Lemma storage_stats_extrapolate_witness :
  let C := Demo.scripted
             {| Demo.listing := None;
                Demo.key_listing :=
                  Some {| entities := [Demo.bare "k1"; Demo.bare "k2"; Demo.bare "k3"];
                          more := [] |};
                Demo.stored := [("k1", Demo.with_text "k1" "abcd");
                                ("k2", Demo.with_text "k2" "abcdef");
                                ("k3", Demo.with_text "k3" "bad")];
                Demo.accepts_writes := true |} in
  let w := Demo.world [] 0 false in
  exists keys wk found stats w',
    getAllEntityKeys (H := C) w = (Ok keys, wk) /\
    mapM (retrieveMemory (H := C) (H0 := Demo.plain_codec)) (take 20 keys) wk
      = (Ok found, w') /\
    getStorageStats (H := C) (H0 := Demo.plain_codec) w = (Ok stats, w') /\
    let sample := Nat.min 20 (List.length keys) in
    let size := sum_Z (map size_of found) in
    let averageSize :=
      if Nat.eqb sample 0 then 0%Z else round_div size (Z.of_nat sample) in
    List.length found = sample /\
    totalMemories stats = Z.of_nat (List.length keys) /\
    pinnedMemories stats = Z.of_nat (List.length keys) /\
    totalSize stats = (averageSize * Z.of_nat (List.length keys))%Z /\
    (keys = [] -> totalSize stats = 0%Z) /\
    (keys <> [] ->
     ((2 * averageSize - 1) * Z.of_nat sample <= 2 * size
      < (2 * averageSize + 1) * Z.of_nat sample)%Z).
Proof.
  cbv zeta.
  exact (storage_stats_extrapolate (H := Demo.scripted _) (H0 := Demo.plain_codec)
           (Demo.world [] 0 false) (Demo.world [] 0 false) eq_refl).
Defined.

(** Three keys, sizes 4 and 6 and one record that does not decode: the
    average is round(10 / 3) = 3 and the estimate 9, not the sum 10. *)
Example storage_stats_example :
  let C := Demo.scripted
             {| Demo.listing := None;
                Demo.key_listing :=
                  Some {| entities := [Demo.bare "k1"; Demo.bare "k2"; Demo.bare "k3"];
                          more := [] |};
                Demo.stored := [("k1", Demo.with_text "k1" "abcd");
                                ("k2", Demo.with_text "k2" "abcdef");
                                ("k3", Demo.with_text "k3" "bad")];
                Demo.accepts_writes := true |} in
  (getStorageStats (H := C) (H0 := Demo.plain_codec) (Demo.world [] 0 false)).1
  = Ok {| totalMemories := 3; totalSize := 9; pinnedMemories := 3;
          s_chainId := 60138453056 |}.
Proof. vm_compute. reflexivity. Qed.

(** *** Search *)

Section Search.
Context {R : Type} `{ArkivClient R} `{Codec}.

Lemma fetchOwnedEntities_ready (w : World R) (o : string) ip lim fa :
  ready w -> ownerAddress (svc w) = Some o ->
  fetchOwnedEntities ip lim fa w =
    match query_fetch o ip (match lim with
                            | Some 0%Z | None => 50%Z
                            | Some l => l
                            end) (remote w) with
    | (None, r1) => (Throw "query failed", with_remote r1 w)
    | (Some result, r1) =>
        if fa then
          match follow_pages (entities result) (more result) with
          | Ok es => (Ok es, with_remote r1 w)
          | Throw e => (Throw e, with_remote r1 w)
          end
        else (Ok (entities result), with_remote r1 w)
    end.
Proof.
  intros Hw Ho. pose proof Hw as (_ & _ & _ & Htr). rewrite Ho in Htr.
  destruct o as [|a r]; [discriminate|].
  unfold fetchOwnedEntities.
  rewrite (bind_ok _ _ _ _ _ (ensureInitialized_ready w Hw)).
  unfold bind, gets, remote_call, ret, throw. simpl. rewrite Ho.
  destruct (query_fetch _ _ _ _) as [[result|] r1]; [|reflexivity].
  destruct fa; [|reflexivity].
  destruct (follow_pages _ _); reflexivity.
Qed.

Lemma mapM_guarded_retrieve (ks : list string) :
  forall w : World R, ready w ->
  mapM (fun key => try_catch (retrieveMemory key) (fun _ => ret None)) ks w
  = mapM retrieveMemory ks w.
Proof.
  induction ks as [|k ks IH]; intros w Hw; [reflexivity|].
  destruct (retrieveMemory_returns k w Hw) as (m & w1 & E & Hw1).
  simpl. rewrite (bind_ok _ _ _ _ _ (try_catch_ok _ _ _ _ _ E)).
  rewrite (bind_ok _ _ _ _ _ E). unfold bind. now rewrite (IH w1 Hw1).
Qed.

Lemma filter_matches_all (ms : list MemoryEntry) :
  List.filter (matches "") ms = ms.
Proof. induction ms as [|m ms IH]; simpl; [reflexivity | now rewrite IH]. Qed.

Lemma ready_with_remote (w : World R) r : ready w -> ready (with_remote r w).
Proof. intros Hw. exact Hw. Qed.

(** When the key enumeration fails, the keys are the cached ones. *)
Lemma getAllEntityKeys_cached (w : World R) (o : string) r2 :
  ready w -> ownerAddress (svc w) = Some o ->
  query_fetch o false 50%Z (remote w) = (None, r2) ->
  getAllEntityKeys w = (Ok (entityKeys (svc w)), with_remote r2 w).
Proof.
  intros Hw Ho Hq. unfold getAllEntityKeys.
  assert (fetchOwnedEntities false None true w
          = (Throw "query failed", with_remote r2 w)) as E.
  { rewrite (fetchOwnedEntities_ready w o _ _ _ Hw Ho). now rewrite Hq. }
  rewrite (try_catch_throw _ _ _ _ _ (bind_throw _ _ _ _ _ E)).
  unfold bind, gets, ret. simpl.
  destruct (entityKeys (svc w)); reflexivity.
Qed.

(** The fallback search over the cached keys. *)
Lemma searchMemoriesFallback_cached (w : World R) (o text : string) limit r2 :
  ready w -> ownerAddress (svc w) = Some o ->
  query_fetch o false 50%Z (remote w) = (None, r2) ->
  exists found w',
    mapM retrieveMemory (entityKeys (svc w)) (with_remote r2 w) = (Ok found, w') /\
    searchMemoriesFallback text limit w
    = (Ok (slice0 limit (List.filter (matches text) (omap (fun m => m) found))), w').
Proof.
  intros Hw Ho Hq.
  pose proof (getAllEntityKeys_cached w o r2 Hw Ho Hq) as Ekeys.
  destruct (mapM_retrieveMemory_returns (entityKeys (svc w)) (with_remote r2 w)
              (ready_with_remote w r2 Hw)) as (found & w' & Efound & _ & _).
  exists found, w'. split; [exact Efound|].
  unfold searchMemoriesFallback, getAllMemoriesDirectly.
  erewrite try_catch_ok; [reflexivity|].
  erewrite bind_ok; [reflexivity|].
  erewrite try_catch_ok; [reflexivity|].
  rewrite (bind_ok _ _ _ _ _ Ekeys).
  rewrite (bind_ok _ _ _ _ _
             (eq_trans (mapM_guarded_retrieve _ _ (ready_with_remote w r2 Hw))
                       Efound)).
  reflexivity.
Qed.

Lemma convert_batch_nil (w : World R) : convert_batch [] w = (Ok [], w).
Proof. reflexivity. Qed.

Lemma slice0_nil {A} limit : slice0 limit (@nil A) = [].
Proof. unfold slice0. destruct (0 <=? limit)%Z; apply take_nil. Qed.

End Search.

(** C4, as amended.  On an initialized service with the breaker
    untripped and no owner filter given: if the listing with payload
    brings no entity and the key enumeration of the fallback then fails,
    a search for the empty text returns the records found by retrieving
    the cached keys one after the other, in the order of the key set,
    cut to [limit]. *)
Theorem search_falls_back_to_cached_keys {R : Type} `{ArkivClient R} `{Codec}
    (w : World R) (o : string) (owner_ : option string) (limit : Z)
    (listed : QueryResult) (r1 r2 : R) :
  ready w -> ownerAddress (svc w) = Some o ->
  skipIndividualFetch (svc w) = false ->
  truthy owner_ = false ->
  query_fetch o true (Z.max limit 50) (remote w) = (Some listed, r1) ->
  entities listed = [] ->
  query_fetch o false 50%Z r1 = (None, r2) ->
  exists found w',
    mapM retrieveMemory (entityKeys (svc w)) (with_remote r2 w) = (Ok found, w') /\
    searchMemories "" owner_ limit w
    = (Ok (slice0 limit (omap (fun m => m) found)), w').
Proof.
  intros Hw Ho Hskip Hown Hq1 Hnone Hq2.
  destruct (searchMemoriesFallback_cached (with_remote r1 w) o "" limit r2
              (ready_with_remote w r1 Hw) Ho Hq2) as (found & w' & Efound & Efb).
  rewrite filter_matches_all in Efb.
  exists found, w'. split; [exact Efound|].
  assert (fetchOwnedEntities true (Some (Z.max limit 50)) false w
          = (Ok [], with_remote r1 w)) as Elist.
  { rewrite (fetchOwnedEntities_ready w o _ _ _ Hw Ho).
    destruct (Z.max limit 50) eqn:Emax; try lia; rewrite Hq1, Hnone; reflexivity. }
  unfold searchMemories.
  rewrite (bind_ok _ _ _ _ _ (ensureInitialized_ready w Hw)).
  erewrite try_catch_ok; [reflexivity|].
  rewrite (bind_ok _ _ _ _ _ Elist).
  rewrite (bind_ok _ _ _ _ _ (convert_batch_nil _)).
  cbv zeta. cbn [omap list_omap List.filter]. rewrite slice0_nil.
  assert (Hgets : gets (fun w0 : World R => skipIndividualFetch (svc w0))
                    (with_remote r1 w) = (Ok false, with_remote r1 w)).
  { unfold gets. simpl. now rewrite Hskip. }
  destruct owner_ as [[|a r]|]; try discriminate;
    rewrite (bind_ok _ _ _ _ _ Hgets); simpl;
    rewrite (bind_ok _ _ _ _ _ (try_catch_ok _ _ _ _ _ Efb));
    destruct (slice0 limit (omap (fun m => m) found)); reflexivity.
Qed.

Lemma search_falls_back_to_cached_keys_witness :
  exists found w',
    mapM (retrieveMemory (H := Demo.failing_enumeration) (H0 := Demo.plain_codec))
      ["k1"; "k2"] (Demo.world ["k1"; "k2"] 0 false) = (Ok found, w') /\
    searchMemories (H := Demo.failing_enumeration) (H0 := Demo.plain_codec)
      "" None 50 (Demo.world ["k1"; "k2"] 0 false)
    = (Ok (slice0 50 (omap (fun m => m) found)), w').
Proof.
  apply (search_falls_back_to_cached_keys (H := Demo.failing_enumeration)
           (H0 := Demo.plain_codec) (Demo.world ["k1"; "k2"] 0 false)
           "0xabc" None 50 Demo.empty_page tt tt).
  - repeat split.
  - reflexivity.
  - reflexivity.
  - reflexivity.
  - reflexivity.
  - reflexivity.
  - reflexivity.
Defined.

(** What the search of the witness returns: both records. *)
Example search_cached_keys_example :
  map ipfsHash
    (match (searchMemories (H := Demo.failing_enumeration)
              (H0 := Demo.plain_codec) "" None 50
              (Demo.world ["k1"; "k2"] 0 false)).1 with
     | Ok ms => ms
     | Throw _ => []
     end) = ["k1"; "k2"].
Proof. vm_compute. reflexivity. Qed.

(** C4, as stated, fails.  Both records can be fetched by the keys of
    the local key index and are owned by ["0xabc"]; yet
    - with that owner given, the search returns nothing when the listings
      bring no entity, and also when the key enumeration fails: the owner
      branch returns before the fallback is tried;
    - with no owner given and listings that bring no entity, the fallback
      runs, enumerates no key, replaces the key set by the empty one and
      returns nothing;
    - with no owner given, a failing key enumeration and 51 records
      behind the cached keys, the search returns 50 of them. *)
Lemma search_with_owner_skips_fallback :
  let w := Demo.world ["k1"; "k2"] 0 false in
  (exists m w',
     retrieveMemory (H := Demo.silent_listing) (H0 := Demo.plain_codec) "k1" w
       = (Ok (Some m), w') /\ owner m = Some "0xabc") /\
  (exists w',
     searchMemories (H := Demo.silent_listing) (H0 := Demo.plain_codec)
       "" (Some "0xabc") 50 w = (Ok [], w') /\
     fetchLog w' = []) /\
  (exists w',
     searchMemories (H := Demo.failing_enumeration) (H0 := Demo.plain_codec)
       "" (Some "0xabc") 50 w = (Ok [], w') /\
     fetchLog w' = []) /\
  (exists w',
     searchMemories (H := Demo.silent_listing) (H0 := Demo.plain_codec)
       "" None 50 w = (Ok [], w') /\
     entityKeys (svc w') = [] /\ fetchLog w' = []) /\
  (exists found w1 ms w',
     mapM (retrieveMemory (H := Demo.many_records 51) (H0 := Demo.plain_codec))
       (Demo.numbered 51) (Demo.world (Demo.numbered 51) 0 false)
       = (Ok found, w1) /\
     List.length (omap (fun m => m) found) = 51 /\
     searchMemories (H := Demo.many_records 51) (H0 := Demo.plain_codec)
       "" None 50 (Demo.world (Demo.numbered 51) 0 false) = (Ok ms, w') /\
     List.length ms = 50).
Proof.
  cbv zeta. repeat split.
  - eexists _, _. split; vm_compute; reflexivity.
  - eexists. split; vm_compute; reflexivity.
  - eexists. split; vm_compute; reflexivity.
  - eexists. split; [|split]; vm_compute; reflexivity.
  - eexists _, _, _, _.
    split; [vm_compute; reflexivity|]. split; [vm_compute; reflexivity|].
    split; [vm_compute; reflexivity|]. vm_compute; reflexivity.
Qed.

(** *** Failures of single entities and of the listing *)

Section Absorb.
Context {R : Type} `{ArkivClient R} `{Codec}.

Lemma start_returns (e : Entity) (w : World R) :
  exists st w1,
    try_catch (entityToMemory_start e) (fun _ => ret (Returned None)) w
      = (Ok st, w1) /\
    explorerUrl (svc w1) = explorerUrl (svc w) /\
    (truthy (value e) = true ->
     st = Returned (decode (explorerUrl (svc w)) e)).
Proof.
  unfold try_catch, entityToMemory_start, count_failure, log_fetch,
    remote_call, set_svc, bind, ret, gets, modify.
  destruct (truthy (value e)); simpl.
  - eexists _, _. repeat split.
  - destruct (skipIndividualFetch (svc w)); simpl;
      [eexists _, _; repeat split; discriminate|].
    destruct (publicClient (svc w)); simpl.
    + destruct (getEntity (key e) (remote w)) as [response r1]. simpl.
      eexists _, _. repeat split. discriminate.
    + eexists _, _. repeat split. discriminate.
Qed.

Lemma resume_returns (st : Started) (w : World R) :
  exists r w1,
    try_catch (entityToMemory_resume st) (fun _ => ret None) w = (Ok r, w1) /\
    explorerUrl (svc w1) = explorerUrl (svc w) /\
    (forall r0, st = Returned r0 -> r = r0).
Proof.
  unfold try_catch, entityToMemory_resume, count_failure, reset_failures,
    set_svc, bind, ret, gets, modify.
  destruct st as [r0|[full|]]; simpl.
  - eexists _, _. repeat split. now intros ? [= ->].
  - destruct (truthy (value full)); simpl;
      [eexists _, _; repeat split; discriminate|].
    destruct (toText full) as [| |[|c t]]; simpl;
      try (eexists _, _; repeat split; discriminate).
    destruct (JSON_parse (String c t)); eexists _, _; repeat split; discriminate.
  - eexists _, _. repeat split. discriminate.
Qed.

Lemma batch_start (es : list Entity) :
  forall w : World R,
  exists sts w1,
    mapM (fun e => try_catch (entityToMemory_start e)
                             (fun _ => ret (Returned None))) es w
      = (Ok sts, w1) /\
    explorerUrl (svc w1) = explorerUrl (svc w) /\
    List.length sts = List.length es /\
    (forall i e, es !! i = Some e -> truthy (value e) = true ->
       sts !! i = Some (Returned (decode (explorerUrl (svc w)) e))).
Proof.
  induction es as [|e es IH]; intros w.
  - exists [], w. repeat split. intros i e Hi. now rewrite lookup_nil in Hi.
  - destruct (start_returns e w) as (st & w1 & E1 & Hx1 & Hst).
    destruct (IH w1) as (sts & w2 & E2 & Hx2 & Hlen & Hsts).
    exists (st :: sts), w2. simpl.
    rewrite (bind_ok _ _ _ _ _ E1), (bind_ok _ _ _ _ _ E2).
    split; [reflexivity|]. split; [congruence|]. split; [simpl; congruence|].
    intros [|i] e' Hi Hv; simpl in *.
    + injection Hi as <-. now rewrite (Hst Hv).
    + rewrite <- Hx1. exact (Hsts i e' Hi Hv).
Qed.

Lemma batch_resume (sts : list Started) :
  forall w : World R,
  exists rs w1,
    mapM (fun st => try_catch (entityToMemory_resume st) (fun _ => ret None))
         sts w = (Ok rs, w1) /\
    List.length rs = List.length sts /\
    (forall i r, sts !! i = Some (Returned r) -> rs !! i = Some r).
Proof.
  induction sts as [|st sts IH]; intros w.
  - exists [], w. repeat split. intros i r Hi. now rewrite lookup_nil in Hi.
  - destruct (resume_returns st w) as (r & w1 & E1 & _ & Hr).
    destruct (IH w1) as (rs & w2 & E2 & Hlen & Hrs).
    exists (r :: rs), w2. simpl.
    rewrite (bind_ok _ _ _ _ _ E1), (bind_ok _ _ _ _ _ E2).
    split; [reflexivity|]. split; [simpl; congruence|].
    intros [|i] r0 Hi; simpl in *.
    + injection Hi as ->. now rewrite (Hr r0 eq_refl).
    + exact (Hrs i r0 Hi).
Qed.

(** A batch is converted entity by entity and never raises: one result
    per entity, and an entity that came with its payload gets its own
    decoding, whatever happens to the others. *)
Lemma convert_batch_returns (es : list Entity) (w : World R) :
  exists rs w',
    convert_batch es w = (Ok rs, w') /\
    List.length rs = List.length es /\
    (forall i e, es !! i = Some e -> truthy (value e) = true ->
       rs !! i = Some (decode (explorerUrl (svc w)) e)).
Proof.
  destruct (batch_start es w) as (sts & w1 & E1 & _ & Hlen1 & Hsts).
  destruct (batch_resume sts w1) as (rs & w2 & E2 & Hlen2 & Hrs).
  exists rs, w2. unfold convert_batch. rewrite (bind_ok _ _ _ _ _ E1).
  split; [exact E2|]. split; [congruence|].
  intros i e Hi Hv. exact (Hrs i _ (Hsts i e Hi Hv)).
Qed.

Lemma searchMemoriesFallback_returns (text : string) limit (w : World R) :
  exists ms w', searchMemoriesFallback text limit w = (Ok ms, w').
Proof.
  unfold searchMemoriesFallback, try_catch.
  destruct (bind _ _ w) as [[ms|e] w1]; eauto.
Qed.

(** The [catch] of [searchMemories]: what the fallback finds, and the
    empty list when it finds nothing. *)
Lemma search_handler_returns (text : string) limit (w : World R) ms w' :
  searchMemoriesFallback text limit w = (Ok ms, w') ->
  (let* fallbackMemories :=
     try_catch (searchMemoriesFallback text limit) (fun _ => ret []) in
   if Nat.ltb 0 (List.length fallbackMemories)
   then ret fallbackMemories else ret []) w = (Ok ms, w').
Proof.
  intros E. rewrite (bind_ok _ _ _ _ _ (try_catch_ok _ _ _ _ _ E)).
  destruct ms; reflexivity.
Qed.

Lemma searchMemories_returns (text : string) owner_ limit (w : World R) :
  ready w -> exists ms w', searchMemories text owner_ limit w = (Ok ms, w').
Proof.
  intros Hw. unfold searchMemories.
  rewrite (bind_ok _ _ _ _ _ (ensureInitialized_ready w Hw)).
  unfold try_catch at 1.
  destruct (bind _ _ w) as [[ms|e] w1]; [eauto|].
  destruct (searchMemoriesFallback_returns text limit w1) as (ms & w' & E).
  rewrite (search_handler_returns text limit w1 ms w' E). eauto.
Qed.

(** A listing that fails sends [searchMemories] to its [catch], which
    answers with what the fallback finds. *)
Lemma searchMemories_listing_fails (text : string) owner_ limit (w : World R)
    (o : string) r1 :
  ready w -> ownerAddress (svc w) = Some o ->
  query_fetch o true (Z.max limit 50) (remote w) = (None, r1) ->
  searchMemories text owner_ limit w
  = searchMemoriesFallback text limit (with_remote r1 w).
Proof.
  intros Hw Ho Hq.
  assert (fetchOwnedEntities true (Some (Z.max limit 50)) false w
          = (Throw "query failed", with_remote r1 w)) as E.
  { rewrite (fetchOwnedEntities_ready w o _ _ _ Hw Ho).
    destruct (Z.max limit 50) eqn:Emax; try lia; now rewrite Hq. }
  destruct (searchMemoriesFallback_returns text limit (with_remote r1 w))
    as (ms & w' & Efb).
  unfold searchMemories.
  rewrite (bind_ok _ _ _ _ _ (ensureInitialized_ready w Hw)).
  rewrite (try_catch_throw _ _ _ _ _ (bind_throw _ _ _ _ _ E)).
  rewrite (search_handler_returns text limit _ ms w' Efb). now rewrite Efb.
Qed.

End Absorb.

(** C6, as amended.  On an initialized service:
    - converting a batch never raises; it gives one result per entity,
      and an entity that came with its payload gets its own decoding
      whatever the fetches and decodings of the others do;
    - [searchMemories] never raises;
    - when the owner listing itself fails, [searchMemories] returns what
      the fallback search finds (which enumerates again and falls back to
      the local key index), and the empty list, not an error, when the
      enumeration fails again and the local key index is empty. *)
Theorem search_absorbs_failures {R : Type} `{ArkivClient R} `{Codec}
    (w : World R) (text : string) (owner_ : option string) (limit : Z) :
  ready w ->
  (forall es,
     exists rs w',
       convert_batch es w = (Ok rs, w') /\
       List.length rs = List.length es /\
       (forall i e, es !! i = Some e -> truthy (value e) = true ->
          rs !! i = Some (decode (explorerUrl (svc w)) e))) /\
  (exists ms w', searchMemories text owner_ limit w = (Ok ms, w')) /\
  (forall o r1,
     ownerAddress (svc w) = Some o ->
     query_fetch o true (Z.max limit 50) (remote w) = (None, r1) ->
     exists ms w',
       searchMemoriesFallback text limit (with_remote r1 w) = (Ok ms, w') /\
       searchMemories text owner_ limit w = (Ok ms, w') /\
       (forall r2,
          query_fetch o false 50%Z r1 = (None, r2) ->
          entityKeys (svc w) = [] -> ms = [])).
Proof.
  intros Hw. split; [|split].
  - intros es. apply convert_batch_returns.
  - apply searchMemories_returns. exact Hw.
  - intros o r1 Ho Hq.
    destruct (searchMemoriesFallback_returns text limit (with_remote r1 w))
      as (ms & w' & Efb).
    exists ms, w'. split; [exact Efb|]. split.
    + rewrite (searchMemories_listing_fails text owner_ limit w o r1 Hw Ho Hq).
      exact Efb.
    + intros r2 Hq2 Hnokeys.
      destruct (searchMemoriesFallback_cached (with_remote r1 w) o text limit r2
                  (ready_with_remote w r1 Hw) Ho Hq2)
        as (found & w'' & Efound & Efb').
      simpl in Efound. rewrite Hnokeys in Efound. injection Efound as <- <-.
      rewrite Efb in Efb'. injection Efb' as -> _.
      apply slice0_nil.
Qed.

Lemma search_absorbs_failures_witness :
  let w := Demo.world [] 0 false in
  (exists rs w',
     convert_batch (H := Demo.unreachable) (H0 := Demo.plain_codec)
       [Demo.bare "k0"; Demo.with_text "k1" "hello"; Demo.with_text "k2" "bad"] w
       = (Ok rs, w') /\
     rs !! 1 = Some (decode (H0 := Demo.plain_codec) "https://explorer"
                       (Demo.with_text "k1" "hello"))) /\
  (exists ms w',
     searchMemories (H := Demo.unreachable) (H0 := Demo.plain_codec)
       "milk" None 20 w = (Ok ms, w') /\ ms = []).
Proof.
  cbv zeta.
  pose proof (search_absorbs_failures (H := Demo.unreachable)
                (H0 := Demo.plain_codec) (Demo.world [] 0 false) "milk" None 20)
    as Habs.
  destruct Habs as (Hbatch & _ & Hfail); [repeat split|].
  split.
  - destruct (Hbatch [Demo.bare "k0"; Demo.with_text "k1" "hello";
                      Demo.with_text "k2" "bad"]) as (rs & w' & E & _ & Hrs).
    exists rs, w'. split; [exact E|].
    exact (Hrs 1 (Demo.with_text "k1" "hello") eq_refl eq_refl).
  - destruct (Hfail "0xabc" tt eq_refl eq_refl) as (ms & w' & _ & E & Hnil).
    exists ms, w'. split; [exact E|]. exact (Hnil tt eq_refl eq_refl).
Defined.

(** C6, as stated, fails in its second half: with a listing that raises,
    a key enumeration that raises and an empty local key index, the
    caller of [searchMemories] gets the empty list as a normal result,
    with or without an owner filter, and no error. *)
Lemma search_swallows_listing_failure :
  let w := Demo.world [] 0 false in
  (exists w',
     searchMemories (H := Demo.unreachable) (H0 := Demo.plain_codec)
       "milk" None 20 w = (Ok [], w')) /\
  (exists w',
     searchMemories (H := Demo.unreachable) (H0 := Demo.plain_codec)
       "milk" (Some "0xabc") 20 w = (Ok [], w')) /\
  (exists e w',
     fetchOwnedEntities (H := Demo.unreachable) true (Some 50%Z) false w
       = (Throw e, w')).
Proof.
  cbv zeta. repeat split; eexists; try eexists; vm_compute; reflexivity.
Qed.

End ArkivFacts.

(** ** The symmetric-material invariant *)

Module SymmetricFacts.

Lemma kms_call_symmetric `{Platform} (c : KeyManagementSession.Call)
    (w w' : KeyManagement.World) r :
  KeyManagementSession.run c w = (r, w') ->
  (forall k, r = Ok (Some k) -> symmetric k) /\
  (cache_symmetric (KeyManagement.sessionKeys (KeyManagement.kms w)) ->
   cache_symmetric (KeyManagement.sessionKeys (KeyManagement.kms w'))).
Proof.
  destruct w as [[cache mk] t].
  destruct c as [password | id | memoryId salt0 | ]; simpl.
  - intros [= <- <-]. split; [discriminate | trivial].
  - destruct id as [[|c r']|]; intros [= <- <-]; simpl;
      (split; [intros k [= <-]; reflexivity
              | intros Hc; apply map_Forall_insert_2; [reflexivity | exact Hc]]).
  - unfold KeyManagement.generateMemoryKey, bind, gets; simpl.
    destruct mk as [[|c r']|]; simpl.
    + intros [= <- <-]. split; [discriminate | trivial].
    + destruct salt0 as [[|c2 r2]|]; intros [= <- <-]; simpl;
        (split; [intros k [= <-]; reflexivity
                | intros Hc; apply map_Forall_insert_2; [reflexivity | exact Hc]]).
    + intros [= <- <-]. split; [discriminate | trivial].
  - intros [= <- <-]. split; [discriminate |]. intros _. apply map_Forall_empty.
Qed.

Lemma kms_reachable_symmetric `{Platform} (w : KeyManagement.World) :
  KeyManagementSession.reachable w ->
  cache_symmetric (KeyManagement.sessionKeys (KeyManagement.kms w)).
Proof.
  induction 1 as [t | w c r w' _ IH Hrun].
  - apply map_Forall_empty.
  - exact (proj2 (kms_call_symmetric c w w' r Hrun) IH).
Qed.

(** *** The key table of EncryptionService *)

(** Every key of the table has halves that agree. *)
Local Abbreviation table_symmetric :=
  (fun w : Encryption.World =>
     cache_symmetric (Encryption.keys (Encryption.enc w))).

Lemma symmetric_set_keys (f : gmap string EncryptionKey
                              -> gmap string EncryptionKey) :
  (forall m, cache_symmetric m -> cache_symmetric (f m)) ->
  keeps table_symmetric (Encryption.set_keys f).
Proof.
  intros Hf. unfold Encryption.set_keys. apply ArkivFacts.keeps_modify.
  intros w Hw. simpl. exact (Hf _ Hw).
Qed.

Lemma symmetric_insert (id : string) (k : EncryptionKey) :
  symmetric k -> keeps table_symmetric (Encryption.set_keys (insert id k)).
Proof.
  intros Hk. apply symmetric_set_keys. intros m Hm.
  apply map_Forall_insert_2; assumption.
Qed.

Lemma symmetric_delete (id : string) :
  keeps table_symmetric (Encryption.set_keys (delete id)).
Proof.
  apply symmetric_set_keys. intros m Hm. now apply map_Forall_delete.
Qed.

Section Tape.
Context `{Platform} `{CryptoJS}.

Lemma symmetric_random n :
  keeps table_symmetric (Encryption.WordArray_random n).
Proof. intros w r w' Hw [= <- <-]. exact Hw. Qed.

Lemma symmetric_now : keeps table_symmetric Encryption.Date_now.
Proof. intros w r w' Hw [= <- <-]. exact Hw. Qed.

Lemma symmetric_random36 : keeps table_symmetric Encryption.Math_random36.
Proof. intros w r w' Hw [= <- <-]. exact Hw. Qed.

End Tape.

Create HintDb halves.

#[local] Hint Resolve symmetric_random symmetric_now symmetric_random36
  symmetric_delete : halves.

(** Walks through a method; what is left are the keys it stores. *)
Ltac halves_steps :=
  repeat first
    [ solve [auto 1 with halves nocore]
    | apply ArkivFacts.keeps_ret | apply ArkivFacts.keeps_throw
    | apply ArkivFacts.keeps_gets
    | match goal with
      | |- keeps _ (let _ := _ in _) => cbv zeta
      | |- keeps _ (match ?x with _ => _ end) => destruct x
      | |- keeps _ (Encryption.set_keys (insert _ _)) =>
          apply symmetric_insert
      end
    | apply ArkivFacts.keeps_bind; [|intros ?; cbv beta]
    | apply ArkivFacts.keeps_mapM; intros ? ].

Section Methods.
Context `{Platform} `{CryptoJS}.

Lemma symmetric_generateKeyId :
  keeps table_symmetric Encryption.generateKeyId.
Proof. unfold Encryption.generateKeyId. halves_steps. Qed.

#[local] Hint Resolve symmetric_generateKeyId : halves.

Lemma symmetric_generateKeyPair id :
  keeps table_symmetric (Encryption.generateKeyPair id).
Proof.
  unfold Encryption.generateKeyPair, or_else. halves_steps; reflexivity.
Qed.

Lemma symmetric_generateKeyFromPassword password salt0 :
  keeps table_symmetric (Encryption.generateKeyFromPassword password salt0).
Proof.
  unfold Encryption.generateKeyFromPassword. halves_steps; reflexivity.
Qed.

#[local] Hint Resolve symmetric_generateKeyPair
  symmetric_generateKeyFromPassword : halves.

Lemma symmetric_encrypt text id kms :
  keeps table_symmetric (Encryption.encrypt text id kms).
Proof.
  unfold Encryption.encrypt, Encryption.password_of. halves_steps.
Qed.

Lemma symmetric_decrypt data id kms :
  keeps table_symmetric (Encryption.decrypt data id kms).
Proof.
  unfold Encryption.decrypt, Encryption.password_of. halves_steps.
Qed.

Lemma symmetric_removeKey id :
  keeps table_symmetric (Encryption.removeKey id).
Proof. unfold Encryption.removeKey. halves_steps. Qed.

#[local] Hint Resolve symmetric_encrypt symmetric_decrypt
  symmetric_removeKey : halves.

Lemma symmetric_createThresholdEncryption text cfg :
  keeps table_symmetric (EncryptionVault.createThresholdEncryption text cfg).
Proof.
  unfold EncryptionVault.createThresholdEncryption,
    EncryptionVault.createSecretShares.
  halves_steps; reflexivity.
Qed.

Lemma symmetric_createTimelockEncryption text unlock :
  keeps table_symmetric (EncryptionVault.createTimelockEncryption text unlock).
Proof. unfold EncryptionVault.createTimelockEncryption. halves_steps. Qed.

Lemma symmetric_isTimelockExpired tl :
  keeps table_symmetric (EncryptionVault.isTimelockExpired tl).
Proof. unfold EncryptionVault.isTimelockExpired. halves_steps. Qed.

#[local] Hint Resolve symmetric_isTimelockExpired : halves.

Lemma symmetric_decryptTimelock tl data :
  EncryptionVault.encryptedKey tl = Some (EncryptionVault.t_publicKey tl) ->
  keeps table_symmetric (EncryptionVault.decryptTimelock tl data).
Proof.
  intros Htl. unfold EncryptionVault.decryptTimelock. halves_steps.
Qed.

End Methods.

(** *** The service in its browser *)

Section Session.
Import EncryptionStorage EncryptionSession.
Context `{Platform} `{CryptoJS} `{KeyJson}.

(** Table and stored item hold keys whose halves agree. *)
Local Abbreviation all_symmetric :=
  (fun b : Browser =>
     cache_symmetric (Encryption.keys (Encryption.enc (service b))) /\
     stored_symmetric (item b)).

Lemma symmetric_on_service {A} (m : M Encryption.World A) :
  keeps table_symmetric m -> keeps all_symmetric (on_service m).
Proof.
  intros Hm b r b' [Ht Hi]. unfold on_service.
  destruct (m (service b)) as [r0 w] eqn:E. intros [= <- <-].
  split; [exact (Hm _ _ _ Ht E) | exact Hi].
Qed.

Lemma symmetric_values (table : gmap string EncryptionKey) :
  cache_symmetric table ->
  stored_symmetric (Keys (map Some (values table))).
Proof.
  intros Ht. simpl. apply Forall_forall. intros o Ho key ->.
  apply list_elem_of_fmap in Ho as (k & [= <-] & Hk).
  apply list_elem_of_fmap in Hk as ([id k'] & -> & Hin).
  apply elem_of_map_to_list in Hin. exact (Ht id k' Hin).
Qed.

Lemma symmetric_load_keys (ks : list (option EncryptionKey))
    (table : gmap string EncryptionKey) :
  stored_symmetric (Keys ks) -> cache_symmetric table ->
  cache_symmetric (load_keys ks table).
Proof.
  revert table. induction ks as [|[key|] ks IH]; intros table Hks Ht;
    simpl; try exact Ht.
  apply Forall_cons in Hks as [Hkey Hks].
  apply IH; [exact Hks|]. apply map_Forall_insert_2; [|exact Ht].
  exact (Hkey key eq_refl).
Qed.

Lemma symmetric_save : keeps all_symmetric saveKeysToStorage.
Proof.
  intros b r b' [Ht Hi].
  unfold saveKeysToStorage, bind, gets, modify, ret.
  destruct (window b); intros [= <- <-]; split; try assumption.
  now apply symmetric_values.
Qed.

Lemma symmetric_load : keeps all_symmetric loadKeysFromStorage.
Proof.
  intros b r b' [Ht Hi].
  unfold loadKeysFromStorage, on_service, Encryption.set_keys, bind, gets,
    modify, ret.
  destruct (window b); [|intros [= <- <-]; split; assumption].
  destruct (item b) as [| |ks] eqn:E; intros [= <- <-]; simpl;
    rewrite ?E; split; try assumption.
  now apply symmetric_load_keys.
Qed.

Lemma symmetric_run (c : Call) :
  trusted c -> keeps all_symmetric (run c).
Proof.
  intros Hc. destruct c; unfold run, getKeys, exportKey, importKey;
    try apply symmetric_save; try apply symmetric_load;
    repeat first
      [ apply ArkivFacts.keeps_ret | apply ArkivFacts.keeps_throw
      | apply ArkivFacts.keeps_gets
      | apply symmetric_on_service;
        first [ apply symmetric_generateKeyPair
              | apply symmetric_generateKeyFromPassword
              | apply symmetric_encrypt | apply symmetric_decrypt
              | apply symmetric_createThresholdEncryption
              | apply symmetric_createTimelockEncryption
              | apply symmetric_isTimelockExpired
              | apply symmetric_decryptTimelock; exact Hc
              | apply symmetric_removeKey
              | apply symmetric_insert; apply Hc; assumption ]
      | match goal with
        | |- keeps _ (match ?x with _ => _ end) => destruct x eqn:?
        end
      | apply ArkivFacts.keeps_bind; [|intros ?; cbv beta] ].
Qed.

Lemma symmetric_session (b b' : Browser) :
  session trusted b b' -> all_symmetric b -> all_symmetric b'.
Proof.
  induction 1 as [b | b b1 b2 c r Hc Hrun _ IH]; intros Hb; [exact Hb|].
  exact (IH (symmetric_run c Hc b r b1 Hb Hrun)).
Qed.

End Session.

(** C10, as amended.  Every key handed out by a key-creating call
    (session key, memory key, key pair, key from password) has its
    private half equal to its public half, in whatever state the call is
    made, and so has every key of the key management cache in every state
    reached from a new service.  In the key table of the encryption
    service, and in the item it saves, the halves of every key agree
    after any session of public calls from a new service, provided the
    keys that come from outside have halves that agree: those of the
    stored item the session starts with, of the backups imported and of
    the time locks opened. *)
Theorem symmetric_material `{Platform} `{CryptoJS}
    `{EncryptionStorage.KeyJson} :
  (forall c w k w',
     KeyManagementSession.run c w = (Ok (Some k), w') ->
     privateKey k = Some (publicKey k)) /\
  (forall w id k,
     KeyManagementSession.reachable w ->
     KeyManagement.sessionKeys (KeyManagement.kms w) !! id = Some k ->
     privateKey k = Some (publicKey k)) /\
  (forall id w k w',
     Encryption.generateKeyPair id w = (Ok k, w') ->
     privateKey k = Some (publicKey k)) /\
  (forall password salt0 w k w',
     Encryption.generateKeyFromPassword password salt0 w = (Ok k, w') ->
     privateKey k = Some (publicKey k)) /\
  (forall c t win it b,
     EncryptionSession.stored_symmetric it ->
     EncryptionSession.session EncryptionSession.trusted
       (EncryptionStorage.new_service c t win it) b ->
     (forall id k,
        Encryption.keys (Encryption.enc (EncryptionStorage.service b)) !! id
          = Some k ->
        privateKey k = Some (publicKey k)) /\
     EncryptionSession.stored_symmetric (EncryptionStorage.item b)).
Proof.
  split; [|split; [|split; [|split]]].
  - intros c w k w' Hrun.
    exact (proj1 (kms_call_symmetric c w w' _ Hrun) k eq_refl).
  - intros w id k Hreach Hlook.
    exact (kms_reachable_symmetric w Hreach id k Hlook).
  - intros id w k w' Hrun.
    destruct (EncryptionFacts.generateKeyPair_returns id w)
      as (k0 & w0 & E & _ & Hsym & _).
    rewrite E in Hrun. injection Hrun as <- _. exact Hsym.
  - intros password salt0 w k w' Hrun.
    destruct (EncryptionFacts.generateKeyFromPassword_returns password salt0 w)
      as (k0 & w0 & E & Hsym & _).
    rewrite E in Hrun. injection Hrun as <- _. exact Hsym.
  - intros c t win it b Hit Hs.
    destruct (symmetric_session _ b Hs) as [Ht Hi].
    + split; [apply map_Forall_empty | exact Hit].
    + split; [|exact Hi]. intros id k Hk. exact (Ht id k Hk).
Qed.

Lemma symmetric_material_witness :
  (exists w k,
     KeyManagementSession.reachable (H := Demo.counting_platform) w /\
     KeyManagement.sessionKeys (KeyManagement.kms w) !! "memory_m1" = Some k /\
     privateKey k = Some (publicKey k)) /\
  (exists b k,
     EncryptionSession.session (H := Demo.counting_platform)
       (H0 := Demo.tagging_cipher) (H1 := DemoStorage.material_json)
       (EncryptionSession.trusted (H := DemoStorage.material_json))
       (EncryptionStorage.new_service Encryption.no_config 0 true
          EncryptionStorage.NoItem) b /\
     Encryption.keys (Encryption.enc (EncryptionStorage.service b))
       !! "backup" = Some k /\
     privateKey k = Some (publicKey k)).
Proof.
  split.
  - assert (exists w,
      KeyManagementSession.reachable (H := Demo.counting_platform) w /\
      exists k, KeyManagement.sessionKeys (KeyManagement.kms w) !! "memory_m1"
                = Some k) as (w & Hreach & k & Hk).
    { eexists. split.
      - eapply KeyManagementSession.reachable_call
          with (c := KeyManagementSession.GenerateMemoryKey "m1" (Some "ab")).
        + eapply KeyManagementSession.reachable_call
            with (c := KeyManagementSession.InitializeWithPassword "pw").
          * apply (KeyManagementSession.reachable_new 0).
          * vm_compute. reflexivity.
        + vm_compute. reflexivity.
      - eexists. vm_compute. reflexivity. }
    exists w, k. split; [exact Hreach|]. split; [exact Hk|].
    exact (proj1 (proj2 (symmetric_material (H := Demo.counting_platform)
                           (H0 := Demo.tagging_cipher)
                           (H1 := DemoStorage.material_json)))
             w _ k Hreach Hk).
  - assert (exists b,
      EncryptionSession.session (H := Demo.counting_platform)
        (H0 := Demo.tagging_cipher) (H1 := DemoStorage.material_json)
        (EncryptionSession.trusted (H := DemoStorage.material_json))
        (EncryptionStorage.new_service Encryption.no_config 0 true
           EncryptionStorage.NoItem) b /\
      exists k, Encryption.keys (Encryption.enc (EncryptionStorage.service b))
                  !! "backup" = Some k) as (b & Hs & k & Hk).
    { eexists. split.
      - eapply EncryptionSession.session_call
          with (c := EncryptionSession.ImportKey "backup");
          [intros key [= <-]; reflexivity | vm_compute; reflexivity |].
        eapply EncryptionSession.session_call
          with (c := EncryptionSession.SaveKeysToStorage);
          [exact I | vm_compute; reflexivity |].
        eapply EncryptionSession.session_call
          with (c := EncryptionSession.RemoveKey "backup");
          [exact I | vm_compute; reflexivity |].
        eapply EncryptionSession.session_call
          with (c := EncryptionSession.LoadKeysFromStorage);
          [exact I | vm_compute; reflexivity |].
        apply EncryptionSession.session_here.
      - eexists. vm_compute. reflexivity. }
    exists b, k. split; [exact Hs|]. split; [exact Hk|].
    exact (proj1 (proj2 (proj2 (proj2 (proj2
             (symmetric_material (H := Demo.counting_platform)
                (H0 := Demo.tagging_cipher)
                (H1 := DemoStorage.material_json)))))
             Encryption.no_config 0 true EncryptionStorage.NoItem b I Hs)
             "backup" k Hk).
Defined.

(** C10, as stated, fails for the key table of the encryption service.
    [decryptTimelock] stores the key it is handed as it is: one call on
    a new service, with a time lock whose public key is 'PUB' and whose
    key is 'PRIV', decrypts and leaves that key in the table.  So does
    [loadKeysFromStorage], which [getEncryptionService] runs on the
    service it makes, with a stored key whose halves differ. *)
Lemma asymmetric_key_enters_the_table :
  (exists res b k,
     EncryptionVault.decryptTimelock (H := Demo.counting_platform)
       (H0 := Demo.tagging_cipher) DemoStorage.lopsided_lock
       (Encryption.envelope (H := Demo.counting_platform)
          (H0 := Demo.tagging_cipher)
          (Encryption.config (Encryption.constructor Encryption.no_config))
          0 "PRIV" "secret")
       {| Encryption.enc := Encryption.constructor Encryption.no_config;
          Encryption.tick := 0 |} = (Ok res, b) /\
     Encryption.content res = "secret" /\
     Encryption.keys (Encryption.enc b) !! "key_1_2" = Some k /\
     publicKey k = "PUB" /\ privateKey k = Some "PRIV" /\
     privateKey k <> Some (publicKey k)) /\
  (exists b k,
     EncryptionSession.session (H := Demo.counting_platform)
       (H0 := Demo.tagging_cipher) (H1 := DemoStorage.material_json)
       (fun _ => True)
       (EncryptionStorage.new_service Encryption.no_config 0 true
          EncryptionStorage.NoItem) b /\
     Encryption.keys (Encryption.enc (EncryptionStorage.service b))
       !! "key_1_2" = Some k /\
     privateKey k <> Some (publicKey k)) /\
  (let b := EncryptionStorage.getEncryptionService Encryption.no_config 0 true
              (EncryptionStorage.Keys [Some DemoStorage.lopsided]) in
   Encryption.keys (Encryption.enc (EncryptionStorage.service b)) !! "old"
     = Some DemoStorage.lopsided /\
   privateKey DemoStorage.lopsided <> Some (publicKey DemoStorage.lopsided)).
Proof.
  split; [|split].
  - eexists _, _, _. split; [vm_compute; reflexivity|].
    split; [reflexivity|]. split; [vm_compute; reflexivity|].
    repeat split. discriminate.
  - eexists _, _. split; [|split].
    + eapply EncryptionSession.session_call
        with (c := EncryptionSession.DecryptTimelock DemoStorage.lopsided_lock
                     (Encryption.envelope (H := Demo.counting_platform)
                        (H0 := Demo.tagging_cipher)
                        (Encryption.config
                           (Encryption.constructor Encryption.no_config))
                        0 "PRIV" "secret"));
        [exact I | vm_compute; reflexivity |].
      apply EncryptionSession.session_here.
    + vm_compute. reflexivity.
    + discriminate.
  - cbv zeta. split; [vm_compute; reflexivity | discriminate].
Qed.

End SymmetricFacts.

(** * Further properties *)

(** ** Strings and hexadecimal text *)

Lemma string_app_assoc (a b c : string) : (a ++ b) ++ c = a ++ (b ++ c).
Proof.
  induction a as [|x a IH]; [reflexivity|].
  change ((String x a ++ b) ++ c) with (String x ((a ++ b) ++ c)).
  change (String x a ++ (b ++ c)) with (String x (a ++ (b ++ c))).
  now rewrite IH.
Qed.

Lemma string_length_app (a b : string) :
  String.length (a ++ b) = String.length a + String.length b.
Proof.
  induction a as [|x a IH]; [reflexivity|].
  change (String x a ++ b) with (String x (a ++ b)). simpl. now rewrite IH.
Qed.

Lemma length_bytes_to_hex (bs : list byte) :
  String.length (bytes_to_hex bs) = 2 * List.length bs.
Proof.
  induction bs as [|b bs IH]; [reflexivity|].
  unfold bytes_to_hex in *. simpl map. simpl concat_strings.
  rewrite string_length_app, IH. simpl. lia.
Qed.

Lemma length_tape_bytes `{Platform} (from n : nat) :
  List.length (tape_bytes from n) = n.
Proof. unfold tape_bytes. now rewrite length_map, length_seq. Qed.

Lemma parse_hex_byte (b : byte) (rest : string) :
  EncryptionVault.parse_hex (byte_to_hex b ++ rest)
  = b :: EncryptionVault.parse_hex rest.
Proof. destruct b; reflexivity. Qed.

Lemma parse_hex_printed (bs : list byte) :
  EncryptionVault.parse_hex (bytes_to_hex bs) = bs.
Proof.
  induction bs as [|b bs IH]; [reflexivity|].
  unfold bytes_to_hex in *. simpl map. simpl concat_strings.
  now rewrite parse_hex_byte, IH.
Qed.

(** X1.  Reading back the hexadecimal text of a byte array, as the key
    and salt generators print it, gives the bytes again; the text has two
    characters a byte. *)
Theorem hex_text_round_trip (bs : list byte) :
  EncryptionVault.parse_hex (bytes_to_hex bs) = bs /\
  String.length (bytes_to_hex bs) = 2 * List.length bs.
Proof. split; [apply parse_hex_printed|apply length_bytes_to_hex]. Qed.

(** ** More on key management *)

Module KeyManagementMore.
Import KeyManagement.

Ltac run_kms :=
  unfold generateMemoryKey, generateSessionKey, generateKeyId,
    generateRandomKey, generateRandomSalt, draw_bytes, Date_now,
    Math_random36, store, clearSession, initializeWithPassword, set_kms,
    or_else, bind, ret, gets, modify, throw; simpl.

(** X2.  [clearSession] brings the service back to the state of a new
    one: not initialized, no key under any id, and derivation failing
    with the not-initialized error until a password is set again. *)
Theorem clearSession_forgets_everything `{Platform} (w : World) :
  exists w',
    clearSession w = (Ok tt, w') /\
    kms w' = constructor /\
    isInitialized (kms w') = false /\
    (forall id, getKey (kms w') id = None) /\
    (forall memoryId salt0,
       generateMemoryKey memoryId salt0 w'
       = (Throw "Master key not initialized. Call initializeWithPassword() first.",
          w')).
Proof.
  run_kms. eexists. split; [reflexivity|]. simpl.
  split; [reflexivity|]. split; [reflexivity|]. split.
  - intros id. unfold getKey. simpl. apply lookup_empty.
  - intros memoryId salt0. reflexivity.
Qed.

(** What [generateMemoryKey] returns on an initialized service, the salt
    given or drawn. *)
Lemma generateMemoryKey_returns `{Platform} (w : World) (m R : string)
    (salt0 : option string) :
  masterKey (kms w) = Some m -> m <> "" ->
  exists k w',
    generateMemoryKey R salt0 w = (Ok k, w') /\
    keyId k = "memory_" ++ R /\
    sessionKeys (kms w') = <["memory_" ++ R := k]> (sessionKeys (kms w)) /\
    masterKey (kms w') = Some m /\
    (forall S, salt0 = Some S -> S <> "" ->
       salt k = Some S /\ publicKey k = m ++ "_" ++ R ++ "_" ++ S).
Proof.
  intros Hm Hne. destruct w as [[cache mk] t]. simpl in *. subst mk.
  destruct m as [|c r]; [congruence|].
  destruct salt0 as [[|c' r']|]; run_kms; eexists _, _;
    (split; [reflexivity|]); simpl; repeat split;
    try (intros S [= <-] HS); try congruence; try discriminate; reflexivity.
Qed.

(** X3.  A derived key is cached under ["memory_" ++ recordId]: after the
    call [getKey] finds exactly the key that was returned, the keys of
    other ids are untouched, and a key derived earlier for the same
    record is replaced. *)
Theorem generateMemoryKey_caches_one_key_per_record `{Platform}
    (w : World) (m R : string) (salt0 : option string) :
  masterKey (kms w) = Some m -> m <> "" ->
  exists k w',
    generateMemoryKey R salt0 w = (Ok k, w') /\
    getKey (kms w') ("memory_" ++ R) = Some k /\
    (forall id, id <> "memory_" ++ R ->
       getKey (kms w') id = getKey (kms w) id) /\
    isInitialized (kms w') = true.
Proof.
  intros Hm Hne.
  destruct (generateMemoryKey_returns w m R salt0 Hm Hne)
    as (k & w' & E & Hid & Hkeys & Hm' & _).
  exists k, w'. split; [exact E|]. unfold getKey. rewrite Hkeys.
  split; [apply lookup_insert_eq|]. split.
  - intros id Hne'. now apply lookup_insert_ne.
  - unfold isInitialized. rewrite Hm'. now apply truthy_Some.
Qed.

Lemma generateMemoryKey_caches_one_key_per_record_witness :
  exists k w',
    generateMemoryKey (H := Demo.counting_platform) "m1" None
      {| kms := {| sessionKeys := ∅; masterKey := Some "pw" |}; tick := 0 |}
      = (Ok k, w') /\
    getKey (kms w') ("memory_" ++ "m1") = Some k /\
    (forall id, id <> "memory_" ++ "m1" ->
       getKey (kms w') id
       = getKey {| sessionKeys := ∅; masterKey := Some "pw" |} id) /\
    isInitialized (kms w') = true.
Proof.
  apply (generateMemoryKey_caches_one_key_per_record
           (H := Demo.counting_platform)
           {| kms := {| sessionKeys := ∅; masterKey := Some "pw" |}; tick := 0 |}
           "pw" "m1" None); [reflexivity | discriminate].
Defined.

(** X4.  The key material is the plain concatenation of secret, record
    id and salt with ["_"] between them, so an underscore can move
    between record id and salt: the record [a_b] with salt [c] and the
    record [a] with salt [b_c] get the same key material. *)
Theorem key_material_collides_across_records (P1 P2 : Platform)
    (w1 w2 : World) (m a b c : string) :
  masterKey (kms w1) = Some m -> masterKey (kms w2) = Some m ->
  m <> "" -> c <> "" ->
  exists k1 k2 w1' w2',
    generateMemoryKey (H := P1) (a ++ "_" ++ b) (Some c) w1 = (Ok k1, w1') /\
    generateMemoryKey (H := P2) a (Some (b ++ "_" ++ c)) w2 = (Ok k2, w2') /\
    publicKey k1 = publicKey k2 /\ privateKey k1 = privateKey k2 /\
    (b <> "" -> keyId k1 <> keyId k2).
Proof.
  intros H1 H2 Hm Hc.
  assert (b ++ "_" ++ c <> "") as Hbc by (destruct b; discriminate).
  pose proof (KeyManagementFacts.generateMemoryKey_salted (H := P1)
                w1 m (a ++ "_" ++ b) c H1 Hm Hc) as E1.
  pose proof (KeyManagementFacts.generateMemoryKey_salted (H := P2)
                w2 m a (b ++ "_" ++ c) H2 Hm Hbc) as E2.
  cbv zeta in E1, E2.
  eexists _, _, _, _. split; [exact E1|]. split; [exact E2|]. simpl.
  assert (m ++ "_" ++ (a ++ "_" ++ b) ++ "_" ++ c
          = m ++ "_" ++ a ++ "_" ++ b ++ "_" ++ c) as Heq.
  { now rewrite !string_app_assoc. }
  split; [exact Heq|]. split; [now rewrite Heq|].
  intros Hb Hid. apply (inj (String.app "memory_")) in Hid.
  assert (String.length (a ++ "_" ++ b) = String.length a) as Hlen
    by now rewrite Hid.
  rewrite !string_length_app in Hlen. simpl in Hlen. lia.
Qed.

Lemma key_material_collides_across_records_witness :
  exists k1 k2 w1' w2',
    generateMemoryKey (H := Demo.counting_platform) ("a" ++ "_" ++ "b") (Some "c")
      {| kms := {| sessionKeys := ∅; masterKey := Some "pw" |}; tick := 0 |}
      = (Ok k1, w1') /\
    generateMemoryKey (H := Demo.counting_platform) "a" (Some ("b" ++ "_" ++ "c"))
      {| kms := {| sessionKeys := ∅; masterKey := Some "pw" |}; tick := 0 |}
      = (Ok k2, w2') /\
    publicKey k1 = publicKey k2 /\ privateKey k1 = privateKey k2 /\
    ("b" <> "" -> keyId k1 <> keyId k2).
Proof.
  apply (key_material_collides_across_records Demo.counting_platform
           Demo.counting_platform _ _ "pw" "a" "b" "c");
    (reflexivity || discriminate).
Defined.

(** X5.  A session key needs no master secret: [generateSessionKey]
    returns on any service, with 32 bytes of the random tape as 64
    hexadecimal characters in both halves of the key, cached under the
    id given (or a generated one), and leaves the master secret and the
    keys of other ids as they are. *)
Theorem generateSessionKey_always_available `{Platform}
    (w : World) (id : option string) :
  exists k w',
    generateSessionKey id w = (Ok k, w') /\
    String.length (publicKey k) = 64 /\
    privateKey k = Some (publicKey k) /\
    EncryptionVault.parse_hex (publicKey k)
      = tape_bytes (tick w + (if truthy id then 0 else 2)) 32 /\
    (forall s, id = Some s -> s <> "" -> keyId k = s) /\
    getKey (kms w') (keyId k) = Some k /\
    (forall id', id' <> keyId k -> getKey (kms w') id' = getKey (kms w) id') /\
    masterKey (kms w') = masterKey (kms w).
Proof.
  destruct w as [[cache mk] t].
  destruct id as [[|c r]|]; run_kms; eexists _, _; (split; [reflexivity|]);
    cbn [publicKey privateKey keyId kms tick sessionKeys masterKey truthy];
    rewrite length_bytes_to_hex, length_tape_bytes,
      (proj1 (hex_text_round_trip _));
    (split; [reflexivity|]); (split; [reflexivity|]);
    (split; [f_equal; lia|]);
    (split; [intros s [= <-] Hs; congruence || reflexivity|]);
    unfold getKey; cbn [sessionKeys];
    (split; [apply lookup_insert_eq|]);
    (split; [intros id' Hne; now apply lookup_insert_ne | reflexivity]).
Qed.

End KeyManagementMore.

(** ** More on envelope encryption *)

Module EncryptionMore.
Import Encryption.

Ltac run_enc :=
  unfold generateKeyPair, generateKeyFromPassword, generateKeyId, encrypt,
    decrypt, removeKey, password_of, set_keys, WordArray_random, Date_now,
    Math_random36, or_else, bind, ret, gets, modify, throw; simpl.

Section WithPlatform.
Context `{Platform} `{CryptoJS}.

Lemma decrypt_unknown (data : EncryptedData) (id : string)
    (kms : option KeyManagement.KeyManagementService) (w : World) :
  unknown_to id kms w ->
  decrypt data id kms w = (Throw "Decryption key not found", w).
Proof.
  intros [Hk Hl]. destruct w as [[cfg ks] t]. simpl in Hl.
  unfold decrypt. destruct kms as [s|]; [rewrite Hk|]; run_enc;
    now rewrite Hl.
Qed.

(** [encrypt] with a key that only the service's own table knows. *)
Lemma encrypt_with_local_key (text id : string)
    (kms : option KeyManagement.KeyManagementService) (k : EncryptionKey)
    (pw : string) (w : World) :
  id <> "" ->
  match kms with
  | Some s => KeyManagement.getKey s id = None
  | None => True
  end ->
  keys (enc w) !! id = Some k -> privateKey k = Some pw ->
  encrypt text (Some id) kms w =
    (Ok (envelope (config (enc w)) (tick w) pw text),
     {| enc := enc w;
        tick := tick w + saltLength (config (enc w)) + ivLength (config (enc w)) |}).
Proof.
  intros Hid Hk Hl Hpw. destruct w as [[cfg ks] t]. simpl in Hl.
  destruct id as [|c r]; [congruence|].
  unfold encrypt. destruct kms as [s|]; [rewrite Hk|];
    run_enc; rewrite Hl; simpl; rewrite Hpw; reflexivity.
Qed.

Lemma decrypt_with_local_key (data : EncryptedData) (id : string)
    (kms : option KeyManagement.KeyManagementService) (k : EncryptionKey)
    (pw : string) (w : World) :
  match kms with
  | Some s => KeyManagement.getKey s id = None
  | None => True
  end ->
  keys (enc w) !! id = Some k -> privateKey k = Some pw ->
  decrypt data id kms w =
    match AES_decrypt_utf8 (encryptedContent data)
            (PBKDF2 pw (Hex_parse (e_salt data)) (e_iterations data))
            (Hex_parse (iv data)) with
    | None => (Throw "Malformed UTF-8 data", w)
    | Some "" =>
        (Throw "Decryption failed - invalid key or corrupted data", w)
    | Some text =>
        (Ok {| content := text; decryptedAt := date_now (tick w);
               keyUsed := id; d_algorithm := e_algorithm data |},
         {| enc := enc w; tick := S (tick w) |})
    end.
Proof.
  intros Hk Hl Hpw. destruct w as [[cfg ks] t]. simpl in Hl.
  unfold decrypt. destruct kms as [s|]; [rewrite Hk|];
    run_enc; rewrite Hl; simpl; rewrite Hpw;
    destruct (AES_decrypt_utf8 _ _ _) as [[|c r]|]; reflexivity.
Qed.

End WithPlatform.

(** X6.  [decrypt] with a key id that neither the key management service
    nor the service's own table knows raises 'Decryption key not found'
    and changes nothing; this is the case for any id right after
    [removeKey] when no key management service is passed. *)
Theorem decrypt_without_key_fails `{Platform} `{CryptoJS}
    (data : EncryptedData) (id : string)
    (kms : option KeyManagement.KeyManagementService) (w : World) :
  (unknown_to id kms w ->
   decrypt data id kms w = (Throw "Decryption key not found", w)) /\
  (exists present w',
     removeKey id w = (Ok present, w') /\
     present = bool_decide (is_Some (keys (enc w) !! id)) /\
     decrypt data id None w' = (Throw "Decryption key not found", w')).
Proof.
  split; [apply decrypt_unknown|].
  destruct w as [[cfg ks] t].
  unfold removeKey, set_keys, bind, ret, gets, modify. simpl. eexists _, _.
  split; [reflexivity|]. split; [reflexivity|].
  apply decrypt_unknown. split; [exact I|]. simpl. apply lookup_delete_eq.
Qed.

Lemma decrypt_without_key_fails_witness :
  decrypt (H := Demo.counting_platform) (H0 := Demo.tagging_cipher)
    (envelope (H := Demo.counting_platform) (H0 := Demo.tagging_cipher)
       (config (constructor no_config)) 0 "pw" "secret")
    "memory_m1" (Some KeyManagement.constructor)
    {| enc := constructor no_config; tick := 0 |}
  = (Throw "Decryption key not found",
     {| enc := constructor no_config; tick := 0 |}).
Proof.
  apply (proj1 (decrypt_without_key_fails (H := Demo.counting_platform)
                  (H0 := Demo.tagging_cipher) _ "memory_m1"
                  (Some KeyManagement.constructor)
                  {| enc := constructor no_config; tick := 0 |})).
  split; reflexivity.
Defined.

(** X7.  The fallback key of [encrypt] is stored under an id of its own,
    not under the id the caller asked for: after [encrypt] succeeded with
    an unknown [id], [decrypt] of the envelope under the same [id] still
    raises 'Decryption key not found' (unless [id] happens to be the
    generated id). *)
Theorem fallback_key_is_not_found_again `{Platform} `{CryptoJS}
    (text id : string) (kms : option KeyManagement.KeyManagementService)
    (w : World) :
  id <> "" -> unknown_to id kms w ->
  id <> "key_" ++ pretty (date_now (tick w + 32)) ++ "_"
        ++ math_random36 (S (tick w + 32)) ->
  exists data w',
    encrypt text (Some id) kms w = (Ok data, w') /\
    decrypt data id kms w' = (Throw "Decryption key not found", w').
Proof.
  intros Hid [Hk Hl] Hfresh. destruct w as [[cfg ks] t]. simpl in *.
  destruct id as [|c r]; [congruence|].
  eexists _, _. split.
  - unfold encrypt. destruct kms as [s|]; [rewrite Hk|];
      run_enc; rewrite Hl; reflexivity.
  - apply decrypt_unknown. split; [exact Hk|]. simpl.
    rewrite lookup_insert_ne; [exact Hl|]. congruence.
Qed.

Lemma fallback_key_is_not_found_again_witness :
  exists data w',
    encrypt (H := Demo.counting_platform) (H0 := Demo.tagging_cipher)
      "secret" (Some "memory_m1") (Some KeyManagement.constructor)
      {| enc := constructor no_config; tick := 0 |} = (Ok data, w') /\
    decrypt (H := Demo.counting_platform) (H0 := Demo.tagging_cipher)
      data "memory_m1" (Some KeyManagement.constructor) w'
    = (Throw "Decryption key not found", w').
Proof.
  apply (fallback_key_is_not_found_again (H := Demo.counting_platform)
           (H0 := Demo.tagging_cipher) "secret" "memory_m1"
           (Some KeyManagement.constructor)
           {| enc := constructor no_config; tick := 0 |}).
  - discriminate.
  - split; reflexivity.
  - vm_compute. discriminate.
Defined.

(** X8.  Round trip through the service's own key table: a key made
    by [generateKeyPair], then [encrypt] and [decrypt] under its id with
    no key management service, gives a non-empty text back, and neither
    call changes the key table. *)
Theorem local_key_round_trip `{Platform} {C : CryptoJS} {L : @CryptoJSLaws C}
    (w : World) (id : option string) (text : string) :
  text <> "" ->
  exists k w1 data w2 res w3,
    generateKeyPair id w = (Ok k, w1) /\
    encrypt text (Some (keyId k)) None w1 = (Ok data, w2) /\
    decrypt data (keyId k) None w2 = (Ok res, w3) /\
    content res = text /\ keyUsed res = keyId k /\
    keys (enc w3) = keys (enc w1).
Proof.
  intros Htext.
  destruct (EncryptionFacts.generateKeyPair_returns id w)
    as (k & w1 & Egen & _ & Hsym & Hkeys & _).
  assert (keyId k <> "") as Hid.
  { revert Egen. destruct w as [[cfg ks] t].
    destruct id as [[|c r]|]; run_enc; intros [= <- _]; discriminate. }
  assert (keys (enc w1) !! keyId k = Some k) as Hl
    by (rewrite Hkeys; apply lookup_insert_eq).
  exists k, w1. eexists _, _, _, _. split; [exact Egen|]. split.
  { exact (encrypt_with_local_key text (keyId k) None k (publicKey k) w1
             Hid I Hl Hsym). }
  rewrite (decrypt_with_local_key _ (keyId k) None k (publicKey k)
             {| enc := enc w1; tick := _ |} I Hl Hsym).
  rewrite (EncryptionFacts.decrypt_envelope (H := H)).
  destruct text as [|c r]; [congruence|]. repeat split.
Qed.

Lemma local_key_round_trip_witness :
  exists k w1 data w2 res w3,
    generateKeyPair (H := Demo.counting_platform)
      (Some "mine") {| enc := constructor no_config; tick := 0 |} = (Ok k, w1) /\
    encrypt (H := Demo.counting_platform) (H0 := Demo.tagging_cipher)
      "secret" (Some (keyId k)) None w1 = (Ok data, w2) /\
    decrypt (H := Demo.counting_platform) (H0 := Demo.tagging_cipher)
      data (keyId k) None w2 = (Ok res, w3) /\
    content res = "secret" /\ keyUsed res = keyId k /\
    keys (enc w3) = keys (enc w1).
Proof.
  apply (local_key_round_trip (H := Demo.counting_platform)
           (C := Demo.tagging_cipher) (L := tagging_cipher_laws)
           {| enc := constructor no_config; tick := 0 |} (Some "mine") "secret").
  discriminate.
Defined.

(** X9.  A key that the key management service knows takes precedence
    over a key of the same id in the service's own table: [encrypt] and
    [decrypt] work with the managed key, and leave the table alone. *)
Theorem managed_key_takes_precedence `{Platform} `{CryptoJS}
    (text id : string) (kms : KeyManagement.KeyManagementService)
    (k : EncryptionKey) (pw : string) (data : EncryptedData) (w : World) :
  id <> "" -> KeyManagement.getKey kms id = Some k -> privateKey k = Some pw ->
  (exists w',
     encrypt text (Some id) (Some kms) w
       = (Ok (envelope (config (enc w)) (tick w) pw text), w') /\
     enc w' = enc w) /\
  decrypt data id (Some kms) w =
    match AES_decrypt_utf8 (encryptedContent data)
            (PBKDF2 pw (Hex_parse (e_salt data)) (e_iterations data))
            (Hex_parse (iv data)) with
    | None => (Throw "Malformed UTF-8 data", w)
    | Some "" =>
        (Throw "Decryption failed - invalid key or corrupted data", w)
    | Some text' =>
        (Ok {| content := text'; decryptedAt := date_now (tick w);
               keyUsed := id; d_algorithm := e_algorithm data |},
         {| enc := enc w; tick := S (tick w) |})
    end.
Proof.
  intros Hid Hk Hpw. split.
  - eexists. split.
    + exact (EncryptionFacts.encrypt_with_managed_key text id kms k pw w
               Hid Hk Hpw).
    + reflexivity.
  - exact (EncryptionFacts.decrypt_with_managed_key data id kms k pw w Hk Hpw).
Qed.

Lemma managed_key_takes_precedence_witness :
  let managed := {| publicKey := "A"; privateKey := Some "A"; keyId := "k";
                    algorithm := "AES-256-GCM"; createdAt := 0; salt := None |} in
  let own := {| publicKey := "B"; privateKey := Some "B"; keyId := "k";
                algorithm := "AES-256-GCM"; createdAt := 0; salt := None |} in
  let kms := {| KeyManagement.sessionKeys := {["k" := managed]};
                KeyManagement.masterKey := None |} in
  let w := {| enc := {| config := config (constructor no_config);
                        keys := {["k" := own]} |}; tick := 0 |} in
  exists w',
    encrypt (H := Demo.counting_platform) (H0 := Demo.tagging_cipher)
      "secret" (Some "k") (Some kms) w
    = (Ok (envelope (H := Demo.counting_platform) (H0 := Demo.tagging_cipher)
             (config (enc w)) 0 "A" "secret"), w') /\
    enc w' = enc w.
Proof.
  cbv zeta.
  refine (proj1 (managed_key_takes_precedence (H := Demo.counting_platform)
                   (H0 := Demo.tagging_cipher) "secret" "k" _ _ "A"
                   (envelope (H := Demo.counting_platform)
                      (H0 := Demo.tagging_cipher)
                      (config (constructor no_config)) 0 "A" "secret")
                   _ _ _ _)).
  - discriminate.
  - vm_compute. reflexivity.
  - reflexivity.
Defined.

(** X10.  A key made from a password without a salt records the salt it
    drew; deriving again from the same password and that recorded salt,
    on any service with the same iteration count, gives the same key
    material, and reads no random bytes. *)
Theorem password_key_rederivable `{Platform} {C : CryptoJS}
    {L : @CryptoJSLaws C} (w w' : World) (password : string) :
  iterations (config (enc w')) = iterations (config (enc w)) ->
  exists k w1 k' w1',
    generateKeyFromPassword password None w = (Ok k, w1) /\
    salt k = Some (bytes_to_hex (tape_bytes (S (S (tick w))) 32)) /\
    generateKeyFromPassword password (salt k) w' = (Ok k', w1') /\
    publicKey k' = publicKey k /\ privateKey k' = privateKey k /\
    salt k' = salt k /\
    tick w1' = S (S (S (tick w'))).
Proof.
  intros Hit. destruct w as [[cfg ks] t], w' as [[cfg' ks'] t'].
  simpl in Hit.
  assert (exists c r, bytes_to_hex (tape_bytes (S (S t)) 32) = String c r)
    as (c & r & Hsalt).
  { destruct (bytes_to_hex (tape_bytes (S (S t)) 32)) as [|c r] eqn:E;
      [|eauto].
    pose proof (length_bytes_to_hex (tape_bytes (S (S t)) 32)) as Hlen.
    rewrite E, length_tape_bytes in Hlen. discriminate. }
  eexists _, _, _, _. split; [run_enc; reflexivity|].
  simpl. split; [reflexivity|]. rewrite Hsalt. split; [run_enc; reflexivity|].
  simpl. rewrite <- Hsalt, Hex_parse_printed, Hit. repeat split.
Qed.

Lemma password_key_rederivable_witness :
  exists k w1 k' w1',
    generateKeyFromPassword (H := Demo.counting_platform)
      (H0 := Demo.tagging_cipher) "pw" None
      {| enc := constructor no_config; tick := 0 |} = (Ok k, w1) /\
    salt k = Some (bytes_to_hex (tape_bytes (H := Demo.counting_platform) 2 32)) /\
    generateKeyFromPassword (H := Demo.counting_platform)
      (H0 := Demo.tagging_cipher) "pw" (salt k)
      {| enc := constructor no_config; tick := 90 |} = (Ok k', w1') /\
    publicKey k' = publicKey k /\ privateKey k' = privateKey k /\
    salt k' = salt k /\
    tick w1' = 93.
Proof.
  apply (password_key_rederivable (H := Demo.counting_platform)
           (C := Demo.tagging_cipher) (L := tagging_cipher_laws)
           {| enc := constructor no_config; tick := 0 |}
           {| enc := constructor no_config; tick := 90 |} "pw").
  reflexivity.
Defined.

End EncryptionMore.

(** ** More on secret shares and time locks *)

Module VaultFacts.
Import Encryption EncryptionVault.

Lemma lxor_byte_bound (x y : N) :
  (x <= 255 -> y <= 255 -> N.lxor x y <= 255)%N.
Proof.
  intros Hx Hy. destruct (N.eq_dec (N.lxor x y) 0%N) as [->|Hne]; [lia|].
  assert (N.lxor x y < 2 ^ 8)%N as Hlt; [|simpl in Hlt; lia].
  apply N.log2_lt_pow2; [lia|].
  pose proof (N.log2_lxor x y) as Hl.
  pose proof (N.log2_le_mono x 255 Hx) as H1.
  pose proof (N.log2_le_mono y 255 Hy) as H2.
  change (N.log2 255) with 7%N in *. lia.
Qed.

Lemma to_N_xor_byte (a b : byte) :
  Byte.to_N (xor_byte a b) = N.lxor (Byte.to_N a) (Byte.to_N b).
Proof.
  unfold xor_byte.
  destruct (Byte.of_N (N.lxor _ _)) as [c|] eqn:E.
  - simpl. now apply Byte.to_of_N.
  - apply Byte.of_N_None_iff in E.
    pose proof (lxor_byte_bound _ _ (Byte.to_N_bounded a)
                  (Byte.to_N_bounded b)).
    lia.
Qed.

Lemma byte_to_N_inj (a b : byte) : Byte.to_N a = Byte.to_N b -> a = b.
Proof.
  intros E. pose proof (Byte.of_to_N a) as Ha. rewrite E, Byte.of_to_N in Ha.
  congruence.
Qed.

Lemma xor_byte_comm (a b : byte) : xor_byte a b = xor_byte b a.
Proof. apply byte_to_N_inj. now rewrite !to_N_xor_byte, N.lxor_comm. Qed.

Lemma xor_byte_assoc (a b c : byte) :
  xor_byte (xor_byte a b) c = xor_byte a (xor_byte b c).
Proof. apply byte_to_N_inj. now rewrite !to_N_xor_byte, N.lxor_assoc. Qed.

Lemma xor_byte_nilpotent (a : byte) : xor_byte a a = x00.
Proof. apply byte_to_N_inj. now rewrite to_N_xor_byte, N.lxor_nilpotent. Qed.

Lemma xor_byte_0_l (a : byte) : xor_byte x00 a = a.
Proof. apply byte_to_N_inj. now rewrite to_N_xor_byte. Qed.

Lemma zx_comm (a b : list byte) : zip_with xor_byte a b = zip_with xor_byte b a.
Proof.
  revert b. induction a as [|x a IH]; intros [|y b]; simpl; try reflexivity.
  now rewrite xor_byte_comm, IH.
Qed.

Lemma zx_assoc (a b c : list byte) :
  zip_with xor_byte (zip_with xor_byte a b) c
  = zip_with xor_byte a (zip_with xor_byte b c).
Proof.
  revert b c. induction a as [|x a IH]; intros [|y b] [|z c]; simpl;
    try reflexivity.
  now rewrite xor_byte_assoc, IH.
Qed.

Lemma zx_nilpotent (a : list byte) :
  zip_with xor_byte a a = replicate (List.length a) x00.
Proof.
  induction a as [|x a IH]; simpl; [reflexivity|].
  now rewrite xor_byte_nilpotent, IH.
Qed.

Lemma zx_0_l (a : list byte) :
  zip_with xor_byte (replicate (List.length a) x00) a = a.
Proof.
  induction a as [|x a IH]; simpl; [reflexivity|].
  now rewrite xor_byte_0_l, IH.
Qed.

Lemma length_zx (a b : list byte) :
  List.length a = List.length b ->
  List.length (zip_with xor_byte a b) = List.length a.
Proof. intros E. rewrite length_zip_with. lia. Qed.

Lemma zx_0_block (a : list byte) :
  List.length a = 32 -> zip_with xor_byte (replicate 32 x00) a = a.
Proof. intros E. rewrite <- E. apply zx_0_l. Qed.

Lemma pad_words_block (bs : list byte) :
  List.length bs = 32 -> pad_words bs = bs.
Proof. intros E. unfold pad_words. rewrite E. simpl. apply app_nil_r. Qed.

Lemma xor_words_block (a b : list byte) :
  List.length a = 32 -> List.length b = 32 ->
  xor_words a b = zip_with xor_byte a b /\ List.length (xor_words a b) = 32.
Proof.
  intros Ha Hb. unfold xor_words. rewrite !pad_words_block by assumption.
  split; [reflexivity|]. rewrite length_zx; congruence.
Qed.

Lemma fold_blocks (rs : list (list byte)) (acc : list byte) :
  Forall (fun r => List.length r = 32) rs -> List.length acc = 32 ->
  List.length (fold_left xor_step (map bytes_to_hex rs) acc) = 32 /\
  fold_left xor_step (map bytes_to_hex rs) acc
  = zip_with xor_byte acc
      (fold_left xor_step (map bytes_to_hex rs) (replicate 32 x00)).
Proof.
  intros Hrs. revert acc. induction Hrs as [|r rs Hr Hrs IH]; intros acc Hacc.
  - simpl. split; [assumption|]. rewrite zx_comm. now rewrite zx_0_block.
  - cbn [map fold_left]. unfold xor_step at 2 4 6. rewrite !parse_hex_printed.
    destruct (xor_words_block acc r Hacc Hr) as [E1 B1].
    assert (List.length (replicate 32 x00) = 32) as Hz by reflexivity.
    destruct (xor_words_block (replicate 32 x00) r Hz Hr) as [E2 B2].
    destruct (IH _ B1) as [B3 E3]. destruct (IH _ B2) as [B4 E4].
    split; [assumption|].
    rewrite E3, E4, E1, E2, (zx_0_block r Hr). apply zx_assoc.
Qed.

Lemma set_last_snoc (shares : list string) (x : string) :
  shares <> [] ->
  set_last shares x = (take (List.length shares - 1) shares ++ [x])%list.
Proof.
  destruct shares as [|a l _] using rev_ind; [congruence|]. intros _.
  unfold set_last. destruct (l ++ [a])%list as [|b l'] eqn:E.
  { now destruct l. }
  rewrite <- E, length_app. simpl.
  replace (List.length l + 1 - 1) with (List.length l) by lia.
  rewrite take_app_length, insert_app_r_alt by lia.
  now rewrite Nat.sub_diag.
Qed.

Lemma length_set_last (shares : list string) (x : string) :
  List.length (set_last shares x) = List.length shares.
Proof. destruct shares; [reflexivity|]. apply length_insert. Qed.

Lemma random_blocks_printed `{Platform} (t n : nat) :
  exists rs, random_blocks t n = map bytes_to_hex rs /\
             Forall (fun r => List.length r = 32) rs /\ List.length rs = n.
Proof.
  revert t. induction n as [|n IH]; intros t.
  - exists []. repeat split. constructor.
  - destruct (IH (t + 32)) as (rs & E & F & L).
    exists (tape_bytes t 32 :: rs). simpl. rewrite E, L. repeat split.
    constructor; [apply length_tape_bytes|assumption].
Qed.

Lemma length_random_blocks `{Platform} (t n : nat) :
  List.length (random_blocks t n) = n.
Proof.
  destruct (random_blocks_printed t n) as (rs & -> & _ & <-).
  apply length_map.
Qed.

Lemma mapM_random `{Platform} (xs : list nat) (w : World) :
  mapM (fun _ : nat => WordArray_random 32) xs w
  = (Ok (random_blocks (tick w) (List.length xs)),
     {| enc := enc w; tick := tick w + List.length xs * 32 |}).
Proof.
  revert w. induction xs as [|x xs IH]; intros [e t].
  - cbn. unfold ret. now rewrite Nat.add_0_r.
  - cbn [mapM List.length random_blocks]. unfold bind at 1.
    unfold WordArray_random at 1. cbn [tick enc]. unfold bind at 1.
    rewrite IH. cbn [tick enc]. unfold ret. do 2 f_equal. lia.
Qed.

Lemma createSecretShares_returns `{Platform} (secret : string)
    (cfg : ThresholdEncryptionConfig) (w : World) :
  createSecretShares secret cfg w
  = (Ok (shares_of secret (totalShares cfg) (tick w)),
     {| enc := enc w; tick := tick w + totalShares cfg * 32 |}).
Proof.
  unfold createSecretShares, shares_of, bind at 1.
  rewrite mapM_random, length_seq. unfold ret.
  now rewrite (length_random_blocks (tick w)).
Qed.

Lemma shares_of_xor `{Platform} (bs : list byte) (n t : nat) :
  List.length bs = 32 -> 1 <= n ->
  List.length (shares_of (bytes_to_hex bs) n t) = n /\
  xor_all (shares_of (bytes_to_hex bs) n t) = bs.
Proof.
  intros Hbs Hn. unfold shares_of. cbv zeta.
  rewrite length_set_last, length_random_blocks. split; [reflexivity|].
  destruct (random_blocks_printed t n) as (rs & E & F & L).
  rewrite E, parse_hex_printed.
  rewrite set_last_snoc by (destruct rs; simpl in *; [lia|discriminate]).
  rewrite length_map, L, firstn_map.
  pose proof (Forall_take _ (n - 1) _ F) as F'.
  destruct (fold_blocks _ bs F' Hbs) as [B1 E1].
  assert (List.length (replicate 32 x00) = 32) as Hz by reflexivity.
  destruct (fold_blocks _ _ F' Hz) as [B2 _].
  unfold xor_all. rewrite fold_left_app. cbn [fold_left].
  unfold xor_step at 1. rewrite parse_hex_printed.
  destruct (xor_words_block _ _ B2 B1) as [-> _].
  rewrite E1, (zx_comm bs), <- zx_assoc, zx_nilpotent, B2.
  now apply zx_0_block.
Qed.

(** X11.  The shares of a 32-byte secret are an all-or-nothing
    exclusive-or sharing: there are [totalShares] of them, and the
    exclusive or of all of them is the secret. *)
Theorem shares_combine_to_the_secret `{Platform} (bs : list byte)
    (cfg : ThresholdEncryptionConfig) (w : World) :
  List.length bs = 32 -> 1 <= totalShares cfg ->
  exists shares w',
    createSecretShares (bytes_to_hex bs) cfg w = (Ok shares, w') /\
    List.length shares = totalShares cfg /\
    xor_all shares = bs.
Proof.
  intros Hbs Hn. rewrite createSecretShares_returns.
  destruct (shares_of_xor bs (totalShares cfg) (tick w) Hbs Hn) as [E1 E2].
  eexists _, _. split; [reflexivity|]. split; assumption.
Qed.

Lemma shares_combine_to_the_secret_witness :
  exists shares w',
    createSecretShares (H := Demo.counting_platform)
      (bytes_to_hex (replicate 32 x2a)) {| totalShares := 3 |}
      {| enc := constructor no_config; tick := 7 |} = (Ok shares, w') /\
    List.length shares = 3 /\
    xor_all shares = replicate 32 x2a.
Proof.
  apply (shares_combine_to_the_secret (H := Demo.counting_platform)
           (replicate 32 x2a) {| totalShares := 3 |}
           {| enc := constructor no_config; tick := 7 |}).
  - reflexivity.
  - simpl. lia.
Defined.

Lemma reconstruct_insert (a x : string) (l : list string) (i : nat) :
  l <> [] -> reconstructFromShares (<[S i := x]> (a :: l)) = Ok a.
Proof.
  intros Hl. simpl. destruct (<[i:=x]> l) as [|b l'] eqn:E; [|reflexivity].
  apply (f_equal List.length) in E. rewrite length_insert in E.
  destruct l; simpl in *; congruence.
Qed.

(** X12.  [reconstructFromShares] on the shares [createSecretShares]
    made never depends on the secret: with two shares or more it returns
    the first random block, whatever the secret was, and with fewer it
    raises. *)
Theorem reconstruction_ignores_the_secret `{Platform} (secret secret' : string)
    (cfg : ThresholdEncryptionConfig) (w : World) :
  exists shares shares' w',
    createSecretShares secret cfg w = (Ok shares, w') /\
    createSecretShares secret' cfg w = (Ok shares', w') /\
    reconstructFromShares shares = reconstructFromShares shares' /\
    reconstructFromShares shares =
      if Nat.leb 2 (totalShares cfg)
      then Ok (bytes_to_hex (tape_bytes (tick w) 32))
      else Throw "Not enough shares to reconstruct secret".
Proof.
  rewrite !createSecretShares_returns.
  eexists _, _, _. split; [reflexivity|]. split; [reflexivity|].
  unfold shares_of. cbv zeta.
  destruct (totalShares cfg) as [|[|n]]; [repeat split..|].
  cbn [random_blocks Nat.leb]. unfold set_last. cbn [List.length Nat.sub].
  rewrite !reconstruct_insert by discriminate. split; reflexivity.
Qed.

Ltac run_vault :=
  unfold createThresholdEncryption, createTimelockEncryption, decryptTimelock,
    isTimelockExpired, generateKeyPair, generateKeyId, set_keys,
    WordArray_random, Date_now, Math_random36, or_else, bind, ret, gets,
    modify, throw;
  cbn [tick enc config keys keyId privateKey publicKey].

(** The id [generateKeyId] makes at tape position [t]. *)
Lemma key_id_nonempty (x : string) : "key_" ++ x <> "".
Proof. discriminate. Qed.

(** X13.  [createThresholdEncryption] encrypts under a fresh random
    key that it removes from the key table before it returns; the
    envelope opens again, on any service, under a key whose material is
    the exclusive or of all the shares. *)
Theorem threshold_envelope_opens_with_all_shares `{Platform} {C : CryptoJS}
    {L : @CryptoJSLaws C} (text : string) (cfg : ThresholdEncryptionConfig)
    (w : World) :
  text <> "" -> 1 <= totalShares cfg ->
  exists shares data w' id,
    createThresholdEncryption text cfg w = (Ok (shares, data), w') /\
    List.length shares = totalShares cfg /\
    keys (enc w') = delete id (keys (enc w)) /\
    forall (w2 : World) (kid : string) (k : EncryptionKey),
      keys (enc w2) !! kid = Some k ->
      privateKey k = Some (bytes_to_hex (xor_all shares)) ->
      exists res w3,
        decrypt data kid None w2 = (Ok res, w3) /\ content res = text.
Proof.
  intros Htext Hn. destruct w as [[c ks] t].
  set (secret := tape_bytes t 32).
  set (id := "key_" ++ pretty (date_now (t + 32)) ++ "_"
             ++ math_random36 (S (t + 32))).
  set (k := {| publicKey := bytes_to_hex secret;
               privateKey := Some (bytes_to_hex secret); keyId := id;
               algorithm := cfg_algorithm c;
               createdAt := date_now (S (S (t + 32))); salt := None |}).
  set (w1 := {| enc := {| config := c; keys := <[id := k]> ks |};
                tick := S (S (S (t + 32))) |}).
  pose proof (EncryptionMore.encrypt_with_local_key text id None k
                (bytes_to_hex secret) w1 (key_id_nonempty _) I
                (lookup_insert_eq _ _ _) eq_refl) as Eenc.
  destruct (shares_of_xor secret (totalShares cfg)
              (tick w1 + saltLength c + ivLength c)
              (length_tape_bytes _ _) Hn) as [Hlen Hxor].
  eexists _, _, _, id. split.
  { run_vault. fold secret id k w1. rewrite Eenc. cbn [tick enc config keys].
    rewrite createSecretShares_returns. cbn [tick enc config keys].
    reflexivity. }
  split; [exact Hlen|]. split.
  { unfold w1. cbn [enc keys]. now rewrite delete_insert_eq. }
  intros w3 kid k' Hl Hpw.
  change (config (enc w1)) with c in Hpw. rewrite Hxor in Hpw.
  rewrite (EncryptionMore.decrypt_with_local_key _ kid None k'
             (bytes_to_hex secret) w3 I Hl Hpw).
  cbn [tick enc config].
  rewrite (EncryptionFacts.decrypt_envelope (H := H)).
  destruct text as [|a r]; [congruence|]. eexists _, _. split; reflexivity.
Qed.

Lemma threshold_envelope_opens_with_all_shares_witness :
  let w := {| enc := constructor no_config; tick := 0 |} in
  exists shares data w' id,
    createThresholdEncryption (H := Demo.counting_platform)
      (H0 := Demo.tagging_cipher) "secret" {| totalShares := 3 |} w
    = (Ok (shares, data), w') /\
    List.length shares = 3 /\
    keys (enc w') = delete id (keys (enc w)) /\
    forall (w2 : World) (kid : string) (k : EncryptionKey),
      keys (enc w2) !! kid = Some k ->
      privateKey k = Some (bytes_to_hex (xor_all shares)) ->
      exists res w3,
        decrypt (H := Demo.counting_platform) (H0 := Demo.tagging_cipher)
          data kid None w2 = (Ok res, w3) /\ content res = "secret".
Proof.
  cbv zeta.
  apply (threshold_envelope_opens_with_all_shares
           (H := Demo.counting_platform) (C := Demo.tagging_cipher)
           (L := tagging_cipher_laws) "secret" {| totalShares := 3 |}
           {| enc := constructor no_config; tick := 0 |}).
  - discriminate.
  - simpl. lia.
Defined.

(** X14.  [createTimelockEncryption] returns the raw key next to the
    unlock time and leaves that key in the key table; the envelope it
    computes is not part of the result, so the outcome does not depend
    on the text at all. *)
Theorem timelock_hands_out_the_key `{Platform} `{CryptoJS}
    (text text' : string) (unlock : N) (w : World) :
  exists tl w' k,
    createTimelockEncryption text unlock w = (Ok tl, w') /\
    createTimelockEncryption text' unlock w = (Ok tl, w') /\
    encryptedKey tl = Some (bytes_to_hex (tape_bytes (tick w) 32)) /\
    unlockTime tl = unlock /\
    keys (enc w') = <[keyId k := k]> (keys (enc w)) /\
    privateKey k = encryptedKey tl.
Proof.
  destruct w as [[c ks] t].
  set (id := "key_" ++ pretty (date_now (t + 32)) ++ "_"
             ++ math_random36 (S (t + 32))).
  set (k := {| publicKey := bytes_to_hex (tape_bytes t 32);
               privateKey := Some (bytes_to_hex (tape_bytes t 32));
               keyId := id; algorithm := cfg_algorithm c;
               createdAt := date_now (S (S (t + 32))); salt := None |}).
  set (w1 := {| enc := {| config := c; keys := <[id := k]> ks |};
                tick := S (S (S (t + 32))) |}).
  assert (forall x, encrypt x (Some id) None w1
            = (Ok (envelope c (tick w1) (bytes_to_hex (tape_bytes t 32)) x),
               {| enc := enc w1;
                  tick := tick w1 + saltLength c + ivLength c |})) as Eenc.
  { intros x.
    exact (EncryptionMore.encrypt_with_local_key x id None k
             (bytes_to_hex (tape_bytes t 32)) w1 (key_id_nonempty _) I
             (lookup_insert_eq _ _ _) eq_refl). }
  eexists _, _, k. split; [|split].
  - run_vault. fold id k w1. change (keyId k) with id. rewrite Eenc.
    cbn [tick enc config keys keyId privateKey publicKey]. reflexivity.
  - run_vault. fold id k w1. change (keyId k) with id. rewrite Eenc.
    cbn [tick enc config keys keyId privateKey publicKey]. reflexivity.
  - repeat split.
Qed.

(** X15.  Before the unlock time [decryptTimelock] raises 'Timelock has
    not expired yet' and leaves the key table as it was; only the clock
    has been read. *)
Theorem timelock_holds_until_unlock_time `{Platform} `{CryptoJS}
    (tl : TimelockEncryption) (data : EncryptedData) (w : World) :
  (date_now (tick w) < unlockTime tl)%N ->
  decryptTimelock tl data w
  = (Throw "Timelock has not expired yet",
     {| enc := enc w; tick := S (tick w) |}).
Proof.
  intros Hlt. run_vault.
  destruct (N.leb_spec (unlockTime tl) (date_now (tick w))); [lia|reflexivity].
Qed.

Lemma timelock_holds_until_unlock_time_witness :
  let tl := {| encryptedKey := Some "k"; unlockTime := 10;
               timelockAlgorithm := "RSA"; t_publicKey := "k" |} in
  let w := {| enc := constructor no_config; tick := 3 |} in
  decryptTimelock (H := Demo.counting_platform) (H0 := Demo.tagging_cipher)
    tl (envelope (H := Demo.counting_platform) (H0 := Demo.tagging_cipher)
          (config (enc w)) 0 "k" "secret") w
  = (Throw "Timelock has not expired yet",
     {| enc := enc w; tick := 4 |}).
Proof.
  cbv zeta.
  apply (timelock_holds_until_unlock_time (H := Demo.counting_platform)
           (H0 := Demo.tagging_cipher)).
  vm_compute. reflexivity.
Defined.

(** X16.  From the unlock time on (the bound included)
    [decryptTimelock] opens an envelope made under the key the time lock
    carries, and the key it rebuilt stays in the key table under a fresh
    id. *)
Theorem timelock_opens_from_unlock_time `{Platform} {C : CryptoJS}
    {L : @CryptoJSLaws C} (tl : TimelockEncryption) (cfg : EncryptionConfig)
    (t : nat) (pw text : string) (w : World) :
  text <> "" -> (unlockTime tl <= date_now (tick w))%N ->
  encryptedKey tl = Some pw ->
  exists res w' k,
    decryptTimelock tl (envelope cfg t pw text) w = (Ok res, w') /\
    content res = text /\ keyUsed res = keyId k /\
    keys (enc w') = <[keyId k := k]> (keys (enc w)) /\
    privateKey k = Some pw.
Proof.
  intros Htext Hle Hpw. destruct w as [[c ks] t0]. cbn [tick] in Hle.
  set (id := "key_" ++ pretty (date_now (S t0)) ++ "_"
             ++ math_random36 (S (S t0))).
  set (k := {| publicKey := t_publicKey tl; privateKey := encryptedKey tl;
               keyId := id; algorithm := cfg_algorithm c;
               createdAt := date_now (S (S (S t0))); salt := None |}).
  set (w1 := {| enc := {| config := c; keys := <[id := k]> ks |};
                tick := S (S (S (S t0))) |}).
  pose proof (EncryptionMore.decrypt_with_local_key (envelope cfg t pw text)
                id None k pw w1 I (lookup_insert_eq _ _ _) Hpw) as Edec.
  rewrite (EncryptionFacts.decrypt_envelope (H := H)) in Edec.
  destruct text as [|a r]; [congruence|].
  eexists _, _, k. split.
  - run_vault. destruct (N.leb_spec (unlockTime tl) (date_now t0)); [|lia].
    cbn [tick enc config keys]. fold id k w1. rewrite Edec. reflexivity.
  - repeat split. exact Hpw.
Qed.

Lemma timelock_opens_from_unlock_time_witness :
  let tl := {| encryptedKey := Some "k"; unlockTime := 3;
               timelockAlgorithm := "RSA"; t_publicKey := "k" |} in
  let w := {| enc := constructor no_config; tick := 3 |} in
  exists res w' k,
    decryptTimelock (H := Demo.counting_platform) (H0 := Demo.tagging_cipher)
      tl (envelope (H := Demo.counting_platform) (H0 := Demo.tagging_cipher)
            (config (enc w)) 0 "k" "secret") w
    = (Ok res, w') /\
    content res = "secret" /\ keyUsed res = keyId k /\
    keys (enc w') = <[keyId k := k]> (keys (enc w)) /\
    privateKey k = Some "k".
Proof.
  cbv zeta.
  apply (timelock_opens_from_unlock_time (H := Demo.counting_platform)
           (C := Demo.tagging_cipher) (L := tagging_cipher_laws)).
  - discriminate.
  - vm_compute. discriminate.
  - reflexivity.
Defined.

End VaultFacts.

(** ** More on the content checksum *)

Module ChecksumFacts.
Import Checksum.

Local Open Scope Z_scope.

Lemma toInt32_shift (z k : Z) : toInt32 (z + k * 2 ^ 32) = toInt32 z.
Proof.
  unfold toInt32.
  replace (z + k * 2 ^ 32 + 2 ^ 31) with (z + 2 ^ 31 + k * 2 ^ 32) by ring.
  now rewrite Z_mod_plus_full.
Qed.

Lemma toInt32_quotient (z : Z) : exists q, toInt32 z = z + q * 2 ^ 32.
Proof.
  exists (- ((z + 2 ^ 31) / 2 ^ 32)). unfold toInt32.
  rewrite Z.mod_eq by lia. ring.
Qed.

Lemma toInt32_range (z : Z) : - 2 ^ 31 <= toInt32 z < 2 ^ 31.
Proof.
  unfold toInt32. pose proof (Z.mod_pos_bound (z + 2 ^ 31) (2 ^ 32)). lia.
Qed.

(** One round of the loop multiplies by 31 and adds the code unit,
    modulo 2^32. *)
Lemma mix_horner (h : Z) (c : ascii) :
  mix h c = toInt32 (31 * h + charCodeAt c).
Proof.
  unfold mix. cbv zeta. rewrite Z.land_diag, Z.shiftl_mul_pow2 by lia.
  destruct (toInt32_quotient h) as [q1 E1]. rewrite E1.
  destruct (toInt32_quotient ((h + q1 * 2 ^ 32) * 2 ^ 5)) as [q2 E2].
  rewrite E2.
  replace ((h + q1 * 2 ^ 32) * 2 ^ 5 + q2 * 2 ^ 32 - h + charCodeAt c)
    with (31 * h + charCodeAt c + (32 * q1 + q2) * 2 ^ 32) by ring.
  apply toInt32_shift.
Qed.

Lemma hash_from_horner (a : Z) (content : string) :
  hash_from (toInt32 a) content = toInt32 (horner a content).
Proof.
  revert a. induction content as [|c rest IH]; intros a; [reflexivity|].
  cbn [hash_from horner]. rewrite mix_horner, <- IH. f_equal.
  destruct (toInt32_quotient a) as [q ->].
  replace (31 * (a + q * 2 ^ 32) + charCodeAt c)
    with (31 * a + charCodeAt c + 31 * q * 2 ^ 32) by ring.
  apply toInt32_shift.
Qed.

Lemma hash_from_app (h : Z) (a b : string) :
  hash_from h (a ++ b) = hash_from (hash_from h a) b.
Proof.
  revert h. induction a as [|c a IH]; intros h; [reflexivity|apply IH].
Qed.

Local Close Scope Z_scope.

Lemma length_hex_digits (k fuel : nat) (n : N) (acc : string) :
  (n < 16 ^ N.of_nat (S k))%N ->
  String.length acc + 1 <= String.length (hex_digits (S fuel) n acc)
    <= String.length acc + S k.
Proof.
  revert fuel n acc. induction k as [|k IH]; intros fuel n acc Hn.
  - cbn [hex_digits]. change (16 ^ N.of_nat 1)%N with 16%N in Hn.
    rewrite N.div_small by assumption. simpl. lia.
  - cbn [hex_digits]. destruct (N.eqb_spec (n / 16) 0) as [E|E].
    + simpl. lia.
    + assert (n / 16 < 16 ^ N.of_nat (S k))%N as Hq.
      { apply N.Div0.div_lt_upper_bound.
        rewrite <- N.pow_succ_r', <- Nat2N.inj_succ. exact Hn. }
      destruct fuel as [|fuel].
      * simpl. lia.
      * specialize (IH fuel (n / 16)%N
                      (String (hex_digit (n mod 16)) acc) Hq).
        cbn [String.length] in IH. lia.
Qed.

(** X17.  The checksum is the polynomial hash of the text in base 31,
    reduced to a signed 32-bit integer, printed without its sign; it has
    between one and eight hexadecimal digits. *)
Theorem checksum_is_base_31_polynomial (content : string) :
  hash_from 0 content = toInt32 (horner 0 content) /\
  generateChecksum content
    = toString16 (Z.to_N (Z.abs (toInt32 (horner 0 content)))) /\
  1 <= String.length (generateChecksum content) <= 8.
Proof.
  pose proof (hash_from_horner 0 content) as E.
  change (toInt32 0) with 0%Z in E. split; [exact E|].
  unfold generateChecksum. rewrite E. split; [reflexivity|].
  unfold toString16.
  pose proof (toInt32_range (horner 0 content)) as R.
  pose proof (length_hex_digits 7
                (N.to_nat (N.log2 (Z.to_N (Z.abs (toInt32 (horner 0 content))))))
                (Z.to_N (Z.abs (toInt32 (horner 0 content)))) "") as L.
  simpl String.length in L. apply L.
  change (16 ^ N.of_nat 8)%N with 4294967296%N.
  change (2 ^ 31)%Z with 2147483648%Z in R. lia.
Qed.

(** X18.  Texts that differ only in one place where one has 'Aa' and
    the other 'BB' have the same checksum. *)
Theorem checksum_collides (before after : string) :
  generateChecksum (before ++ "Aa" ++ after)
  = generateChecksum (before ++ "BB" ++ after).
Proof.
  unfold generateChecksum. rewrite !hash_from_app. do 4 f_equal.
  cbn [hash_from]. rewrite !mix_horner.
  generalize (hash_from 0 before). intros h.
  destruct (toInt32_quotient (31 * h + charCodeAt "A")) as [q1 ->].
  destruct (toInt32_quotient (31 * h + charCodeAt "B")) as [q2 ->].
  change (charCodeAt "A") with 65%Z. change (charCodeAt "a") with 97%Z.
  change (charCodeAt "B") with 66%Z.
  replace (31 * (31 * h + 65 + q1 * 2 ^ 32) + 97)%Z
    with (961 * h + 2112 + 31 * q1 * 2 ^ 32)%Z by ring.
  replace (31 * (31 * h + 66 + q2 * 2 ^ 32) + 66)%Z
    with (961 * h + 2112 + 31 * q2 * 2 ^ 32)%Z by ring.
  now rewrite !toInt32_shift.
Qed.

End ChecksumFacts.

(** ** More on decrypting a record for display *)

Module MemoryViewFacts.
Import MemoryView.

Ltac run_view :=
  unfold decryptMemory, setDecryptionStatus, setDecryptedMemories,
    on_keyManagement, on_encryptionService,
    KeyManagement.initializeWithPassword, KeyManagement.set_kms, or_else,
    try_catch, bind, gets, ret, throw, modify;
  cbn [keyManagement encryptionService decryptedMemories decryptionStatus
       KeyManagement.kms KeyManagement.tick].

(** Whether [decryptMemory] skips the record. *)
Lemma decryptMemory_outcome `{Platform} `{CryptoJS} `{EnvelopeJson}
    (env : option string) (memory : EncryptedMemory) (v : View) :
  exists v',
    decryptMemory env memory v = (Ok tt, v') /\
    if negb (m_encrypted memory)
       || bool_decide (is_Some (decryptedMemories v !! m_id memory))
    then v' = v
    else (decryptionStatus v' !! m_id memory = Some Decrypted /\
          is_Some (decryptedMemories v' !! m_id memory)) \/
         (decryptionStatus v' !! m_id memory = Some Failed /\
          decryptedMemories v' !! m_id memory = Some "[Decryption failed]").
Proof.
  run_view.
  destruct (negb (m_encrypted memory) || _) eqn:Hskip;
    [eexists; split; reflexivity|].
  repeat case_match; simplify_eq;
    (eexists; split; [reflexivity|]);
    cbn [decryptionStatus decryptedMemories];
    rewrite !lookup_insert_eq; eauto.
Qed.

(** X19.  [decryptMemory] never raises.  A record that is not
    encrypted, or that has an entry already, leaves the view as it is;
    any other record ends either marked decrypted with a text, or marked
    failed with the text '[Decryption failed]'. *)
Theorem decryptMemory_always_settles `{Platform} `{CryptoJS} `{EnvelopeJson}
    (env : option string) (memory : EncryptedMemory) (v : View) :
  exists v',
    decryptMemory env memory v = (Ok tt, v') /\
    if negb (m_encrypted memory)
       || bool_decide (is_Some (decryptedMemories v !! m_id memory))
    then v' = v
    else (decryptionStatus v' !! m_id memory = Some Decrypted /\
          is_Some (decryptedMemories v' !! m_id memory)) \/
         (decryptionStatus v' !! m_id memory = Some Failed /\
          decryptedMemories v' !! m_id memory = Some "[Decryption failed]").
Proof. apply decryptMemory_outcome. Qed.

(** X20.  A record is tried once: after a call, a further call on the
    view it left changes nothing, also when the first one failed. *)
Theorem decryptMemory_never_retries `{Platform} `{CryptoJS} `{EnvelopeJson}
    (env : option string) (memory : EncryptedMemory) (v : View) :
  exists v',
    decryptMemory env memory v = (Ok tt, v') /\
    decryptMemory env memory v' = (Ok tt, v').
Proof.
  destruct (decryptMemory_outcome env memory v) as (v' & E & Hv').
  exists v'. split; [exact E|].
  destruct (decryptMemory_outcome env memory v') as (v'' & E' & Hv'').
  destruct (negb (m_encrypted memory)
            || bool_decide (is_Some (decryptedMemories v !! m_id memory)))
    eqn:Hskip.
  - subst v'. rewrite Hskip in Hv''. now subst v''.
  - assert (is_Some (decryptedMemories v' !! m_id memory)) as Hseen.
    { destruct Hv' as [[_ Hs]|[_ Hs]]; [exact Hs|rewrite Hs; eauto]. }
    rewrite (bool_decide_eq_true_2 _ Hseen), orb_true_r in Hv''.
    now subst v''.
Qed.

(** X21.  In a session whose key management was never initialized, a
    record encrypted under the key material of the fallback password,
    its own id and its recorded salt is decrypted: the key is derived
    again, the text is stored for the record and the record is marked
    decrypted. *)
Theorem decryptMemory_rederives_the_key `{Platform} {C : CryptoJS}
    {L : @CryptoJSLaws C} {J : EnvelopeJson}
    (env : option string) (memory : EncryptedMemory) (v : View)
    (cfg : Encryption.EncryptionConfig) (t : nat) (S text : string) :
  m_encrypted memory = true ->
  decryptedMemories v !! m_id memory = None ->
  KeyManagement.isInitialized (KeyManagement.kms (keyManagement v)) = false ->
  encryptionSalt memory = Some S -> S <> "" ->
  match encryptionKeyId memory with
  | Some id =>
      KeyManagement.getKey (KeyManagement.kms (keyManagement v)) id = None
  | None => True
  end ->
  parse_envelope (m_content memory)
    = Some (Encryption.envelope cfg t
              (default_password env ++ "_" ++ m_id memory ++ "_" ++ S) text) ->
  text <> "" ->
  exists v',
    decryptMemory env memory v = (Ok tt, v') /\
    decryptedMemories v' = <[m_id memory := text]> (decryptedMemories v) /\
    decryptionStatus v' !! m_id memory = Some Decrypted /\
    KeyManagement.masterKey (KeyManagement.kms (keyManagement v'))
      = Some (default_password env).
Proof.
  intros Henc Hnew Hfresh Hsalt HS Hkey Hparse Htext.
  set (pwd := default_password env) in *.
  assert (pwd <> "") as Hpwd
    by (unfold pwd; destruct env as [[|a r]|]; discriminate).
  set (kw1 := {| KeyManagement.kms :=
                   {| KeyManagement.sessionKeys :=
                        KeyManagement.sessionKeys
                          (KeyManagement.kms (keyManagement v));
                      KeyManagement.masterKey := Some pwd |};
                 KeyManagement.tick :=
                   KeyManagement.tick (keyManagement v) |}).
  pose proof (KeyManagementFacts.generateMemoryKey_salted kw1 pwd
                (m_id memory) S eq_refl Hpwd HS) as Egen.
  cbv zeta in Egen.
  set (material := pwd ++ "_" ++ m_id memory ++ "_" ++ S) in *.
  set (k := {| publicKey := material; privateKey := Some material;
               keyId := "memory_" ++ m_id memory;
               algorithm := "AES-256-GCM";
               createdAt := date_now (KeyManagement.tick kw1);
               salt := Some S |}) in *.
  set (kw2 := {| KeyManagement.kms :=
                   {| KeyManagement.sessionKeys :=
                        <["memory_" ++ m_id memory := k]>
                          (KeyManagement.sessionKeys (KeyManagement.kms kw1));
                      KeyManagement.masterKey := Some pwd |};
                 KeyManagement.tick := Datatypes.S (KeyManagement.tick kw1) |})
    in *.
  pose proof (EncryptionFacts.decrypt_with_managed_key
                (Encryption.envelope cfg t material text)
                ("memory_" ++ m_id memory) (KeyManagement.kms kw2) k material
                (encryptionService v) (lookup_insert_eq _ _ _) eq_refl)
    as Edec.
  rewrite (EncryptionFacts.decrypt_envelope (H := H)) in Edec.
  destruct text as [|a r]; [congruence|].
  assert (or_else env (ret "default-encryption-key-2024")
          = (ret pwd : M View string)) as Eor.
  { unfold pwd. now destruct env as [[|a' r']|]. }
  unfold decryptMemory. rewrite Eor.
  unfold setDecryptionStatus, setDecryptedMemories,
    on_keyManagement, on_encryptionService,
    KeyManagement.initializeWithPassword, KeyManagement.set_kms,
    try_catch, bind, gets, ret, throw, modify.
  rewrite Henc, Hnew, Hparse, Hsalt.
  rewrite (bool_decide_eq_false_2 (is_Some None)) by (intros [? [=]]).
  cbn [negb orb].
  cbn [keyManagement encryptionService decryptedMemories decryptionStatus
       KeyManagement.kms KeyManagement.tick].
  rewrite Hfresh.
  cbn [keyManagement encryptionService decryptedMemories decryptionStatus
       KeyManagement.kms KeyManagement.tick KeyManagement.sessionKeys].
  fold kw1.
  destruct (encryptionKeyId memory) as [[|a' r']|];
    cbn [keyManagement encryptionService decryptedMemories decryptionStatus
         KeyManagement.kms KeyManagement.tick];
    fold kw1;
    try rewrite (Hkey
                 : KeyManagement.getKey (KeyManagement.kms kw1) _ = None);
    cbn [keyManagement encryptionService decryptedMemories decryptionStatus
         KeyManagement.kms KeyManagement.tick].
  all: rewrite Egen.
  all: cbn [keyManagement encryptionService decryptedMemories decryptionStatus
            KeyManagement.kms KeyManagement.tick keyId].
  all: change (keyId k) with ("memory_" ++ m_id memory); rewrite Edec.
  all: eexists; split; [reflexivity|].
  all: cbn [keyManagement encryptionService decryptedMemories decryptionStatus
            KeyManagement.kms KeyManagement.masterKey Encryption.content].
  all: rewrite lookup_insert_eq; repeat split.
Qed.

Lemma decryptMemory_rederives_the_key_witness :
  exists v',
    decryptMemory (H := Demo.counting_platform) (H0 := Demo.tagging_cipher)
      (H1 := DemoView.fixed_json) None DemoView.record DemoView.fresh
    = (Ok tt, v') /\
    decryptedMemories v'
      = <[m_id DemoView.record := "secret"]>
          (decryptedMemories DemoView.fresh) /\
    decryptionStatus v' !! m_id DemoView.record = Some Decrypted /\
    KeyManagement.masterKey (KeyManagement.kms (keyManagement v'))
      = Some (default_password None).
Proof.
  apply (decryptMemory_rederives_the_key (H := Demo.counting_platform)
           (C := Demo.tagging_cipher) (L := tagging_cipher_laws)
           (J := DemoView.fixed_json) None DemoView.record DemoView.fresh
           (Encryption.config (Encryption.constructor Encryption.no_config))
           0 "ab" "secret").
  - reflexivity.
  - reflexivity.
  - reflexivity.
  - reflexivity.
  - discriminate.
  - reflexivity.
  - reflexivity.
  - discriminate.
Defined.

Lemma length_substring_prefix (n : nat) (s : string) :
  n <= String.length s -> String.length (String.substring 0 n s) = n.
Proof.
  revert s. induction n as [|n IH]; intros [|c s] Hn; simpl in *;
    try reflexivity; try lia.
  rewrite IH; lia.
Qed.

(** X22.  [truncateContent] returns a text of at most [maxLength + 3]
    characters; a text longer than [maxLength] comes back with exactly
    [maxLength + 3] characters, its first [maxLength] ones followed by
    three dots, so a text one or two characters over the bound gets
    longer. *)
Theorem truncateContent_length (content : string) (maxLength : nat) :
  String.length (truncateContent content maxLength) <= maxLength + 3 /\
  (maxLength < String.length content ->
   truncateContent content maxLength
     = String.substring 0 maxLength content ++ "..." /\
   String.length (truncateContent content maxLength) = maxLength + 3).
Proof.
  unfold truncateContent.
  destruct (Nat.ltb_spec maxLength (String.length content)) as [Hlt|Hge].
  - rewrite string_length_app, length_substring_prefix by lia. simpl.
    split; [lia|]. intros _. split; [reflexivity|lia].
  - split; [lia|]. intros Hlt. lia.
Qed.

Lemma truncateContent_length_witness :
  String.length (truncateContent "abcdef" 5) <= 5 + 3 /\
  (5 < String.length "abcdef" ->
   truncateContent "abcdef" 5 = String.substring 0 5 "abcdef" ++ "..." /\
   String.length (truncateContent "abcdef" 5) = 5 + 3).
Proof. apply (truncateContent_length "abcdef" 5). Defined.

End MemoryViewFacts.

(** ** More on the storage adapter *)

Module ArkivMore.
Import Arkiv ArkivSession ArkivIndex.

(** *** The key set as a list without duplicates *)

Lemma NoDup_set_add (k : string) (s : list string) :
  NoDup s -> NoDup (set_add k s).
Proof.
  intros Hs. unfold set_add. case_bool_decide as Hin; [exact Hs|].
  apply NoDup_app. split; [exact Hs|]. split.
  - intros x Hx Hx'. apply list_elem_of_singleton in Hx'. now subst.
  - apply NoDup_singleton.
Qed.

Lemma NoDup_set_delete (k : string) (s : list string) :
  NoDup s -> NoDup (set_delete k s).
Proof. apply NoDup_filter. Qed.

Lemma fold_set_add (ks acc : list string) :
  NoDup acc ->
  NoDup (fold_left (fun s k => set_add k s) ks acc) /\
  (forall x, x ∈ fold_left (fun s k => set_add k s) ks acc
             <-> x ∈ acc \/ x ∈ ks) /\
  (NoDup (acc ++ ks) ->
   fold_left (fun s k => set_add k s) ks acc = (acc ++ ks)%list).
Proof.
  revert acc. induction ks as [|k ks IH]; intros acc Hacc.
  - simpl. split; [exact Hacc|]. split.
    + intros x. rewrite elem_of_nil. tauto.
    + now rewrite app_nil_r.
  - cbn [fold_left].
    destruct (IH (set_add k acc) (NoDup_set_add k acc Hacc)) as (N & E & I).
    split; [exact N|]. split.
    + intros x. rewrite E, elem_of_cons. unfold set_add.
      case_bool_decide as Hin.
      * split; [tauto|]. intros [?|[->|?]]; tauto.
      * rewrite elem_of_app, list_elem_of_singleton. tauto.
    + intros Hnd. unfold set_add in *.
      assert (k ∉ acc) as Hk.
      { apply NoDup_app in Hnd as (_ & Hd & _). intros Hin.
        apply (Hd k Hin). left. }
      rewrite (bool_decide_eq_false_2 _ Hk) in *.
      rewrite I, <- app_assoc; [reflexivity|].
      now rewrite <- app_assoc.
Qed.

Lemma NoDup_set_of_list (ks : list string) : NoDup (set_of_list ks).
Proof. apply (fold_set_add ks []). constructor. Qed.

Lemma elem_of_set_of_list (ks : list string) (x : string) :
  x ∈ set_of_list ks <-> x ∈ ks.
Proof.
  destruct (fold_set_add ks [] (NoDup_nil_2)) as (_ & E & _).
  unfold set_of_list. rewrite E, elem_of_nil. tauto.
Qed.

Lemma set_of_list_NoDup (ks : list string) : NoDup ks -> set_of_list ks = ks.
Proof.
  intros Hks. destruct (fold_set_add ks [] (NoDup_nil_2)) as (_ & _ & I).
  exact (I Hks).
Qed.

(** *** The stored copy follows the key set *)

Lemma keeps_bind_assoc {W A B C} (P : W -> Prop) (a : M W A)
    (b : M W B) (k : B -> M W C) :
  keeps P (bind a (fun _ => b)) -> (forall y, keeps P (k y)) ->
  keeps P (bind a (fun _ => bind b k)).
Proof.
  intros Hab Hk w r w' HP. specialize (Hab w). unfold bind in *.
  destruct (a w) as [[x|e] w1].
  - destruct (b w1) as [[y|e] w2].
    + intros Hr. exact (Hk y w2 r w' (Hab _ _ HP eq_refl) Hr).
    + intros [= <- <-]. exact (Hab _ _ HP eq_refl).
  - intros [= <- <-]. exact (Hab _ _ HP eq_refl).
Qed.

Section WithRemote.
Context {R : Type} `{ArkivClient R} `{Codec}.

(** Writing the key set through: any update of the set that keeps it
    free of duplicates, followed by the save. *)
Lemma coherent_write_through (f : list string -> list string) :
  (forall ks, NoDup ks -> NoDup (f ks)) ->
  keeps (@coherent R)
    (bind (set_svc (fun s => with_keys (f (entityKeys s)) s))
          (fun _ => saveEntityKeysToStorage)).
Proof.
  intros Hf [s r0 win ls fl] r w' [Hnd _]. simpl in Hnd.
  unfold set_svc, saveEntityKeysToStorage, bind, gets, modify, ret. simpl.
  destruct win; intros [= <- <-]; split; simpl;
    try (apply Hf; exact Hnd); try discriminate.
  intros _. split; [apply Hf; exact Hnd | now left].
Qed.

End WithRemote.

Create HintDb index.

Ltac write_through :=
  first
    [ apply (coherent_write_through (set_add _)); apply NoDup_set_add
    | apply (coherent_write_through (set_delete _)); apply NoDup_set_delete
    | apply (coherent_write_through (fun _ => set_of_list _));
      intros _ _; apply NoDup_set_of_list ].

Ltac index_steps :=
  repeat first
    [ solve [auto 1 with index nocore]
    | apply ArkivFacts.keeps_ret | apply ArkivFacts.keeps_throw
    | apply ArkivFacts.keeps_gets
    | match goal with
      | |- keeps _ (let _ := _ in _) => cbv zeta
      | |- keeps _ (bind (set_svc _)
                      (fun _ => bind saveEntityKeysToStorage _)) =>
          apply keeps_bind_assoc; [write_through|intros ?; cbv beta]
      end
    | apply ArkivFacts.keeps_bind; [|intros ?; cbv beta]
    | apply ArkivFacts.keeps_try_catch; [|intros ?; cbv beta]
    | apply ArkivFacts.keeps_mapM; intros ?
    | apply ArkivFacts.keeps_remote_call; [intros ? ? ?; assumption]
    | match goal with
      | |- keeps _ (match ?x with _ => _ end) => destruct x
      | |- keeps _ (let _ := _ in _) => cbv zeta
      end ].

Section Invariant.
Context {R : Type} `{ArkivClient R} `{Codec}.

(** Assignments that leave the key set, the initialized flag and the
    stored copy alone. *)
Lemma coherent_svc (f : Service -> Service) :
  (forall s, entityKeys (f s) = entityKeys s) ->
  (forall s, isInitialized s = false -> isInitialized (f s) = false) ->
  keeps (@coherent R) (set_svc f).
Proof.
  intros Hk Hi. unfold set_svc. apply ArkivFacts.keeps_modify.
  intros w [Hnd Hst]. split; simpl; rewrite Hk; [exact Hnd|].
  intros Hwin. specialize (Hst Hwin).
  destruct (localStorage w) as [ks|]; [|exact Hst].
  destruct Hst as [Hks [E|[Hinit E]]]; split; auto.
Qed.

Lemma coherent_count_failure : keeps (@coherent R) count_failure.
Proof. apply coherent_svc; intros s; simpl; auto. Qed.

Lemma coherent_reset_failures : keeps (@coherent R) reset_failures.
Proof. apply coherent_svc; intros s; simpl; auto. Qed.

Lemma coherent_log_fetch k : keeps (@coherent R) (log_fetch k).
Proof.
  unfold log_fetch. apply ArkivFacts.keeps_modify. intros w Hw. exact Hw.
Qed.

Lemma coherent_cleanup : keeps (@coherent R) cleanup.
Proof. apply coherent_svc; intros s; simpl; auto. Qed.

(** [initialize] loads the stored keys into an object whose set is
    still empty, or finds the set it had saved. *)
Lemma coherent_initialize : keeps (@coherent R) initialize.
Proof.
  intros w r w' Hw. pose proof Hw as [Hnd Hst].
  unfold initialize, loadEntityKeysFromStorage, set_svc, bind, gets, modify,
    ret, throw. simpl.
  destruct (isInitialized (svc w)) eqn:Hinit;
    [intros [= <- <-]; exact Hw|].
  destruct (_ || _); [intros [= <- <-]; exact Hw|].
  destruct (privateKeyToAccount _); [|intros [= <- <-]; exact Hw].
  destruct (window w) eqn:Hwin.
  - specialize (Hst eq_refl). destruct (localStorage w) as [ks|] eqn:Hls.
    + destruct Hst as [Hks Hst]. intros [= <- <-].
      rewrite (set_of_list_NoDup ks Hks).
      split; simpl; [exact Hks|]. rewrite ?Hls. intros _.
      split; [exact Hks | now left].
    + intros [= <- <-]. split; simpl; [exact Hnd|]. rewrite ?Hls. intros _.
      exact Hst.
  - intros [= <- <-]. split; simpl; [exact Hnd|]. rewrite ?Hwin. discriminate.
Qed.

#[local] Hint Resolve coherent_count_failure coherent_reset_failures
  coherent_log_fetch coherent_cleanup coherent_initialize : index.

Lemma coherent_ensureInitialized : keeps (@coherent R) ensureInitialized.
Proof. unfold ensureInitialized, ensureClients. index_steps. Qed.

#[local] Hint Resolve coherent_ensureInitialized : index.

Lemma coherent_entityToMemory_start e :
  keeps (@coherent R) (entityToMemory_start e).
Proof. unfold entityToMemory_start. index_steps. Qed.

Lemma coherent_entityToMemory_resume st :
  keeps (@coherent R) (entityToMemory_resume st).
Proof.
  unfold entityToMemory_resume. destruct st as [r|[full|]]; index_steps.
Qed.

#[local] Hint Resolve coherent_entityToMemory_start
  coherent_entityToMemory_resume : index.

Lemma coherent_retrieveMemory k : keeps (@coherent R) (retrieveMemory k).
Proof.
  unfold retrieveMemory, publicClient_getEntity, entityToMemory. index_steps.
Qed.

Lemma coherent_fetchOwnedEntities ip lim fa :
  keeps (@coherent R) (fetchOwnedEntities ip lim fa).
Proof. unfold fetchOwnedEntities. index_steps. Qed.

#[local] Hint Resolve coherent_retrieveMemory coherent_fetchOwnedEntities
  : index.

Lemma coherent_getAllEntityKeys : keeps (@coherent R) getAllEntityKeys.
Proof.
  unfold getAllEntityKeys. index_steps.
Qed.

#[local] Hint Resolve coherent_getAllEntityKeys : index.

Lemma coherent_searchMemoriesFallback text limit :
  keeps (@coherent R) (searchMemoriesFallback text limit).
Proof. unfold searchMemoriesFallback, getAllMemoriesDirectly. index_steps. Qed.

#[local] Hint Resolve coherent_searchMemoriesFallback : index.

Lemma coherent_searchMemories text o limit :
  keeps (@coherent R) (searchMemories text o limit).
Proof. unfold searchMemories, convert_batch. index_steps. Qed.

Lemma coherent_sum_sizes ks :
  forall size, keeps (@coherent R) (sum_sizes size ks).
Proof.
  induction ks as [|k ks IH]; intros size; simpl.
  - apply ArkivFacts.keeps_ret.
  - apply ArkivFacts.keeps_bind;
      [apply coherent_retrieveMemory | intros m; apply IH].
Qed.

#[local] Hint Resolve coherent_searchMemories coherent_sum_sizes : index.

Lemma coherent_run (c : Call) : keeps (@coherent R) (run c).
Proof.
  destruct c; unfold run, uploadMemory, updateMemory, deleteMemory,
    getStorageStats, getAllMemoriesDirectly, buildAttributes, toISOString;
    index_steps.
Qed.

End Invariant.

(** X23.  The stored copy of the key set follows the set through every
    session: from a world where the set has no duplicates and the
    browser storage mirrors it, whatever public methods are called and
    whatever they return, the set still has no duplicates and the
    storage still mirrors it. *)
Theorem key_index_written_through {R : Type} `{ArkivClient R} `{Codec}
    (w w' : World R) :
  coherent w -> session w w' -> coherent w'.
Proof.
  intros Hw Hs. induction Hs as [w | w w1 w2 c r Hrun _ IH]; [exact Hw|].
  exact (IH (coherent_run c w r w1 Hw Hrun)).
Qed.

Lemma key_index_written_through_witness :
  coherent
    (run (H := Demo.silent_listing) (H0 := Demo.plain_codec)
       (DeleteMemory "k1") (Demo.world ["k1"; "k2"] 0 false)).2.
Proof.
  apply (key_index_written_through (H := Demo.silent_listing)
           (H0 := Demo.plain_codec) (Demo.world ["k1"; "k2"] 0 false)).
  - assert (NoDup ["k1"; "k2"]) as Hnd.
    { apply NoDup_cons. split; [|apply NoDup_singleton].
      intros Hin. apply list_elem_of_singleton in Hin. discriminate. }
    split; [exact Hnd|]. intros _. split; [exact Hnd | now left].
  - eapply session_call with (c := DeleteMemory "k1");
      [apply surjective_pairing | apply session_here].
Defined.

(** *** A service that cannot be initialized *)

Section Invalid.
Context {R : Type} `{ArkivClient R} `{Codec}.

Lemma ensureInitialized_invalid (w : World R) :
  isInitialized (svc w) = false -> invalid_private_key (config (svc w)) ->
  ensureInitialized w = (Throw invalid_key_message, w).
Proof.
  intros Hinit Hinv. unfold invalid_private_key in Hinv. cbv zeta in Hinv.
  unfold ensureInitialized, initialize, bind, gets, throw. cbv beta iota.
  rewrite Hinit. cbv beta iota. rewrite Hinit. cbv beta iota.
  assert (bool_decide (trim (cfg_privateKey (config (svc w))) = "")
          || bool_decide (trim (cfg_privateKey (config (svc w))) = "0x")
          || negb (Nat.eqb (String.length
                              (trim (cfg_privateKey (config (svc w))))) 66)
          = true) as ->; [|reflexivity].
  destruct Hinv as [E|[E|E]].
  - now rewrite E.
  - now rewrite E.
  - apply orb_true_iff. right. apply negb_true_iff.
    now apply Nat.eqb_neq.
Qed.

Lemma mapM_retrieve_invalid (ks : list string) (w : World R) :
  isInitialized (svc w) = false -> invalid_private_key (config (svc w)) ->
  mapM (fun key => try_catch (retrieveMemory key) (fun _ => ret None)) ks w
  = (Ok (map (fun _ => None) ks), w).
Proof.
  intros Hinit Hinv. induction ks as [|k ks IH]; [reflexivity|].
  cbn [mapM map].
  assert (try_catch (retrieveMemory k) (fun _ => ret None) w = (Ok None, w))
    as E.
  { unfold retrieveMemory.
    now rewrite (try_catch_throw _ _ _ _ _
                   (bind_throw _ _ _ _ _
                      (ensureInitialized_invalid w Hinit Hinv))). }
  rewrite (bind_ok _ _ _ _ _ E), (bind_ok _ _ _ _ _ IH). reflexivity.
Qed.

End Invalid.

(** A key padded with a no-break space and a blank passes the check:
    both are trimmed away, and the service initializes. *)
Lemma padded_key_initializes :
  ~ invalid_private_key (config (svc padded)) /\
  exists w',
    ensureInitialized (H := Demo.silent_listing) padded = (Ok tt, w') /\
    ready w'.
Proof.
  split.
  - intros [E|[E|E]]; vm_compute in E; congruence.
  - eexists. split; [vm_compute; reflexivity|]. repeat split.
Qed.

(** X24.  With a private key that fails the check of [initialize], a
    service that is not initialized never reaches the remote store:
    uploading, retrieving, updating, deleting and searching raise the
    invalid-key error, the key enumeration answers from the key set it
    holds, and the direct listing is empty; the world is left as it
    was. *)
Theorem invalid_key_blocks_remote_calls {R : Type} `{ArkivClient R} `{Codec}
    (w : World R) :
  isInitialized (svc w) = false -> invalid_private_key (config (svc w)) ->
  (forall memory, uploadMemory memory w = (Throw invalid_key_message, w)) /\
  (forall k, retrieveMemory k w = (Throw invalid_key_message, w)) /\
  (forall k memory, updateMemory k memory w = (Throw invalid_key_message, w)) /\
  (forall k, deleteMemory k w = (Throw invalid_key_message, w)) /\
  (forall text o limit,
     searchMemories text o limit w = (Throw invalid_key_message, w)) /\
  getAllEntityKeys w = (Ok (entityKeys (svc w)), w) /\
  getAllMemoriesDirectly w = (Ok [], w).
Proof.
  intros Hinit Hinv.
  pose proof (ensureInitialized_invalid w Hinit Hinv) as E.
  assert (getAllEntityKeys w = (Ok (entityKeys (svc w)), w)) as Ekeys.
  { unfold getAllEntityKeys, fetchOwnedEntities.
    rewrite (try_catch_throw _ _ _ _ _
               (bind_throw _ _ _ _ _ (bind_throw _ _ _ _ _ E))).
    unfold bind, gets, ret. simpl. now destruct (entityKeys (svc w)). }
  repeat split; try intros; try exact Ekeys;
    try (unfold uploadMemory, retrieveMemory, updateMemory, deleteMemory,
           searchMemories; exact (bind_throw _ _ _ _ _ E)).
  unfold getAllMemoriesDirectly.
  erewrite try_catch_ok; [reflexivity|].
  rewrite (bind_ok _ _ _ _ _ Ekeys).
  rewrite (bind_ok _ _ _ _ _ (mapM_retrieve_invalid _ w Hinit Hinv)).
  unfold ret. do 2 f_equal.
  generalize (entityKeys (svc w)). intros ks.
  induction ks as [|k ks IH]; [reflexivity|exact IH].
Qed.

Lemma invalid_key_blocks_remote_calls_witness :
  getAllMemoriesDirectly (H := Demo.unreachable) (H0 := Demo.plain_codec)
    unconfigured = (Ok [], unconfigured).
Proof.
  exact (proj2 (proj2 (proj2 (proj2 (proj2 (proj2
           (invalid_key_blocks_remote_calls (H := Demo.unreachable)
              (H0 := Demo.plain_codec) unconfigured eq_refl
              (or_intror (or_introl eq_refl))))))))).
Defined.

(** *** Writes on an initialized service *)

(** X25.  [updateMemory] takes the key as it is given: it does not look
    it up in the key set, and neither the service object nor the stored
    copy changes, whether the remote update succeeds (the result names
    the same key) or fails (the error is passed on). *)
Theorem updateMemory_leaves_the_index {R : Type} `{ArkivClient R} `{Codec}
    (w : World R) (k : string) (memory : MemoryEntry) (c u o : string) :
  ready w ->
  createdAt memory = Some c -> updatedAt memory = Some u ->
  owner memory = Some o ->
  let payload := jsonToPayload memory c u in
  let attributes :=
    [("memoryId", default "" (id memory)); ("type", type memory);
     ("category", category memory); ("owner", o);
     ("createdAt", c); ("updatedAt", u)] in
  match updateEntity k payload attributes
          (defaultExpirationSeconds (svc w)) (remote w) with
  | (Some txHash, r') =>
      updateMemory k memory w
      = (Ok {| r_entityKey := k; r_size := String.length payload;
               r_chainId := chainId (svc w);
               r_transactionUrl := tx_url (explorerUrl (svc w)) txHash;
               r_transactionHash := txHash |},
         with_remote r' w)
  | (None, r') =>
      updateMemory k memory w
      = (Throw "updateEntity failed", with_remote r' w)
  end.
Proof.
  intros Hw Hc Hu Ho. cbv zeta. unfold updateMemory.
  rewrite (bind_ok _ _ _ _ _ (ArkivFacts.ensureInitialized_ready w Hw)).
  unfold buildAttributes, toISOString, bind, gets, remote_call, ret, throw.
  rewrite Hc, Hu, Ho. cbn [svc remote].
  destruct (updateEntity _ _ _ _ _) as [[txHash|] r']; reflexivity.
Qed.

Lemma updateMemory_leaves_the_index_witness :
  updateMemory (H := Demo.silent_listing) (H0 := Demo.plain_codec)
    "0xother" note (Demo.world ["k1"] 0 false)
  = (Ok {| r_entityKey := "0xother"; r_size := 5;
           r_chainId := 60138453056%N;
           r_transactionUrl := Some "https://explorer/tx/0xtx";
           r_transactionHash := Some "0xtx" |},
     Demo.world ["k1"] 0 false).
Proof.
  refine (updateMemory_leaves_the_index (H := Demo.silent_listing)
            (H0 := Demo.plain_codec) (Demo.world ["k1"] 0 false) "0xother"
            note "2025-01-01" "2025-01-02" "0xabc" _ eq_refl eq_refl eq_refl).
  repeat split.
Defined.

(** X26.  A record with an invalid date, or without a readable owner,
    is turned down before anything is sent: [uploadMemory] and
    [updateMemory] raise and leave the world, the remote store included,
    as it was. *)
Theorem invalid_record_is_not_sent {R : Type} `{ArkivClient R} `{Codec}
    (w : World R) (k : string) (memory : MemoryEntry) :
  ready w ->
  (createdAt memory = None \/ updatedAt memory = None ->
   uploadMemory memory w = (Throw "RangeError: Invalid time value", w) /\
   updateMemory k memory w = (Throw "RangeError: Invalid time value", w)) /\
  (createdAt memory <> None -> updatedAt memory <> None ->
   owner memory = None ->
   uploadMemory memory w = (Throw "TypeError", w) /\
   updateMemory k memory w = (Throw "TypeError", w)).
Proof.
  intros Hw. pose proof (ArkivFacts.ensureInitialized_ready w Hw) as E.
  unfold uploadMemory, updateMemory. rewrite !(bind_ok _ _ _ _ _ E).
  unfold buildAttributes, toISOString, bind, ret, throw. split.
  - intros [Hd|Hd]; rewrite Hd; destruct (createdAt memory);
      split; reflexivity.
  - intros Hc Hu Ho. rewrite Ho.
    destruct (createdAt memory); [|congruence].
    destruct (updatedAt memory); [|congruence]. split; reflexivity.
Qed.

Lemma invalid_record_is_not_sent_witness :
  uploadMemory (H := Demo.silent_listing) (H0 := Demo.plain_codec)
    undated (Demo.world ["k1"] 0 false)
  = (Throw "RangeError: Invalid time value", Demo.world ["k1"] 0 false).
Proof.
  refine (proj1 (proj1 (invalid_record_is_not_sent (H := Demo.silent_listing)
                          (H0 := Demo.plain_codec)
                          (Demo.world ["k1"] 0 false) "k1" undated _)
                   (or_introl eq_refl))).
  repeat split.
Defined.

(** X27.  A lookup that fails in [retrieveMemory] is not counted by the
    circuit breaker: the call returns nothing, the lookup is on record,
    and the service object, failure counter included, is as before. *)
Theorem failed_lookup_is_not_counted {R : Type} `{ArkivClient R} `{Codec}
    (w : World R) (k : string) (r' : R) :
  ready w -> getEntity k (remote w) = (None, r') ->
  retrieveMemory k w
  = (Ok None,
     {| svc := svc w; remote := r'; window := window w;
        localStorage := localStorage w; fetchLog := fetchLog w ++ [k] |}).
Proof.
  intros Hw Hget. pose proof Hw as (_ & _ & Hpc & _).
  unfold retrieveMemory.
  rewrite (bind_ok _ _ _ _ _ (ArkivFacts.ensureInitialized_ready w Hw)).
  unfold publicClient_getEntity, log_fetch, remote_call, try_catch, bind,
    gets, modify, ret, throw. cbn [svc remote]. rewrite Hpc.
  cbn [svc remote window localStorage fetchLog]. now rewrite Hget.
Qed.

Lemma failed_lookup_is_not_counted_witness :
  retrieveMemory (H := Demo.unreachable) (H0 := Demo.plain_codec) "k9"
    (Demo.world ["k1"] 4 false)
  = (Ok None,
     {| svc := Demo.service ["k1"] 4 false; remote := tt; window := true;
        localStorage := Some ["k1"]; fetchLog := ["k9"] |}).
Proof.
  refine (failed_lookup_is_not_counted (H := Demo.unreachable)
            (H0 := Demo.plain_codec) (Demo.world ["k1"] 4 false) "k9" tt
            _ eq_refl).
  repeat split.
Defined.

(** *** What a search returns *)

Lemma yields_ret {W A} (Q : A -> Prop) (a : A) : Q a -> yields Q (@ret W A a).
Proof. intros Ha w a' w' [= <- _]. exact Ha. Qed.

Lemma yields_throw {W A} (Q : A -> Prop) e : yields Q (@throw W A e).
Proof. intros w a w' [=]. Qed.

Lemma yields_bind {W A B} (Q : B -> Prop) (m : M W A) (k : A -> M W B) :
  (forall a, yields Q (k a)) -> yields Q (bind m k).
Proof.
  intros Hk w b w'. unfold bind. destruct (m w) as [[a|e] w1]; [|intros [=]].
  apply Hk.
Qed.

Lemma yields_bind_post {W A B} (Q1 : A -> Prop) (Q : B -> Prop) (m : M W A)
    (k : A -> M W B) :
  yields Q1 m -> (forall a, Q1 a -> yields Q (k a)) -> yields Q (bind m k).
Proof.
  intros Hm Hk w b w'. unfold bind.
  destruct (m w) as [[a|e] w1] eqn:E; [|intros [=]].
  apply Hk. exact (Hm w a w1 E).
Qed.

Lemma yields_try_catch {W A} (Q : A -> Prop) (m : M W A) h :
  yields Q m -> (forall e, yields Q (h e)) -> yields Q (try_catch m h).
Proof.
  intros Hm Hh w a w'. unfold try_catch.
  destruct (m w) as [[a'|e] w1] eqn:E.
  - intros [= <- _]. exact (Hm w a' w1 E).
  - apply Hh.
Qed.

Section Search.
Context {R : Type} `{ArkivClient R} `{Codec}.

Lemma within_nil text limit : within text limit [].
Proof. split; [simpl; lia | constructor]. Qed.

Lemma within_slice text limit (ms : list MemoryEntry) :
  (0 <= limit)%Z -> Forall (fun m => matches text m = true) ms ->
  within text limit (slice0 limit ms).
Proof.
  intros Hl Hms. unfold slice0.
  rewrite (proj2 (Z.leb_le 0 limit) Hl). split.
  - rewrite length_take. lia.
  - now apply Forall_take.
Qed.

Lemma Forall_filter_matches text (ms : list MemoryEntry) :
  Forall (fun m => matches text m = true) (List.filter (matches text) ms).
Proof.
  induction ms as [|m ms IH]; simpl; [constructor|].
  destruct (matches text m) eqn:E; [constructor; assumption | exact IH].
Qed.

Lemma owner_filter_keeps (P : MemoryEntry -> Prop) o
    (ms ms' : list MemoryEntry) :
  owner_filter o ms = Some ms' -> Forall P ms -> Forall P ms'.
Proof.
  revert ms'. induction ms as [|m ms IH]; intros ms'; simpl.
  - intros [= <-] _. constructor.
  - destruct (owner m); [|discriminate].
    destruct (owner_filter o ms) as [rest|]; [|discriminate].
    intros E Hms. apply Forall_cons in Hms as [Hm Hms].
    case_bool_decide; injection E as <-; [constructor|]; auto.
Qed.

Lemma fallback_within text limit :
  (0 <= limit)%Z ->
  yields (within text limit)
    (try_catch (searchMemoriesFallback (R := R) text limit) (fun _ => ret [])).
Proof.
  intros Hl. apply yields_try_catch; [|intros e; apply yields_ret, within_nil].
  unfold searchMemoriesFallback.
  apply yields_try_catch; [|intros e; apply yields_ret, within_nil].
  apply yields_bind. intros ms. cbv zeta.
  apply yields_ret, within_slice; [exact Hl | apply Forall_filter_matches].
Qed.

End Search.

Lemma search_within {R : Type} `{ArkivClient R} `{Codec}
    (text : string) (o : option string) (limit : Z) :
  (0 <= limit)%Z ->
  yields (fun ms => List.length ms <= Z.to_nat limit /\
                    Forall (fun m => matches text m = true) ms)
         (searchMemories (R := R) text o limit).
Proof.
  intros Hl. change (yields (within text limit) (searchMemories text o limit)).
  pose proof (fallback_within text limit Hl) as Hfb.
  unfold searchMemories. apply yields_bind. intros _.
  apply yields_try_catch.
  - apply yields_bind. intros es. apply yields_bind. intros rs. cbv zeta.
    destruct o as [[|a r]|].
    + apply yields_bind. intros skip.
      destruct (_ && _); [|apply yields_ret, within_slice;
                            [exact Hl | apply Forall_filter_matches]].
      apply (yields_bind_post (within text limit)); [exact Hfb|].
      intros ms Hms. destruct (Nat.ltb _ _); apply yields_ret;
        [exact Hms | apply within_slice;
                     [exact Hl | apply Forall_filter_matches]].
    + destruct (owner_filter _ _) as [ms|] eqn:E; [|apply yields_throw].
      apply yields_ret, within_slice; [exact Hl|].
      exact (owner_filter_keeps _ _ _ _ E (Forall_filter_matches _ _)).
    + apply yields_bind. intros skip.
      destruct (_ && _); [|apply yields_ret, within_slice;
                            [exact Hl | apply Forall_filter_matches]].
      apply (yields_bind_post (within text limit)); [exact Hfb|].
      intros ms Hms. destruct (Nat.ltb _ _); apply yields_ret;
        [exact Hms | apply within_slice;
                     [exact Hl | apply Forall_filter_matches]].
  - intros e. apply (yields_bind_post (within text limit)); [exact Hfb|].
    intros ms Hms. destruct (Nat.ltb _ _); apply yields_ret;
      [exact Hms | apply within_nil].
Qed.

(** X28.  On an initialized service and for a limit that is not
    negative, [searchMemories] returns, and whatever way it comes by its
    result (the listing, the fallback over the known keys, or the
    fallback after a failure), it returns at most [limit] records, each
    of which passes the text filter. *)
Theorem search_respects_filter_and_limit {R : Type} `{ArkivClient R} `{Codec}
    (w : World R) (text : string) (o : option string) (limit : Z) :
  ready w -> (0 <= limit)%Z ->
  exists ms w',
    searchMemories text o limit w = (Ok ms, w') /\
    List.length ms <= Z.to_nat limit /\
    Forall (fun m => matches text m = true) ms.
Proof.
  intros Hw Hl.
  destruct (ArkivFacts.searchMemories_returns text o limit w Hw)
    as (ms & w' & E).
  exists ms, w'. split; [exact E|].
  exact (search_within text o limit Hl w ms w' E).
Qed.

Lemma search_respects_filter_and_limit_witness :
  exists ms w',
    searchMemories (H := Demo.silent_listing) (H0 := Demo.plain_codec)
      "o" None 1 (Demo.world ["k1"; "k2"] 0 false) = (Ok ms, w') /\
    List.length ms <= Z.to_nat 1 /\
    Forall (fun m => matches (H0 := Demo.plain_codec) "o" m = true) ms.
Proof.
  apply (search_respects_filter_and_limit (H := Demo.silent_listing)
           (H0 := Demo.plain_codec) (Demo.world ["k1"; "k2"] 0 false)
           "o" None 1).
  - repeat split.
  - lia.
Defined.

(** *** Enumerating the keys *)

Lemma follow_pages_all (acc : list Entity) (pages : list (list Entity)) :
  follow_pages acc (map Some pages) = Ok (acc ++ concat pages)%list.
Proof.
  revert acc. induction pages as [|p pages IH]; intros acc; simpl.
  - now rewrite app_nil_r.
  - now rewrite IH, app_assoc.
Qed.

Lemma follow_pages_broken (acc : list Entity) (pages : list (list Entity))
    (rest : list (option (list Entity))) :
  follow_pages acc (map Some pages ++ None :: rest) = Throw "next failed".
Proof.
  revert acc. induction pages as [|p pages IH]; intros acc; simpl;
    [reflexivity | apply IH].
Qed.

(** X29.  A key enumeration that succeeds replaces the key set: with
    all pages of the listing read, [getAllEntityKeys] returns the keys
    of the first page and of the further pages in their order, and the
    key set becomes exactly these keys, each once, whatever it held
    before; it is saved where there is a browser storage. *)
Theorem enumeration_replaces_the_index {R : Type} `{ArkivClient R}
    (w : World R) (o : string) (res : QueryResult)
    (pages : list (list Entity)) (r' : R) :
  ready w -> ownerAddress (svc w) = Some o ->
  query_fetch o false 50%Z (remote w) = (Some res, r') ->
  more res = map Some pages ->
  let keys := map key (entities res ++ concat pages) in
  exists w',
    getAllEntityKeys w = (Ok keys, w') /\
    entityKeys (svc w') = set_of_list keys /\
    NoDup (entityKeys (svc w')) /\
    (forall k, k ∈ entityKeys (svc w') <-> k ∈ keys) /\
    (window w = true -> localStorage w' = Some (entityKeys (svc w'))) /\
    remote w' = r'.
Proof.
  intros Hw Ho Hq Hmore keys.
  assert (fetchOwnedEntities false None true w
          = (Ok (entities res ++ concat pages)%list, with_remote r' w)) as E.
  { rewrite (ArkivFacts.fetchOwnedEntities_ready w o _ _ _ Hw Ho), Hq, Hmore.
    now rewrite follow_pages_all. }
  assert (exists w',
            getAllEntityKeys w = (Ok keys, w') /\
            svc w' = with_keys (set_of_list keys) (svc w) /\
            (window w = true -> localStorage w' = Some (set_of_list keys)) /\
            remote w' = r') as (w' & Eall & Esvc & Els & Er).
  { unfold getAllEntityKeys.
    destruct (window w) eqn:Hwin; eexists; (split; [
      erewrite try_catch_ok; [reflexivity|];
      rewrite (bind_ok _ _ _ _ _ E); cbv zeta;
      unfold set_svc, saveEntityKeysToStorage, with_remote, bind, gets,
        modify, ret;
      cbn [window svc remote localStorage fetchLog]; rewrite Hwin;
      reflexivity |]); cbn [svc localStorage remote]; repeat split;
      discriminate. }
  exists w'. split; [exact Eall|]. rewrite Esvc. cbn [entityKeys with_keys].
  split; [reflexivity|]. split; [apply NoDup_set_of_list|].
  split; [intros k; apply elem_of_set_of_list|]. split; assumption.
Qed.

Lemma enumeration_replaces_the_index_witness :
  let client :=
    Demo.scripted
      {| Demo.listing := None;
         Demo.key_listing :=
           Some {| entities := [Demo.bare "k1"];
                   more := [Some [Demo.bare "k2"; Demo.bare "k1"]] |};
         Demo.stored := []; Demo.accepts_writes := false |} in
  exists w',
    getAllEntityKeys (H := client) (Demo.world ["k0"] 0 false)
    = (Ok ["k1"; "k2"; "k1"], w') /\
    entityKeys (svc w') = set_of_list ["k1"; "k2"; "k1"] /\
    NoDup (entityKeys (svc w')) /\
    (forall k, k ∈ entityKeys (svc w') <-> k ∈ ["k1"; "k2"; "k1"]) /\
    (window (Demo.world ["k0"] 0 false) = true ->
     localStorage w' = Some (entityKeys (svc w'))) /\
    remote w' = tt.
Proof.
  cbv zeta.
  refine (enumeration_replaces_the_index
            (H := Demo.scripted
                    {| Demo.listing := None;
                       Demo.key_listing :=
                         Some {| entities := [Demo.bare "k1"];
                                 more := [Some [Demo.bare "k2";
                                                Demo.bare "k1"]] |};
                       Demo.stored := []; Demo.accepts_writes := false |})
            (Demo.world ["k0"] 0 false) "0xabc"
            _ [[Demo.bare "k2"; Demo.bare "k1"]] tt _ eq_refl eq_refl eq_refl).
  repeat split.
Defined.

(** X30.  A listing is all or nothing: when reading a further page
    fails, the pages read so far are dropped, [getAllEntityKeys] answers
    with the key set it holds and leaves that set and the stored copy as
    they were. *)
Theorem broken_page_drops_the_listing {R : Type} `{ArkivClient R}
    (w : World R) (o : string) (res : QueryResult)
    (pages : list (list Entity)) (rest : list (option (list Entity)))
    (r' : R) :
  ready w -> ownerAddress (svc w) = Some o ->
  query_fetch o false 50%Z (remote w) = (Some res, r') ->
  more res = (map Some pages ++ None :: rest)%list ->
  getAllEntityKeys w = (Ok (entityKeys (svc w)), with_remote r' w).
Proof.
  intros Hw Ho Hq Hmore.
  assert (fetchOwnedEntities false None true w
          = (Throw "next failed", with_remote r' w)) as E.
  { rewrite (ArkivFacts.fetchOwnedEntities_ready w o _ _ _ Hw Ho), Hq, Hmore.
    now rewrite follow_pages_broken. }
  unfold getAllEntityKeys.
  rewrite (try_catch_throw _ _ _ _ _ (bind_throw _ _ _ _ _ E)).
  unfold bind, gets, ret. simpl. now destruct (entityKeys (svc w)).
Qed.

Lemma broken_page_drops_the_listing_witness :
  getAllEntityKeys
    (H := Demo.scripted
            {| Demo.listing := None;
               Demo.key_listing :=
                 Some {| entities := [Demo.bare "k1"];
                         more := [Some [Demo.bare "k2"]; None] |};
               Demo.stored := []; Demo.accepts_writes := false |})
    (Demo.world ["k0"] 0 false)
  = (Ok ["k0"], Demo.world ["k0"] 0 false).
Proof.
  refine (broken_page_drops_the_listing
            (H := Demo.scripted
                    {| Demo.listing := None;
                       Demo.key_listing :=
                         Some {| entities := [Demo.bare "k1"];
                                 more := [Some [Demo.bare "k2"]; None] |};
                       Demo.stored := []; Demo.accepts_writes := false |})
            (Demo.world ["k0"] 0 false) "0xabc"
            _ [[Demo.bare "k2"]] [] tt _ eq_refl eq_refl eq_refl).
  repeat split.
Defined.

End ArkivMore.
